(** * The per-connection UDP forwarder of weave (forwarder.go)

    A shallow embedding of [forwarder.go]: the dispatcher [Forward], the
    IPv4 [fragment]er, the teardown [stopForwarders] and the pipeline task
    [forwarderLoop] with its closures [updateClientPMTU], [appendFrame],
    [flush], [logDrop] and [drain].

    Conventions.
    - Go's [int] is modelled as [Z]: every [int] of this file is a length,
      an MTU or a small difference of such, far from the machine bounds.
      The fixed-width header fields ([uint8], [uint16]) carry their
      wrap-around explicitly.
    - A run-time panic, and a loop that never exits, are outcomes of their
      own ([Panicked], [OutOfFuel]); the state reached before a panic is
      kept, as Go keeps the writes made before it.
    - A channel is an identity ([chan]) into a store.  For a forward
      channel the store holds its queue and a send appends to it; blocking
      on a full channel is a matter of scheduling and is not represented.
      The stop channels have no buffer: the store holds the number of
      senders waiting on each, and a send completes only when a pipeline
      receives it ([handoff]), so [stopForwarders] is modelled up to each
      of its sends.
    - The packet serializer (gopacket), the [Encryptor] and the [UDPSender]
      are interfaces of the program: they are type classes here. *)

From stdpp Require Import gmap list strings.
From Stdlib Require Import ZArith Lia Strings.Byte.

Local Open Scope Z_scope.

(* ===================================================================== *)
(** * Go values *)
(* ===================================================================== *)

Definition uint8 (z : Z) : Z := z `mod` 2 ^ 8.
Definition uint16 (z : Z) : Z := z `mod` 2 ^ 16.

(** [len(s)] *)
Definition len {A : Type} (s : list A) : Z := Z.of_nat (length s).

(** [x &^ y]: bit clear (AND NOT). *)
Definition bitclear (x y : Z) : Z := Z.ldiff x y.

(** How a call ends: it returns [r] in state [s], it panics in state [s],
    it blocks for ever in state [s] (a send on a nil channel), or the fuel
    given to a loop ran out in state [s] before the loop exited. *)
Inductive Outcome (R S : Type) : Type :=
  | Returned (r : R) (s : S)
  | Panicked (s : S)
  | Blocked (s : S)
  | OutOfFuel (s : S).
Arguments Returned {R S} r s.
Arguments Panicked {R S} s.
Arguments Blocked {R S} s.
Arguments OutOfFuel {R S} s.

(** A byte slice whose capacity matters: the elements in view and the
    elements of the backing array behind them. *)
Record slice : Type := Slice {
  s_elems : list byte;
  s_spare : list byte
}.

(** [s[:n]]: legal for [0 <= n <= cap(s)], a panic otherwise.  The result
    is only ever read and resliced inside its length, so it is a list. *)
Definition slice_upto (s : slice) (n : Z) : option (list byte) :=
  if (0 <=? n) && (n <=? len (s_elems s ++ s_spare s))
  then Some (take (Z.to_nat n) (s_elems s ++ s_spare s))
  else None.

(** [(p[:n], p[n:])] for [0 <= n <= len(p)], a panic for a negative [n].
    The fragmenter reslices only under the guard [len(p) > n]. *)
Definition split_at (p : list byte) (n : Z) : option (list byte * list byte) :=
  if (0 <=? n) && (n <=? len p)
  then Some (take (Z.to_nat n) p, drop (Z.to_nat n) p)
  else None.

(** [make([]byte, n)]: a panic for a negative [n]. *)
Definition make_bytes (n : Z) : option (list byte) :=
  if 0 <=? n then Some (replicate (Z.to_nat n) x00) else None.

(* ===================================================================== *)
(** * Frames, layers and errors *)
(* ===================================================================== *)

Definition Peer : Type := N.

Record ForwardedFrame : Type := {
  srcPeer : Peer;
  dstPeer : Peer;
  frame : list byte
}.

Definition set_frame (b : list byte) (f : ForwardedFrame) : ForwardedFrame :=
  {| srcPeer := srcPeer f; dstPeer := dstPeer f; frame := b |}.

(** [layers.Ethernet] *)
Record Ethernet : Type := {
  eth_SrcMAC : list byte;
  eth_DstMAC : list byte;
  eth_EthernetType : Z;   (* uint16 *)
  eth_Length : Z          (* uint16 *)
}.

Definition set_eth_Length (l : Z) (eth : Ethernet) : Ethernet :=
  {| eth_SrcMAC := eth_SrcMAC eth; eth_DstMAC := eth_DstMAC eth;
     eth_EthernetType := eth_EthernetType eth; eth_Length := l |}.

(** [layers.IPv4] *)
Record IPv4 : Type := {
  ip_Version : Z;         (* uint8 *)
  ip_IHL : Z;             (* uint8 *)
  ip_TOS : Z;             (* uint8 *)
  ip_Length : Z;          (* uint16 *)
  ip_Id : Z;              (* uint16 *)
  ip_Flags : Z;           (* layers.IPv4Flag, uint8 *)
  ip_FragOffset : Z;      (* uint16 *)
  ip_TTL : Z;             (* uint8 *)
  ip_Protocol : Z;        (* uint8 *)
  ip_Checksum : Z;        (* uint16 *)
  ip_SrcIP : list byte;
  ip_DstIP : list byte;
  ip_Options : list (list byte);
  ip_Payload : slice      (* BaseLayer.Payload *)
}.

Definition set_ip_Length (l : Z) (ip : IPv4) : IPv4 :=
  {| ip_Version := ip_Version ip; ip_IHL := ip_IHL ip; ip_TOS := ip_TOS ip;
     ip_Length := l; ip_Id := ip_Id ip; ip_Flags := ip_Flags ip;
     ip_FragOffset := ip_FragOffset ip; ip_TTL := ip_TTL ip;
     ip_Protocol := ip_Protocol ip; ip_Checksum := ip_Checksum ip;
     ip_SrcIP := ip_SrcIP ip; ip_DstIP := ip_DstIP ip;
     ip_Options := ip_Options ip; ip_Payload := ip_Payload ip |}.

Definition set_ip_Flags (fl : Z) (ip : IPv4) : IPv4 :=
  {| ip_Version := ip_Version ip; ip_IHL := ip_IHL ip; ip_TOS := ip_TOS ip;
     ip_Length := ip_Length ip; ip_Id := ip_Id ip; ip_Flags := fl;
     ip_FragOffset := ip_FragOffset ip; ip_TTL := ip_TTL ip;
     ip_Protocol := ip_Protocol ip; ip_Checksum := ip_Checksum ip;
     ip_SrcIP := ip_SrcIP ip; ip_DstIP := ip_DstIP ip;
     ip_Options := ip_Options ip; ip_Payload := ip_Payload ip |}.

Definition set_ip_FragOffset (o : Z) (ip : IPv4) : IPv4 :=
  {| ip_Version := ip_Version ip; ip_IHL := ip_IHL ip; ip_TOS := ip_TOS ip;
     ip_Length := ip_Length ip; ip_Id := ip_Id ip; ip_Flags := ip_Flags ip;
     ip_FragOffset := o; ip_TTL := ip_TTL ip;
     ip_Protocol := ip_Protocol ip; ip_Checksum := ip_Checksum ip;
     ip_SrcIP := ip_SrcIP ip; ip_DstIP := ip_DstIP ip;
     ip_Options := ip_Options ip; ip_Payload := ip_Payload ip |}.

(** gopacket's [layers.IPv4MoreFragments] ([1 << 0]) and
    [layers.EthernetTypeLLC] ([0]). *)
Definition IPv4MoreFragments : Z := 1.
Definition EthernetTypeLLC : Z := 0.

(** [EthernetDecoder]: the decoded layers of a frame. *)
Inductive LayerType : Type := LayerTypeEthernet | LayerTypeIPv4.

Record EthernetDecoder : Type := {
  eth : Ethernet;
  ip : IPv4;
  decoded : list LayerType
}.

(** Go [error] values met by the forwarder. *)
Inductive error : Type :=
  | FrameTooBigError (PMTU : Z) (frame : option ForwardedFrame)
  | PosixErrno (errno : Z)
  | OtherError (msg : string).

(** [syscall.ENOBUFS] on Linux. *)
Definition ENOBUFS : Z := 105.

(** Modelled from the spec: [PosixError] (defined outside forwarder.go)
    recovers the errno of a transport error; 0 when there is none. *)
Definition PosixError (err : error) : Z :=
  match err with
  | PosixErrno n => n
  | _ => 0
  end.

(** Constants of the package that forwarder.go uses and does not define. *)
Class Constants : Type := {
  EthernetOverhead : Z;
  UDPOverhead : Z
}.

(** [gopacket.SerializeOptions] and [gopacket.SerializeLayers] applied to
    an Ethernet layer, an IPv4 layer and a payload: the bytes of the buffer,
    or an error. *)
Record SerializeOptions : Type := {
  FixLengths : bool;
  ComputeChecksums : bool
}.

Class LayerSerializer : Type :=
  SerializeLayers : SerializeOptions -> Ethernet -> IPv4 -> list byte -> error + list byte.

(* ===================================================================== *)
(** * The fragmenter *)
(* ===================================================================== *)

(** The layers handed to one call of [SerializeLayers]. *)
Record Segment : Type := {
  seg_eth : Ethernet;
  seg_ip : IPv4;
  seg_payload : list byte
}.

Section Fragmenter.
  Context `{!Constants}.

  (** [(pmtu - EthernetOverhead - headerSize) &^ 7] *)
Definition maxSegmentSize (pmtu headerSize : Z) : Z :=
    bitclear (pmtu - EthernetOverhead - headerSize) 7.

  (** The two places that set [eth.Length] from [ip.Length]. *)
Definition fix_eth_Length (e : Ethernet) (i : IPv4) : Ethernet :=
    if eth_EthernetType e =? EthernetTypeLLC
    then set_eth_Length (ip_Length i) e
    else set_eth_Length 0 e.

Definition fragment_opts : SerializeOptions :=
    {| FixLengths := false; ComputeChecksums := true |}.

  Section Loop.
    Variables (headerSize mss payloadSize offsetBase origFlags : Z).

    (** One pass over the loop body up to the call of [SerializeLayers]:
        the segment to serialize, and the payload, [eth] and [ip] carried to
        the next pass.  [None] is the panic of [payload[:maxSegmentSize]]. *)
Definition next_segment (offset : Z) (payload : list byte) (e : Ethernet) (i : IPv4)
      : option (Segment * list byte) :=
      let chunk :=
        if len payload <=? mss then
          (* last one *)
          let i1 := set_ip_Flags origFlags
                      (set_ip_Length (uint16 (len payload + headerSize)) i) in
          Some (payload, payload, fix_eth_Length e i1, i1)
        else
          match split_at payload mss with
          | Some (segmentPayload, rest) => Some (segmentPayload, rest, e, i)
          | None => None
          end in
      match chunk with
      | Some (segmentPayload, rest, e1, i1) =>
          let i2 := set_ip_FragOffset (uint16 (Z.shiftr (offset + offsetBase) 3)) i1 in
          Some ({| seg_eth := e1; seg_ip := i2; seg_payload := segmentPayload |}, rest)
      | None => None
      end.

    Context `{!LayerSerializer} {St : Type}.
    Variables (frame0 : ForwardedFrame) (forward : ForwardedFrame -> St -> St).

    (** [for offset := 0; offset < payloadSize; offset += maxSegmentSize] *)
Fixpoint fragment_loop (fuel : nat) (offset : Z) (payload : list byte)
        (e : Ethernet) (i : IPv4) (st : St) : Outcome (option error) St :=
      match fuel with
      | O => OutOfFuel st
      | S fuel' =>
          if offset <? payloadSize then
            match next_segment offset payload e i with
            | None => Panicked st
            | Some (seg, rest) =>
                match SerializeLayers fragment_opts (seg_eth seg) (seg_ip seg) (seg_payload seg) with
                | inl err => Returned (Some err) st
                | inr buf =>
                    (* make copies of the frame we received *)
                    fragment_loop fuel' (offset + mss) rest (seg_eth seg) (seg_ip seg)
                                  (forward (set_frame buf frame0) st)
                end
            end
          else Returned None st
      end.
  End Loop.

  (** [fragment(eth, ip, pmtu, frame, forward)] *)
Definition fragment `{!LayerSerializer} {St : Type} (fuel : nat)
      (e : Ethernet) (i : IPv4) (pmtu : Z) (frame0 : ForwardedFrame)
      (forward : ForwardedFrame -> St -> St) (st : St) : Outcome (option error) St :=
    let headerSize := ip_IHL i * 4 in
    let mss := maxSegmentSize pmtu headerSize in
    let payloadSize := ip_Length i - headerSize in
    match slice_upto (ip_Payload i) payloadSize with
    | None => Panicked st
    | Some payload =>
        let offsetBase := Z.shiftl (ip_FragOffset i) 3 in
        let origFlags := ip_Flags i in
        let i1 := set_ip_Flags (Z.lor (ip_Flags i) IPv4MoreFragments) i in
        let i2 := set_ip_Length (uint16 (headerSize + mss)) i1 in
        let e1 := fix_eth_Length e i2 in
        fragment_loop headerSize mss payloadSize offsetBase origFlags frame0 forward
                      fuel 0 payload e1 i2 st
    end.
End Fragmenter.

(* ===================================================================== *)
(** * The connection, its channels and the dispatcher *)
(* ===================================================================== *)

Definition chan : Type := nat.

(** What [conn.log] and [conn.Router.LogFrame] are given. *)
Inductive LogEntry : Type :=
  | LogAwaitingContact                 (* "Cannot forward frame yet - awaiting contact" *)
  | LogFragmenting (b : list byte) (e : Ethernet)
  | LogDroppingTooBig (frameLen pmtu : Z).

(** The fields of [LocalConnection] that forwarder.go reads or writes. *)
Record LocalConnection : Type := {
  local : Peer;
  remote : Peer;
  forwardChan : option chan;
  forwardChanDF : option chan;
  stopForward : option chan;
  stopForwardDF : option chan;
  clientPMTU : Z;
  clientPMTUVerified : bool;
  stackFrag : bool;
  fatalErrors : list error
}.

(** The connection together with the channels its handles point to and the
    log.  The stop channels are made with capacity 0: a send on one waits
    until a pipeline receives it, and [stopChans] holds, for each channel,
    the number of senders waiting in a send on it. *)
Record World : Type := {
  conn : LocalConnection;
  frameChans : gmap chan (list ForwardedFrame);
  stopChans : gmap chan nat;
  logged : list LogEntry
}.

Definition set_conn (c : LocalConnection) (w : World) : World :=
  {| conn := c; frameChans := frameChans w; stopChans := stopChans w; logged := logged w |}.

Definition set_frameChans (m : gmap chan (list ForwardedFrame)) (w : World) : World :=
  {| conn := conn w; frameChans := m; stopChans := stopChans w; logged := logged w |}.

Definition set_stopChans (m : gmap chan nat) (w : World) : World :=
  {| conn := conn w; frameChans := frameChans w; stopChans := m; logged := logged w |}.

(** [conn.log(...)] *)
Definition log_entry (x : LogEntry) (w : World) : World :=
  {| conn := conn w; frameChans := frameChans w; stopChans := stopChans w;
     logged := logged w ++ [x] |}.

(** The queue of a frame channel, and [c <- f]. *)
Definition queue (c : chan) (w : World) : list ForwardedFrame := frameChans w !!! c.

Definition chan_send (c : chan) (f : ForwardedFrame) (w : World) : World :=
  set_frameChans (<[c := queue c w ++ [f]]> (frameChans w)) w.

(** [s <- nil] on a stop channel, from its start: the sender joins those
    waiting on [s].  The send completes when a pipeline receives it, in the
    stop case of its outer [select]. *)
Definition stop_send (s : chan) (w : World) : World :=
  set_stopChans (<[s := S (stopChans w !!! s)]> (stopChans w)) w.

Section Dispatcher.
  Context `{!Constants, !LayerSerializer}.

  (** [len(frame.frame)-EthernetOverhead <= clientPMTU] *)
Definition fits (f : ForwardedFrame) (pmtu : Z) : bool :=
    len (frame f) - EthernetOverhead <=? pmtu.

  (** [dec == nil || len(dec.decoded) < 2] *)
Definition undecoded (dec : option EthernetDecoder) : bool :=
    match dec with
    | None => true
    | Some d => len (decoded d) <? 2
    end.

  (** [conn.Forward(df, frame, dec)] *)
Definition Forward (fuel : nat) (df : bool) (f : ForwardedFrame)
      (dec : option EthernetDecoder) (w : World) : Outcome (option error) World :=
    let pmtu := clientPMTU (conn w) in
    match forwardChan (conn w), forwardChanDF (conn w) with
    | Some fwd, Some fwdDF =>
        if df then
          if fits f pmtu
          then Returned None (chan_send fwdDF f w)
          else Returned (Some (FrameTooBigError pmtu (Some f))) w
        else
          if stackFrag (conn w) || undecoded dec
          then Returned None (chan_send fwd f w)
          else if fits f pmtu
          then Returned None (chan_send fwdDF f w)
          else
            match dec with
            | Some d =>
                fragment fuel (eth d) (ip d) pmtu f (chan_send fwdDF)
                         (log_entry (LogFragmenting (frame f) (eth d)) w)
            | None => Panicked w   (* [dec.eth] on a nil [dec]; excluded by the test above *)
            end
    | _, _ => Returned None (log_entry LogAwaitingContact w)
    end.
End Dispatcher.

(** Where a call of [stopForwarders] stands once it has cleared the forward
    handles: waiting in its first send, on [conn.stopForward]; waiting in
    its second send, on what [conn.stopForwardDF] held when the first send
    completed (on a nil channel it waits for ever); or returned. *)
Inductive Stopper : Type :=
  | SendingStop (s : chan)
  | SendingStopDF (s : option chan)
  | Stopped.

(** [conn.stopForwarders()] up to its return or up to its first send, in
    which it waits for the pipeline to receive. *)
Definition stopForwarders (w : World) : Stopper * World :=
  let c := conn w in
  let w1 := set_conn
      {| local := local c; remote := remote c;
         forwardChan := None; forwardChanDF := None;
         stopForward := stopForward c; stopForwardDF := stopForwardDF c;
         clientPMTU := clientPMTU c; clientPMTUVerified := clientPMTUVerified c;
         stackFrag := stackFrag c; fatalErrors := fatalErrors c |} w in
  match stopForward c with
  | Some s => (SendingStop s, stop_send s w1)
  | None => (Stopped, w1)
  end.

(** [stopForwarders] going on once the send it waits in has been received:
    after the first send it starts the second, on [conn.stopForwardDF]
    whatever it holds; after the second it returns.  A send on a nil
    channel is never received. *)
Definition stop_received (k : Stopper) (w : World) : Stopper * World :=
  match k with
  | SendingStop _ =>
      match stopForwardDF (conn w) with
      | Some sDF => (SendingStopDF (Some sDF), stop_send sDF w)
      | None => (SendingStopDF None, w)
      end
  | SendingStopDF (Some _) => (Stopped, w)
  | SendingStopDF None => (SendingStopDF None, w)
  | Stopped => (Stopped, w)
  end.

(** The channel on which the call waits for a receiver. *)
Definition waiting_on (k : Stopper) : option chan :=
  match k with
  | SendingStop s => Some s
  | SendingStopDF s => s
  | Stopped => None
  end.

(* ===================================================================== *)
(** * The pipeline task *)
(* ===================================================================== *)

(** The [Encryptor] interface: a batch builder.  [Bytes] returns the
    datagram and the builder after its reset. *)
Class Encryptor (E : Type) : Type := {
  AppendFrame : ForwardedFrame -> E -> E;
  Bytes : E -> list byte * E;
  TotalLen : E -> Z;
  FrameOverhead : E -> Z;
  PacketOverhead : E -> Z
}.

(** The [UDPSender] interface. *)
Class UDPSender (U : Type) : Type := {
  Send : list byte -> U -> option error * U;
  Shutdown : U -> option error * U
}.

(** The calls the task makes on its encryptor and sender, in order.  A send
    is recorded with the value [maxPayload] had when it was made. *)
Inductive IOEvent : Type :=
  | EvAppendFrame (f : ForwardedFrame)
  | EvSend (msg : list byte) (budget : Z).

(** The parameters and local variables of [forwarderLoop]. *)
Record Locals (E U : Type) : Type := {
  l_forwardCh : chan;
  l_stop : chan;
  l_enc : E;
  l_udpSender : U;
  l_pmtu : Z;
  l_pmtuVerifyTick : bool;   (* a timer is armed; [false] is the nil channel *)
  l_clientPMTU : Z;
  l_maxPayload : Z;
  l_trace : list IOEvent
}.
Arguments l_forwardCh {E U} _.
Arguments l_stop {E U} _.
Arguments l_enc {E U} _.
Arguments l_udpSender {E U} _.
Arguments l_pmtu {E U} _.
Arguments l_pmtuVerifyTick {E U} _.
Arguments l_clientPMTU {E U} _.
Arguments l_maxPayload {E U} _.
Arguments l_trace {E U} _.

(** Where the task stands: at the outer [select], at the [select] of the
    inner loop, returned, or stopped by a panic. *)
Inductive Control : Type := AtOuterSelect | AtInnerSelect | Exited | Crashed.

Record Task (E U : Type) : Type := {
  ctl : Control;
  locals : Locals E U
}.
Arguments ctl {E U} _.
Arguments locals {E U} _.

(** The case the outer [select] takes. *)
Inductive Choice : Type := TakeStop | TakeTick | TakeFrame.

(** Modelled from the spec: [conn.setClientPMTU] (defined outside
    forwarder.go) writes the new client PMTU through the connection lock. *)
Definition setClientPMTU (p : Z) (w : World) : World :=
  let c := conn w in
  set_conn
    {| local := local c; remote := remote c;
       forwardChan := forwardChan c; forwardChanDF := forwardChanDF c;
       stopForward := stopForward c; stopForwardDF := stopForwardDF c;
       clientPMTU := p; clientPMTUVerified := clientPMTUVerified c;
       stackFrag := stackFrag c; fatalErrors := fatalErrors c |} w.

(** Modelled from the spec: [conn.isClientPMTUVerfied] (defined outside
    forwarder.go) reads the flag the control plane sets. *)
Definition isClientPMTUVerfied (w : World) : bool := clientPMTUVerified (conn w).

(** Modelled from the spec: [conn.CheckFatal] (defined outside forwarder.go)
    marks the error as fatal for the connection. *)
Definition CheckFatal (err : error) (w : World) : World :=
  let c := conn w in
  set_conn
    {| local := local c; remote := remote c;
       forwardChan := forwardChan c; forwardChanDF := forwardChanDF c;
       stopForward := stopForward c; stopForwardDF := stopForwardDF c;
       clientPMTU := clientPMTU c; clientPMTUVerified := clientPMTUVerified c;
       stackFrag := stackFrag c; fatalErrors := fatalErrors c ++ [err] |} w.

Section Pipeline.
  Context `{!Constants} {E U : Type} `{!Encryptor E, !UDPSender U}.

Definition set_enc (e : E) (l : Locals E U) : Locals E U :=
    {| l_forwardCh := l_forwardCh l; l_stop := l_stop l; l_enc := e;
       l_udpSender := l_udpSender l; l_pmtu := l_pmtu l;
       l_pmtuVerifyTick := l_pmtuVerifyTick l; l_clientPMTU := l_clientPMTU l;
       l_maxPayload := l_maxPayload l; l_trace := l_trace l |}.

Definition set_udpSender (u : U) (l : Locals E U) : Locals E U :=
    {| l_forwardCh := l_forwardCh l; l_stop := l_stop l; l_enc := l_enc l;
       l_udpSender := u; l_pmtu := l_pmtu l;
       l_pmtuVerifyTick := l_pmtuVerifyTick l; l_clientPMTU := l_clientPMTU l;
       l_maxPayload := l_maxPayload l; l_trace := l_trace l |}.

Definition set_pmtuVerifyTick (b : bool) (l : Locals E U) : Locals E U :=
    {| l_forwardCh := l_forwardCh l; l_stop := l_stop l; l_enc := l_enc l;
       l_udpSender := l_udpSender l; l_pmtu := l_pmtu l;
       l_pmtuVerifyTick := b; l_clientPMTU := l_clientPMTU l;
       l_maxPayload := l_maxPayload l; l_trace := l_trace l |}.

Definition set_clientPMTU (p : Z) (l : Locals E U) : Locals E U :=
    {| l_forwardCh := l_forwardCh l; l_stop := l_stop l; l_enc := l_enc l;
       l_udpSender := l_udpSender l; l_pmtu := l_pmtu l;
       l_pmtuVerifyTick := l_pmtuVerifyTick l; l_clientPMTU := p;
       l_maxPayload := l_maxPayload l; l_trace := l_trace l |}.

Definition set_maxPayload (p : Z) (l : Locals E U) : Locals E U :=
    {| l_forwardCh := l_forwardCh l; l_stop := l_stop l; l_enc := l_enc l;
       l_udpSender := l_udpSender l; l_pmtu := l_pmtu l;
       l_pmtuVerifyTick := l_pmtuVerifyTick l; l_clientPMTU := l_clientPMTU l;
       l_maxPayload := p; l_trace := l_trace l |}.

Definition record (ev : IOEvent) (l : Locals E U) : Locals E U :=
    {| l_forwardCh := l_forwardCh l; l_stop := l_stop l; l_enc := l_enc l;
       l_udpSender := l_udpSender l; l_pmtu := l_pmtu l;
       l_pmtuVerifyTick := l_pmtuVerifyTick l; l_clientPMTU := l_clientPMTU l;
       l_maxPayload := l_maxPayload l; l_trace := l_trace l ++ [ev] |}.

  (** [enc.AppendFrame(frame)] *)
Definition enc_AppendFrame (f : ForwardedFrame) (l : Locals E U) : Locals E U :=
    set_enc (AppendFrame f (l_enc l)) (record (EvAppendFrame f) l).

  (** [udpSender.Send(enc.Bytes())] *)
Definition send_Bytes (l : Locals E U) : option error * Locals E U :=
    let '(msg, e1) := Bytes (l_enc l) in
    let '(err, u1) := Send msg (l_udpSender l) in
    (err, set_udpSender u1 (set_enc e1 (record (EvSend msg (l_maxPayload l)) l))).

  (** One pass of the loop of [updateClientPMTU]; the error of [Send] is
      dropped there. *)
Definition verify_once (f : ForwardedFrame) (l : Locals E U) : Locals E U :=
    snd (send_Bytes (enc_AppendFrame f l)).

  (** The closure [updateClientPMTU]. *)
Definition updateClientPMTU (l : Locals E U) (w : World)
    : Outcome unit (Locals E U * World) :=
    let w1 := setClientPMTU (l_clientPMTU l) w in
    match make_bytes (l_clientPMTU l + EthernetOverhead) with
    | None => Panicked (l, w1)
    | Some b =>
        let pmtuVerifyFrame :=
          {| srcPeer := local (conn w1); dstPeer := remote (conn w1); frame := b |} in
        Returned tt
          (set_pmtuVerifyTick true (Nat.iter 10 (verify_once pmtuVerifyFrame) l), w1)
    end.

  (** The closure [appendFrame]. *)
Definition appendFrame (f : ForwardedFrame) (l : Locals E U) : bool * Locals E U :=
    let frameLen := len (frame f) in
    if TotalLen (l_enc l) + FrameOverhead (l_enc l) + frameLen >? l_maxPayload l
    then (false, l)
    else (true, enc_AppendFrame f l).

  (** The closure [flush]. *)
Definition flush (l : Locals E U) (w : World) : Outcome unit (Locals E U * World) :=
    let '(err, l1) := send_Bytes l in
    match err with
    | None => Returned tt (l1, w)
    | Some (FrameTooBigError p _) =>
        let l2 := set_maxPayload (p - UDPOverhead) l1 in
        let l3 := set_clientPMTU (l_maxPayload l2 - PacketOverhead (l_enc l2)
                                  - FrameOverhead (l_enc l2) - EthernetOverhead) l2 in
        updateClientPMTU l3 w
    | Some e =>
        if PosixError e =? ENOBUFS
        then Returned tt (l1, w)            (* TODO handle this better *)
        else Returned tt (l1, CheckFatal e w)
    end.

  (** The closure [logDrop]. *)
Definition logDrop (f : ForwardedFrame) (l : Locals E U) (w : World) : World :=
    log_entry (LogDroppingTooBig (len (frame f)) (l_pmtu l)) w.

  (** The closure [drain]: receive until the channel is empty. *)
Definition drain (l : Locals E U) (w : World) : World :=
    set_frameChans (<[l_forwardCh l := []]> (frameChans w)) w.

  (** [<-forwardCh] when the queue holds [f :: q]. *)
Definition chan_pop (c : chan) (q : list ForwardedFrame) (w : World) : World :=
    set_frameChans (<[c := q]> (frameChans w)) w.

  (** Leaving [forwarderLoop]: the deferred [udpSender.Shutdown()] runs. *)
Definition leave (c : Control) (l : Locals E U) : Task E U :=
    {| ctl := c; locals := set_udpSender (snd (Shutdown (l_udpSender l))) l |}.

  (** After a closure: go on at [c], or stop on its panic. *)
Definition resume (c : Control) (o : Outcome unit (Locals E U * World)) : Task E U * World :=
    match o with
    | Returned _ (l, w) => ({| ctl := c; locals := l |}, w)
    | Panicked (l, w) | Blocked (l, w) | OutOfFuel (l, w) => (leave Crashed l, w)
    end.

  (** One pass of the outer loop up to its next [select], for the case
      taken; [None] when that case is not ready. *)
Definition outer_select (c : Choice) (l : Locals E U) (w : World) : option (Task E U * World) :=
    match c with
    | TakeStop =>
        match stopChans w !!! l_stop l with
        | O => None
        | S n =>
            Some (leave Exited l,
                  drain l (set_stopChans (<[l_stop l := n]> (stopChans w)) w))
        end
    | TakeTick =>
        if l_pmtuVerifyTick l then
          let l1 := set_pmtuVerifyTick false l in
          if negb (isClientPMTUVerfied w)
          then Some (resume AtOuterSelect
                       (updateClientPMTU (set_clientPMTU (l_clientPMTU l1 - 10) l1) w))
          else Some ({| ctl := AtOuterSelect; locals := l1 |}, w)
        else None
    | TakeFrame =>
        match queue (l_forwardCh l) w with
        | [] => None
        | f :: q =>
            let w1 := chan_pop (l_forwardCh l) q w in
            let '(ok, l1) := appendFrame f l in
            if ok
            then Some ({| ctl := AtInnerSelect; locals := l1 |}, w1)
            else Some ({| ctl := AtOuterSelect; locals := l1 |}, logDrop f l1 w1)
        end
    end.

  (** One pass of the inner loop [for !flushed]: its [select] receives when
      the queue holds a frame and takes [default] when it is empty.  No
      code closes a forward channel, so a receive never reports [!ok]. *)
Definition inner_select (l : Locals E U) (w : World) : Task E U * World :=
    match queue (l_forwardCh l) w with
    | f :: q =>
        let w1 := chan_pop (l_forwardCh l) q w in
        let '(ok, l1) := appendFrame f l in
        if ok then ({| ctl := AtInnerSelect; locals := l1 |}, w1)
        else
          match flush l1 w1 with
          | Returned _ (l2, w2) =>
              let '(ok2, l3) := appendFrame f l2 in
              if ok2
              then ({| ctl := AtInnerSelect; locals := l3 |}, w2)
              else ({| ctl := AtOuterSelect; locals := l3 |}, logDrop f l3 w2)
          | o => resume Crashed o
          end
    | [] => resume AtOuterSelect (flush l w)
    end.

  (** [forwarderLoop(forwardCh, stop, enc, udpSender, pmtu)] on entry. *)
Definition forwarderLoop (forwardCh stop : chan) (e : E) (u : U) (pmtu : Z) : Task E U :=
    {| ctl := AtOuterSelect;
       locals := {| l_forwardCh := forwardCh; l_stop := stop; l_enc := e;
                    l_udpSender := u; l_pmtu := pmtu;
                    l_pmtuVerifyTick := false; l_clientPMTU := 0;
                    l_maxPayload := pmtu - UDPOverhead; l_trace := [] |} |}.

  (** The steps of the task, interleaved with what the rest of the program
      does to the connection and its channels. *)
Inductive task_step : Task E U * World -> Task E U * World -> Prop :=
    | step_outer c l w r :
        outer_select c l w = Some r ->
        task_step ({| ctl := AtOuterSelect; locals := l |}, w) r
    | step_inner l w :
        task_step ({| ctl := AtInnerSelect; locals := l |}, w) (inner_select l w)
    | step_world t w w' :
        task_step (t, w) (t, w').

Inductive reachable (init : Task E U * World) : Task E U * World -> Prop :=
    | reach_init : reachable init init
    | reach_step s s' : reachable init s -> task_step s s' -> reachable init s'.

  (** The rendezvous on a stop channel: a task standing at its outer
      [select] receives the send in which a call of [stopForwarders] waits;
      the task goes through its stop case and the call goes on.  [None]
      when the task stands elsewhere or has left, or when the call waits on
      another channel or on none. *)
Definition handoff (k : Stopper) (t : Task E U) (w : World)
    : option (Stopper * Task E U * World) :=
    match ctl t, waiting_on k with
    | AtOuterSelect, Some s =>
        if decide (l_stop (locals t) = s) then
          match outer_select TakeStop (locals t) w with
          | Some (t1, w1) => Some (fst (stop_received k w1), t1, snd (stop_received k w1))
          | None => None
          end
        else None
    | _, _ => None
    end.
End Pipeline.

(* ===================================================================== *)
(** * Views of the fragmenter used to state its properties *)
(* ===================================================================== *)

(** [ceil(a / b)] for a positive [b]. *)
Definition ceil_div (a b : Z) : Z := (a + b - 1) / b.

Section FragmenterViews.
  Context `{!Constants}.

  (** The segments the loop builds, pass after pass, as long as no call of
      [SerializeLayers] fails: [fragment_loop] without its effects. *)
Fixpoint segments_from (headerSize mss payloadSize offsetBase origFlags : Z)
      (fuel : nat) (offset : Z) (payload : list byte) (e : Ethernet) (i : IPv4)
    : list Segment :=
    match fuel with
    | O => []
    | S fuel' =>
        if offset <? payloadSize then
          match next_segment headerSize mss offsetBase origFlags offset payload e i with
          | None => []
          | Some (seg, rest) =>
              seg :: segments_from headerSize mss payloadSize offsetBase origFlags
                       fuel' (offset + mss) rest (seg_eth seg) (seg_ip seg)
          end
        else []
    end.

  (** The same for [fragment]: its set-up, then the loop. *)
Definition segments (fuel : nat) (e : Ethernet) (i : IPv4) (pmtu : Z) : list Segment :=
    let headerSize := ip_IHL i * 4 in
    let mss := maxSegmentSize pmtu headerSize in
    let payloadSize := ip_Length i - headerSize in
    match slice_upto (ip_Payload i) payloadSize with
    | None => []
    | Some payload =>
        let i1 := set_ip_Flags (Z.lor (ip_Flags i) IPv4MoreFragments) i in
        let i2 := set_ip_Length (uint16 (headerSize + mss)) i1 in
        segments_from headerSize mss payloadSize (Z.shiftl (ip_FragOffset i) 3) (ip_Flags i)
                      fuel 0 payload (fix_eth_Length e i2) i2
    end.

  (** The effects of the loop on a list of segments: serialize and forward
      each in turn, up to the first error. *)
Fixpoint forward_segments `{!LayerSerializer} {St : Type} (frame0 : ForwardedFrame)
      (forward : ForwardedFrame -> St -> St) (segs : list Segment) (st : St)
    : option error * St :=
    match segs with
    | [] => (None, st)
    | seg :: segs' =>
        match SerializeLayers fragment_opts (seg_eth seg) (seg_ip seg) (seg_payload seg) with
        | inl err => (Some err, st)
        | inr buf => forward_segments frame0 forward segs' (forward (set_frame buf frame0) st)
        end
    end.

  (** The header fields as gopacket's decoder leaves them: each inside its
      width on the wire. *)
Definition decoded_IPv4 (i : IPv4) : Prop :=
    0 <= ip_IHL i < 2 ^ 4 /\ 0 <= ip_Length i < 2 ^ 16 /\
    0 <= ip_Flags i < 2 ^ 3 /\ 0 <= ip_FragOffset i < 2 ^ 13.
End FragmenterViews.

(* ===================================================================== *)
(** * Instances to run the model *)
(* ===================================================================== *)

(** Modelled from the spec: [EthernetOverhead] is 14 in scenario S3; for
    [UDPOverhead] the IPv4 and UDP headers, 20 + 8 bytes. *)
Definition weave_constants : Constants :=
  {| EthernetOverhead := 14; UDPOverhead := 28 |}.

Definition byte_of_Z (z : Z) : byte :=
  default x00 (Byte.of_N (Z.to_N (z `mod` 256))).

Definition be16 (z : Z) : list byte := [byte_of_Z (z / 256); byte_of_Z z].

(** A serializer in the wire format of Ethernet and of RFC 791 (checksum
    field left zero); it refuses IPv4 options. *)
Definition wire_serializer : LayerSerializer :=
  fun _ e i payload =>
    match ip_Options i with
    | _ :: _ => inl (OtherError "cannot serialize IPv4 options")
    | [] =>
        inr (eth_DstMAC e ++ eth_SrcMAC e
             ++ be16 (if eth_EthernetType e =? EthernetTypeLLC
                      then eth_Length e else eth_EthernetType e)
             ++ [byte_of_Z (ip_Version i * 16 + ip_IHL i); byte_of_Z (ip_TOS i)]
             ++ be16 (ip_Length i) ++ be16 (ip_Id i)
             ++ be16 (ip_Flags i * 2 ^ 13 + ip_FragOffset i)
             ++ [byte_of_Z (ip_TTL i); byte_of_Z (ip_Protocol i)] ++ be16 0
             ++ ip_SrcIP i ++ ip_DstIP i ++ payload)
    end.

(** A serializer that fails on every call. *)
Definition failing_serializer : LayerSerializer :=
  fun _ _ _ _ => inl (OtherError "serialize").

(** An encryptor of the null kind: a datagram is a one-byte prefix and,
    per frame, a two-byte length and the frame. *)
Record PlainEncryptor : Type := { pe_batch : list byte }.

Definition plain_encryptor : Encryptor PlainEncryptor :=
  {| AppendFrame := fun f e => {| pe_batch := pe_batch e ++ be16 (len (frame f)) ++ frame f |};
     Bytes := fun e => (x01 :: pe_batch e, {| pe_batch := [] |});
     TotalLen := fun e => 1 + len (pe_batch e);
     FrameOverhead := fun _ => 2;
     PacketOverhead := fun _ => 1 |}.

(** A sender that answers from a script, then with success. *)
Record ScriptedSender : Type := { ss_script : list (option error) }.

Definition scripted_sender : UDPSender ScriptedSender :=
  {| Send := fun _ s => (default None (head (ss_script s)), {| ss_script := tail (ss_script s) |});
     Shutdown := fun s => (None, s) |}.

(** A 2500-byte frame: Ethernet II, a 20-byte IPv4 header, 2466 bytes of
    IP payload. *)
Definition eth_2500 : Ethernet :=
  {| eth_SrcMAC := replicate 6 x01; eth_DstMAC := replicate 6 x02;
     eth_EthernetType := 2048; eth_Length := 0 |}.

Definition ip_2500 : IPv4 :=
  {| ip_Version := 4; ip_IHL := 5; ip_TOS := 0; ip_Length := 2486; ip_Id := 7;
     ip_Flags := 0; ip_FragOffset := 0; ip_TTL := 64; ip_Protocol := 17;
     ip_Checksum := 0; ip_SrcIP := replicate 4 x0a; ip_DstIP := replicate 4 x0b;
     ip_Options := []; ip_Payload := Slice (replicate 2466 xff) [] |}.

Definition frame_2500 : ForwardedFrame :=
  {| srcPeer := 1%N; dstPeer := 2%N; frame := replicate 2500 x00 |}.

Definition dec_2500 : EthernetDecoder :=
  {| eth := eth_2500; ip := ip_2500; decoded := [LayerTypeEthernet; LayerTypeIPv4] |}.

(** A connection whose forwarders run: channel 0 is the forward channel,
    channel 1 the DF one, both empty. *)
Definition conn_ready (pmtu : Z) (frag : bool) : LocalConnection :=
  {| local := 1%N; remote := 2%N;
     forwardChan := Some 0%nat; forwardChanDF := Some 1%nat;
     stopForward := Some 0%nat; stopForwardDF := Some 1%nat;
     clientPMTU := pmtu; clientPMTUVerified := false; stackFrag := frag;
     fatalErrors := [] |}.

Definition world_ready (pmtu : Z) (frag : bool) : World :=
  {| conn := conn_ready pmtu frag;
     frameChans := {[ 0%nat := []; 1%nat := [] ]};
     stopChans := {[ 0%nat := 0%nat; 1%nat := 0%nat ]};
     logged := [] |}.

(* ===================================================================== *)
(** * Views of the dispatcher and of the task used to state properties *)
(* ===================================================================== *)

(** An outcome with its state mapped through [g]. *)
Definition outcome_map {R S T : Type} (g : S -> T) (o : Outcome R S) : Outcome R T :=
  match o with
  | Returned r s => Returned r (g s)
  | Panicked s => Panicked (g s)
  | Blocked s => Blocked (g s)
  | OutOfFuel s => OutOfFuel (g s)
  end.

(** The state an outcome ends in. *)
Definition outcome_state {R S : Type} (o : Outcome R S) : S :=
  match o with
  | Returned _ s | Panicked s | Blocked s | OutOfFuel s => s
  end.

(** A [forward] callback that only lists what it is given, in order. *)
Definition collect (f : ForwardedFrame) (acc : list ForwardedFrame) : list ForwardedFrame :=
  acc ++ [f].

(** [c <- f] for each frame of a list, in order. *)
Definition enqueue_all (c : chan) (w : World) (frames : list ForwardedFrame) : World :=
  foldl (fun s f => chan_send c f s) w frames.

(** The events of verification sends: each datagram of [ds] is sent right
    after the one frame [vf] appended for it. *)
Definition verify_events (vf : ForwardedFrame) (budget : Z) (ds : list (list byte))
  : list IOEvent :=
  flat_map (fun d => [EvAppendFrame vf; EvSend d budget]) ds.

(** Every datagram handed to the sender is at most [po] longer than the
    value [maxPayload] had at that send. *)
Definition sends_within (po : Z) (tr : list IOEvent) : Prop :=
  forall msg budget, EvSend msg budget ∈ tr -> len msg <= budget + po.

(** What accurate accounting asks of an encryptor: [AppendFrame] grows the
    total by the frame and the frame overhead; the datagram is at most the
    packet overhead longer than the total; a reset batch holds no more than
    the packet overhead; and the two overheads do not change. *)
Class EncryptorLaws (E : Type) `{!Encryptor E} : Prop := {
  law_append_total : forall f e,
    TotalLen (AppendFrame f e) = TotalLen e + FrameOverhead e + len (frame f);
  law_append_overheads : forall f e,
    FrameOverhead (AppendFrame f e) = FrameOverhead e /\
    PacketOverhead (AppendFrame f e) = PacketOverhead e;
  law_bytes_len : forall e,
    len (fst (Bytes e)) <= TotalLen e + PacketOverhead e;
  law_bytes_overheads : forall e,
    FrameOverhead (snd (Bytes e)) = FrameOverhead e /\
    PacketOverhead (snd (Bytes e)) = PacketOverhead e;
  law_bytes_reset : forall e,
    TotalLen (snd (Bytes e)) <= PacketOverhead e
}.

Section TaskViews.
  Context `{!Constants} {E U : Type} `{!Encryptor E, !UDPSender U}.

  (** The task run over a list of choices; a choice is consulted at the
      outer [select] only. *)
Fixpoint run (cs : list Choice) (s : Task E U * World) : option (Task E U * World) :=
    match cs with
    | [] => Some s
    | c :: cs' =>
        match ctl (fst s) with
        | AtOuterSelect =>
            match outer_select c (locals (fst s)) (snd s) with
            | Some s' => run cs' s'
            | None => None
            end
        | AtInnerSelect => run cs' (inner_select (locals (fst s)) (snd s))
        | Exited | Crashed => Some s
        end
    end.

  (** What a verification send leaves alone. *)
Definition same_frame (l l' : Locals E U) : Prop :=
    l_forwardCh l' = l_forwardCh l /\ l_stop l' = l_stop l /\ l_pmtu l' = l_pmtu l /\
    l_pmtuVerifyTick l' = l_pmtuVerifyTick l /\ l_clientPMTU l' = l_clientPMTU l /\
    l_maxPayload l' = l_maxPayload l.

  (** The invariant of the task: the overheads are [po] and [fo], the sends
      made are within budget, the batch is within [bound], and an armed
      timer goes with a client PMTU whose verification frame fits. *)
Definition batch_inv (po fo bound : Z) (l : Locals E U) : Prop :=
    PacketOverhead (l_enc l) = po /\ FrameOverhead (l_enc l) = fo /\
    sends_within po (l_trace l) /\
    TotalLen (l_enc l) <= bound /\
    (l_pmtuVerifyTick l = true ->
     l_clientPMTU l + EthernetOverhead + fo + po <= l_maxPayload l).

Definition task_inv (po fo : Z) (t : Task E U) : Prop :=
    match ctl t with
    | AtOuterSelect => batch_inv po fo po (locals t)
    | AtInnerSelect => batch_inv po fo (l_maxPayload (locals t)) (locals t)
    | Exited | Crashed => sends_within po (l_trace (locals t))
    end.
End TaskViews.

Definition ip_980 : IPv4 :=
  {| ip_Version := 4; ip_IHL := 5; ip_TOS := 0; ip_Length := 980; ip_Id := 9;
     ip_Flags := 2; ip_FragOffset := 100; ip_TTL := 64; ip_Protocol := 6;
     ip_Checksum := 0; ip_SrcIP := replicate 4 x0a; ip_DstIP := replicate 4 x0b;
     ip_Options := []; ip_Payload := Slice (replicate 960 xff) [] |}.

Definition Z_of_byte (b : byte) : Z := Z.of_N (Byte.to_N b).

(** The fragment offset, the flags and the length of the IP payload read
    back from a frame laid out by [wire_serializer] with a 20-byte IP
    header. *)
Definition wire_FragOffset (f : ForwardedFrame) : Z :=
  match drop 20 (frame f) with
  | b1 :: b2 :: _ => (Z_of_byte b1 * 256 + Z_of_byte b2) `mod` 2 ^ 13
  | _ => -1
  end.

Definition wire_Flags (f : ForwardedFrame) : Z :=
  match drop 20 (frame f) with
  | b1 :: _ => Z_of_byte b1 / 2 ^ 5
  | _ => -1
  end.

Definition wire_payload_len (f : ForwardedFrame) : Z := len (frame f) - 34.

(** The DF pipeline of a connection whose raw-IP sender answers the first
    send with [FrameTooBigError{PMTU: 100}]; one 50-byte frame waits on the
    DF channel. *)
Definition frame_50 : ForwardedFrame :=
  {| srcPeer := 1%N; dstPeer := 2%N; frame := replicate 50 x00 |}.

Definition world_one_frame : World :=
  chan_send 1%nat frame_50 (world_ready 1400 false).

Definition df_task : Task PlainEncryptor ScriptedSender :=
  @forwarderLoop weave_constants _ _ 1%nat 1%nat {| pe_batch := [] |}
    {| ss_script := [Some (FrameTooBigError 100 None)] |} 1400.

(** The frame arrives, the flush meets the error, and [n] verify ticks
    follow with the client PMTU never acknowledged. *)
Definition df_run (n : nat) : option (Task PlainEncryptor ScriptedSender * World) :=
  @run weave_constants _ _ plain_encryptor scripted_sender
       ([TakeFrame; TakeFrame] ++ replicate n TakeTick) (df_task, world_one_frame).

Definition df_state (n : nat) : Task PlainEncryptor ScriptedSender * World :=
  default (df_task, world_one_frame) (df_run n).

(** Locals about to flush one 50-byte frame into a sender that answers
    [FrameTooBigError{PMTU: 30}]. *)
Definition locals_pmtu_30 : Locals PlainEncryptor ScriptedSender :=
  {| l_forwardCh := 1%nat; l_stop := 1%nat;
     l_enc := {| pe_batch := be16 50 ++ replicate 50 x00 |};
     l_udpSender := {| ss_script := [Some (FrameTooBigError 30 None)] |};
     l_pmtu := 1400; l_pmtuVerifyTick := false; l_clientPMTU := 0;
     l_maxPayload := 1372; l_trace := [] |}.

(* ===================================================================== *)
(** * Further views of the fragmenter and of the dispatcher *)
(* ===================================================================== *)

(** The header fields [fragment] never assigns. *)
Definition same_ip_header (i i' : IPv4) : Prop :=
  ip_Version i' = ip_Version i /\ ip_IHL i' = ip_IHL i /\ ip_TOS i' = ip_TOS i /\
  ip_Id i' = ip_Id i /\ ip_TTL i' = ip_TTL i /\ ip_Protocol i' = ip_Protocol i /\
  ip_SrcIP i' = ip_SrcIP i /\ ip_DstIP i' = ip_DstIP i /\
  ip_Options i' = ip_Options i.

Definition same_eth_header (e e' : Ethernet) : Prop :=
  eth_SrcMAC e' = eth_SrcMAC e /\ eth_DstMAC e' = eth_DstMAC e /\
  eth_EthernetType e' = eth_EthernetType e.

(** What holds of every segment handed to the serializer: the lengths
    written in its headers go with its payload. *)
Definition segment_ok (headerSize mss psz : Z) (e0 : Ethernet) (i0 : IPv4)
    (seg : Segment) : Prop :=
  same_ip_header i0 (seg_ip seg) /\ same_eth_header e0 (seg_eth seg) /\
  len (seg_payload seg) <= mss /\ len (seg_payload seg) <= psz /\
  ip_Length (seg_ip seg) = uint16 (headerSize + len (seg_payload seg)) /\
  eth_Length (seg_eth seg)
    = (if eth_EthernetType e0 =? EthernetTypeLLC then ip_Length (seg_ip seg) else 0).

(** What holds of [eth] and [ip] at the head of each pass of the loop. *)
Definition loop_inv (headerSize mss : Z) (e0 : Ethernet) (i0 : IPv4)
    (e : Ethernet) (i : IPv4) : Prop :=
  same_ip_header i0 i /\ same_eth_header e0 e /\
  ip_Length i = uint16 (headerSize + mss) /\
  eth_Length e = (if eth_EthernetType e0 =? EthernetTypeLLC then ip_Length i else 0).

(** A frame the fragmenter forwards for a segment: the frame it was given
    with the bytes replaced by the serialized segment. *)
Definition emitted_for `{!LayerSerializer} (frame0 : ForwardedFrame) (seg : Segment)
    (g : ForwardedFrame) : Prop :=
  SerializeLayers fragment_opts (seg_eth seg) (seg_ip seg) (seg_payload seg) = inr (frame g) /\
  srcPeer g = srcPeer frame0 /\ dstPeer g = dstPeer frame0.

(** A serializer that writes, for a segment, [EthernetOverhead] bytes of
    Ethernet header, the IP header and the payload. *)
Definition writes_all `{!Constants, !LayerSerializer} (seg : Segment) : Prop :=
  forall buf,
    SerializeLayers fragment_opts (seg_eth seg) (seg_ip seg) (seg_payload seg) = inr buf ->
    len buf = EthernetOverhead + ip_IHL (seg_ip seg) * 4 + len (seg_payload seg).

(** A decoded frame whose IP total length, 10, is less than its 20-byte
    header. *)
Definition dec_short : EthernetDecoder :=
  {| eth := eth_2500; ip := set_ip_Length 10 ip_2500;
     decoded := [LayerTypeEthernet; LayerTypeIPv4] |}.

(** A 60-byte frame whose IPv4 header, of total length 20, has no payload
    after it, as decoded. *)
Definition ip_empty : IPv4 :=
  {| ip_Version := 4; ip_IHL := 5; ip_TOS := 0; ip_Length := 20; ip_Id := 11;
     ip_Flags := 0; ip_FragOffset := 0; ip_TTL := 64; ip_Protocol := 17;
     ip_Checksum := 0; ip_SrcIP := replicate 4 x0a; ip_DstIP := replicate 4 x0b;
     ip_Options := []; ip_Payload := Slice [] [] |}.

Definition frame_60 : ForwardedFrame :=
  {| srcPeer := 1%N; dstPeer := 2%N; frame := replicate 60 x00 |}.

Definition dec_empty : EthernetDecoder :=
  {| eth := eth_2500; ip := ip_empty; decoded := [LayerTypeEthernet; LayerTypeIPv4] |}.

(* ===================================================================== *)
(** * Further views of the task *)
(* ===================================================================== *)

(** The batch has been sent: the last call the task made on its encryptor
    or sender is not an append. *)
Definition batch_sent (tr : list IOEvent) : Prop :=
  match last tr with
  | Some (EvAppendFrame _) => False
  | _ => True
  end.

(** The last call was a send. *)
Definition sent_last (tr : list IOEvent) : Prop :=
  exists tr' msg budget, tr = tr' ++ [EvSend msg budget].

(** What [frames] add to the total length of a batch under the frame
    overhead [fo]. *)
Definition batch_growth (fo : Z) (frames : list ForwardedFrame) : Z :=
  foldr (fun f acc => fo + len (frame f) + acc) 0 frames.

(** [enc.AppendFrame] for each frame of a list, in order. *)
Definition append_all {E U : Type} `{!Encryptor E} (frames : list ForwardedFrame)
    (l : Locals E U) : Locals E U :=
  foldl (fun l0 f => enc_AppendFrame f l0) l frames.

(** Where the task may wait for ever, nothing is left in the batch. *)
Definition waits_flushed {E U : Type} (t : Task E U) : Prop :=
  match ctl t with
  | AtOuterSelect | Exited => batch_sent (l_trace (locals t))
  | AtInnerSelect | Crashed => True
  end.

(** A sender none of whose calls reports [FrameTooBigError], as long as it
    is in a state of [P]. *)
Definition never_too_big {U : Type} `{!UDPSender U} (P : U -> Prop) : Prop :=
  forall u, P u ->
    P (snd (Shutdown u)) /\
    forall msg, P (snd (Send msg u)) /\
                forall p fr, fst (Send msg u) <> Some (FrameTooBigError p fr).

(** A task that has never met [FrameTooBigError]: the budget is the one it
    started with, no timer is armed and it has not panicked. *)
Definition static_budget `{!Constants} {E U : Type} (P : U -> Prop) (pmtu : Z)
    (t : Task E U) : Prop :=
  P (l_udpSender (locals t)) /\
  l_pmtu (locals t) = pmtu /\
  l_maxPayload (locals t) = pmtu - UDPOverhead /\
  l_pmtuVerifyTick (locals t) = false /\
  l_clientPMTU (locals t) = 0 /\
  ctl t <> Crashed.

(** Two 50-byte frames wait on the DF channel. *)
Definition world_two_frames : World :=
  chan_send 1%nat frame_50 world_one_frame.

(** What a closure of the task leaves alone: the channels, the log and
    the parameters; the trace only grows. *)
Definition closure_frame {E U : Type} (s s' : Locals E U * World) : Prop :=
  frameChans (snd s') = frameChans (snd s) /\ logged (snd s') = logged (snd s) /\
  stopChans (snd s') = stopChans (snd s) /\
  l_forwardCh (fst s') = l_forwardCh (fst s) /\ l_stop (fst s') = l_stop (fst s) /\
  l_pmtu (fst s') = l_pmtu (fst s) /\
  exists tr, l_trace (fst s') = l_trace (fst s) ++ tr.

(** What becomes of a frame the task receives: appended last, logged as
    dropped since it does not fit, or the task has panicked. *)
Definition accounted {E U : Type} `{!Encryptor E} (f : ForwardedFrame) (l : Locals E U)
    (w : World) (s' : Task E U * World) : Prop :=
  (ctl (fst s') = AtInnerSelect /\
   exists tr, l_trace (locals (fst s')) = l_trace l ++ tr ++ [EvAppendFrame f]) \/
  (ctl (fst s') = AtOuterSelect /\
   logged (snd s') = logged w ++ [LogDroppingTooBig (len (frame f)) (l_pmtu l)] /\
   l_maxPayload (locals (fst s'))
     < TotalLen (l_enc (locals (fst s'))) + FrameOverhead (l_enc (locals (fst s')))
       + len (frame f)) \/
  ctl (fst s') = Crashed.

(** Locals about to flush one 50-byte frame into a sender that answers
    [ECONNREFUSED]. *)
Definition locals_refused : Locals PlainEncryptor ScriptedSender :=
  {| l_forwardCh := 1%nat; l_stop := 1%nat;
     l_enc := {| pe_batch := be16 50 ++ replicate 50 x00 |};
     l_udpSender := {| ss_script := [Some (PosixErrno 111)] |};
     l_pmtu := 1400; l_pmtuVerifyTick := false; l_clientPMTU := 0;
     l_maxPayload := 1372; l_trace := [] |}.

(** A scripted sender with no [FrameTooBigError] left in its script. *)
Definition script_plain (s : ScriptedSender) : Prop :=
  Forall (fun r => forall p fr, r <> Some (FrameTooBigError p fr)) (ss_script s).

(** A pipeline whose sender answers [ENOBUFS] once. *)
Definition enobufs_task : Task PlainEncryptor ScriptedSender :=
  @forwarderLoop weave_constants _ _ 1%nat 1%nat {| pe_batch := [] |}
    {| ss_script := [Some (PosixErrno ENOBUFS)] |} 1400.

Definition enobufs_state : Task PlainEncryptor ScriptedSender * World :=
  default (enobufs_task, world_one_frame)
    (@run weave_constants _ _ plain_encryptor scripted_sender [TakeFrame; TakeFrame]
       (enobufs_task, world_one_frame)).

(** The pipeline of channel 0 of [world_ready], with a sender that always
    succeeds. *)
Definition idle_task : Task PlainEncryptor ScriptedSender :=
  @forwarderLoop weave_constants _ _ 0%nat 0%nat {| pe_batch := [] |}
    {| ss_script := [] |} 1400.

(* ===================================================================== *)
(** * The UDP senders *)
(* ===================================================================== *)

(** An error made by the net, syscall or gopacket package.
    [FrameTooBigError] is a type of this package: no call into those
    packages returns one. *)
Inductive LibError : Type :=
  | LibErrno (errno : Z)
  | LibOther (msg : string).

Definition lib_error (e : LibError) : error :=
  match e with
  | LibErrno n => PosixErrno n
  | LibOther m => OtherError m
  end.

(** [syscall.EMSGSIZE] on Linux. *)
Definition EMSGSIZE : Z := 90.

(** [net.UDPAddr] *)
Record UDPAddr : Type := {
  addr_IP : list byte;
  addr_Port : Z
}.

(** [layers.UDP]: the two ports the senders set. *)
Record UDP : Type := {
  udp_SrcPort : Z;
  udp_DstPort : Z
}.

(** What the senders call outside forwarder.go, over the state [K] that
    stands behind the pointers a sender holds: its socket and the
    connection.  [RemoteUDPAddr] may be nil; [SerializeUDP] is
    [gopacket.SerializeLayers] on a UDP header and a payload, from the
    buffer before to the buffer after; [socket_nil] is the assignment
    [sender.socket = nil]. *)
Class SocketOps (K : Type) : Type := {
  RemoteUDPAddr : K -> option UDPAddr;
  WriteToUDP : list byte -> option UDPAddr -> K -> option LibError * K;
  SerializeUDP : SerializeOptions -> UDP -> list byte -> list byte
                 -> option LibError * list byte;
  socket_Write : list byte -> K -> option LibError * K;
  socket_File : K -> (LibError + Z) * K;
  file_Close : Z -> K -> K;
  GetsockoptInt_IP_MTU : Z -> K -> (LibError + Z) * K;
  socket_Close : K -> option LibError * K;
  socket_nil : K -> K
}.

(** Constants of the package that the senders and [ensureForwarders] use. *)
Class Package : Type := {
  DefaultPMTU : Z;
  Port : Z
}.

Record SimpleUDPSender (K : Type) : Type := {
  udpConn : K
}.
Arguments udpConn {K} _.

Record RawUDPSender (K : Type) : Type := {
  ipBuf : list byte;
  opts : SerializeOptions;
  udpHeader : UDP;
  socket : K
}.
Arguments ipBuf {K} _.
Arguments opts {K} _.
Arguments udpHeader {K} _.
Arguments socket {K} _.

Section Senders.
  Context {K : Type} `{!SocketOps K, !Package}.

  (** [NewSimpleUDPSender(conn)] over the router's UDP listener. *)
Definition NewSimpleUDPSender (UDPListener : K) : SimpleUDPSender K :=
    {| udpConn := UDPListener |}.

  (** [SimpleUDPSender.Send] *)
Definition SimpleUDPSender_Send (msg : list byte) (sender : SimpleUDPSender K)
    : option error * SimpleUDPSender K :=
    let '(err, k1) := WriteToUDP msg (RemoteUDPAddr (udpConn sender)) (udpConn sender) in
    (option_map lib_error err, {| udpConn := k1 |}).

  (** [SimpleUDPSender.Shutdown] *)
Definition SimpleUDPSender_Shutdown (sender : SimpleUDPSender K)
    : option error * SimpleUDPSender K :=
    (None, sender).

Definition simple_udp_sender : UDPSender (SimpleUDPSender K) :=
    {| Send := SimpleUDPSender_Send; Shutdown := SimpleUDPSender_Shutdown |}.

  (** [NewRawUDPSender(conn)], given what [dialIP(conn)] returned. *)
Definition NewRawUDPSender (dialIP : LibError + K) : error + RawUDPSender K :=
    match dialIP with
    | inl err => inl (lib_error err)
    | inr ipSocket =>
        inr {| ipBuf := [];
               opts := {| FixLengths := true; ComputeChecksums := false |};
               udpHeader := {| udp_SrcPort := Port; udp_DstPort := 0 |};
               socket := ipSocket |}
    end.

Definition set_socket (k : K) (sender : RawUDPSender K) : RawUDPSender K :=
    {| ipBuf := ipBuf sender; opts := opts sender; udpHeader := udpHeader sender;
       socket := k |}.

  (** [RawUDPSender.Send].  Reading [.Port] of a nil address panics
      before anything is assigned; the line written with [log.Println] is
      left out. *)
Definition RawUDPSender_Send (msg : list byte) (sender : RawUDPSender K)
    : Outcome (option error) (RawUDPSender K) :=
    match RemoteUDPAddr (socket sender) with
    | None => Panicked sender
    | Some addr =>
        let hdr := {| udp_SrcPort := udp_SrcPort (udpHeader sender);
                      udp_DstPort := uint16 (addr_Port addr) |} in
        let '(serr, packet) := SerializeUDP (opts sender) hdr msg (ipBuf sender) in
        let s1 := {| ipBuf := packet; opts := opts sender; udpHeader := hdr;
                     socket := socket sender |} in
        match serr with
        | Some err => Returned (Some (lib_error err)) s1
        | None =>
            let '(werr, k1) := socket_Write packet (socket s1) in
            match werr with
            | None => Returned None (set_socket k1 s1)
            | Some err =>
                if PosixError (lib_error err) =? EMSGSIZE then
                  let '(f, k2) := socket_File k1 in
                  match f with
                  | inl err2 => Returned (Some (lib_error err2)) (set_socket k2 s1)
                  | inr fd =>
                      let '(r, k3) := GetsockoptInt_IP_MTU fd k2 in
                      (* defer f.Close() *)
                      let k4 := file_Close fd k3 in
                      match r with
                      | inl err3 => Returned (Some (lib_error err3)) (set_socket k4 s1)
                      | inr pmtu =>
                          Returned (Some (FrameTooBigError pmtu None)) (set_socket k4 s1)
                      end
                  end
                else Returned (Some (lib_error err)) (set_socket k1 s1)
            end
        end
    end.

  (** [RawUDPSender.Shutdown]: the deferred assignment runs after
      [Close]. *)
Definition RawUDPSender_Shutdown (sender : RawUDPSender K)
    : option error * RawUDPSender K :=
    let '(err, k1) := socket_Close (socket sender) in
    (option_map lib_error err, set_socket (socket_nil k1) sender).
End Senders.

(* ===================================================================== *)
(** * Starting the pipelines *)
(* ===================================================================== *)

(** The constructors of the two kinds of encryptor, defined outside
    forwarder.go: [NewNaClEncryptor(conn.local.NameByte, conn, df)] reads
    the session key of the connection. *)
Class EncryptorMakers (E : Type) : Type := {
  NewNaClEncryptor : Peer -> list byte -> bool -> E;
  NewNonEncryptor : Peer -> E
}.

(** The two goroutines [ensureForwarders] starts. *)
Record Forwarders (E K : Type) : Type := {
  fw_plain : Task E (SimpleUDPSender K);
  fw_DF : Task E (RawUDPSender K)
}.
Arguments fw_plain {E K} _.
Arguments fw_DF {E K} _.

Section Lifecycle.
  Context `{!Constants, !Package} {E K : Type} `{!EncryptorMakers E}.

  (** [make(chan ...)]: a channel no handle refers to yet, empty. *)
Definition make_chan {A : Type} (m : gmap chan A) : chan := fresh (dom m).

  (** [conn.ensureForwarders()], given the session key of the connection,
      the router's UDP listener and what [dialIP(conn)] returns.  The
      capacity [ChannelSize] of the forward channels is not modelled: a
      queue takes any number of frames. *)
Definition ensureForwarders (SessionKey : option (list byte)) (UDPListener : K)
      (dialIP : LibError + K) (w : World)
    : option error * World * option (Forwarders E K) :=
    let c := conn w in
    match forwardChan c, forwardChanDF c with
    | None, None =>
        (* only thing that can error, so do it earlier *)
        match NewRawUDPSender dialIP with
        | inl err => (Some err, w, None)
        | inr rawUDPSender =>
            let '(encryptor, encryptorDF) :=
              match SessionKey with
              | Some key => (NewNaClEncryptor (local c) key false,
                             NewNaClEncryptor (local c) key true)
              | None => (NewNonEncryptor (local c), NewNonEncryptor (local c))
              end in
            let fwd := make_chan (frameChans w) in
            let frames1 := <[fwd := []]> (frameChans w) in
            let fwdDF := make_chan frames1 in
            let frames2 := <[fwdDF := []]> frames1 in
            let stp := make_chan (stopChans w) in
            let stops1 := <[stp := 0%nat]> (stopChans w) in
            let stpDF := make_chan stops1 in
            let stops2 := <[stpDF := 0%nat]> stops1 in
            let w1 :=
              {| conn := {| local := local c; remote := remote c;
                            forwardChan := Some fwd; forwardChanDF := Some fwdDF;
                            stopForward := Some stp; stopForwardDF := Some stpDF;
                            clientPMTU := clientPMTU c;
                            clientPMTUVerified := clientPMTUVerified c;
                            stackFrag := stackFrag c; fatalErrors := fatalErrors c |};
                 frameChans := frames2; stopChans := stops2; logged := logged w |} in
            (None, w1,
             Some {| fw_plain := forwarderLoop fwd stp encryptor
                                   (NewSimpleUDPSender UDPListener) DefaultPMTU;
                     fw_DF := forwarderLoop fwdDF stpDF encryptorDF rawUDPSender
                                (clientPMTU (conn w1)) |})
        end
    | _, _ => (None, w, None)
    end.
End Lifecycle.

(* ===================================================================== *)
(** * Instances to run the senders *)
(* ===================================================================== *)

(** A network to run the senders on: the remote address if known, the
    path MTU the kernel holds, the datagrams and the raw packets that left,
    and the number of files open on the raw socket. *)
Record TestNet : Type := {
  tn_addr : option UDPAddr;
  tn_mtu : Z;
  tn_datagrams : list (list byte);
  tn_packets : list (list byte);
  tn_files : nat
}.

(** A raw packet leaves when it fits the path MTU with its 20-byte IP
    header, and is refused with [EMSGSIZE] otherwise. *)
Definition test_net_ops : SocketOps TestNet :=
  {| RemoteUDPAddr := tn_addr;
     WriteToUDP := fun msg addr k =>
       match addr with
       | None => (Some (LibOther "missing address"), k)
       | Some _ =>
           (None, {| tn_addr := tn_addr k; tn_mtu := tn_mtu k;
                     tn_datagrams := tn_datagrams k ++ [msg];
                     tn_packets := tn_packets k; tn_files := tn_files k |})
       end;
     SerializeUDP := fun _ hdr msg _ =>
       (None, be16 (udp_SrcPort hdr) ++ be16 (udp_DstPort hdr)
              ++ be16 (8 + len msg) ++ be16 0 ++ msg);
     socket_Write := fun packet k =>
       if 20 + len packet <=? tn_mtu k
       then (None, {| tn_addr := tn_addr k; tn_mtu := tn_mtu k;
                      tn_datagrams := tn_datagrams k;
                      tn_packets := tn_packets k ++ [packet]; tn_files := tn_files k |})
       else (Some (LibErrno EMSGSIZE), k);
     socket_File := fun k =>
       (inr 3, {| tn_addr := tn_addr k; tn_mtu := tn_mtu k;
                  tn_datagrams := tn_datagrams k; tn_packets := tn_packets k;
                  tn_files := S (tn_files k) |});
     file_Close := fun _ k =>
       {| tn_addr := tn_addr k; tn_mtu := tn_mtu k;
          tn_datagrams := tn_datagrams k; tn_packets := tn_packets k;
          tn_files := pred (tn_files k) |};
     GetsockoptInt_IP_MTU := fun _ k => (inr (tn_mtu k), k);
     socket_Close := fun k => (None, k);
     socket_nil := fun k => k |}.

(** Values to run the model with; the package defines the two constants
    outside forwarder.go. *)
Definition weave_package : Package :=
  {| DefaultPMTU := 65535; Port := 6783 |}.

(** A network whose path MTU is 1000, the remote address known. *)
Definition net_1000 : TestNet :=
  {| tn_addr := Some {| addr_IP := replicate 4 x0b; addr_Port := 6783 |};
     tn_mtu := 1000; tn_datagrams := []; tn_packets := []; tn_files := 0 |}.

(** The null encryptors for [plain_encryptor]; a key changes nothing. *)
Definition plain_makers : EncryptorMakers PlainEncryptor :=
  {| NewNaClEncryptor := fun _ _ _ => {| pe_batch := [] |};
     NewNonEncryptor := fun _ => {| pe_batch := [] |} |}.

(** A connection before contact: no handle is set. *)
Definition world_idle (pmtu : Z) (frag : bool) : World :=
  {| conn := {| local := 1%N; remote := 2%N;
                forwardChan := None; forwardChanDF := None;
                stopForward := None; stopForwardDF := None;
                clientPMTU := pmtu; clientPMTUVerified := false; stackFrag := frag;
                fatalErrors := [] |};
     frameChans := ∅; stopChans := ∅; logged := [] |}.

(* ===================================================================== *)
(** * Views of the life of a connection *)
(* ===================================================================== *)

(** The four channel handles of a connection. *)
Definition handles (c : LocalConnection)
  : option chan * option chan * option chan * option chan :=
  (forwardChan c, forwardChanDF c, stopForward c, stopForwardDF c).

(** One step in the life of a connection: [ensureForwarders], the start of
    [stopForwarders], or anything that leaves the four handles as they are
    ([Forward], the steps of the pipelines, the sends of [stopForwarders]
    and their receipt, [setClientPMTU], [CheckFatal]). *)
Inductive lifecycle_step `{!Constants, !Package} {E K : Type}
    `{!EncryptorMakers E} : World -> World -> Prop :=
  | life_ensure (SessionKey : option (list byte)) (UDPListener : K)
      (dialIP : LibError + K) w r w1 (fws : option (Forwarders E K)) :
      ensureForwarders SessionKey UDPListener dialIP w = (r, w1, fws) ->
      lifecycle_step w w1
  | life_stop w :
      lifecycle_step w (snd (stopForwarders w))
  | life_other w w1 :
      handles (conn w1) = handles (conn w) ->
      lifecycle_step w w1.

(** The handles are set and cleared together. *)
Definition handles_paired (c : LocalConnection) : Prop :=
  (forwardChan c = None <-> forwardChanDF c = None) /\
  (stopForward c = None <-> stopForwardDF c = None) /\
  (forwardChan c <> None -> stopForward c <> None).

(** A pipeline that sends through [SimpleUDPSender] over [net_1000], and
    its state once the frame waiting on channel 1 has gone through. *)
Definition simple_task : Task PlainEncryptor (SimpleUDPSender TestNet) :=
  @forwarderLoop weave_constants _ _ 1%nat 1%nat {| pe_batch := [] |}
    (NewSimpleUDPSender net_1000) 1400.

Definition simple_state : Task PlainEncryptor (SimpleUDPSender TestNet) * World :=
  default (simple_task, world_one_frame)
    (@run weave_constants _ _ plain_encryptor (@simple_udp_sender _ test_net_ops)
       [TakeFrame; TakeFrame] (simple_task, world_one_frame)).

(** A 1400-byte frame: within a client PMTU of 1400, beyond a budget of
    [1400 - UDPOverhead]; and a 69-byte frame, the longest within a client
    PMTU of 55. *)
Definition frame_1400 : ForwardedFrame :=
  {| srcPeer := 1%N; dstPeer := 2%N; frame := replicate 1400 x00 |}.

Definition frame_69 : ForwardedFrame :=
  {| srcPeer := 1%N; dstPeer := 2%N; frame := replicate 69 x00 |}.

(** The DF pipeline about to flush one 50-byte frame into a sender that
    answers [FrameTooBigError{PMTU: 100}]. *)
Definition locals_pmtu_100 : Locals PlainEncryptor ScriptedSender :=
  snd (@appendFrame _ _ plain_encryptor frame_50 (locals df_task)).

(** The inner loop [for !flushed] run on from its [select], no frame
    arriving from outside meanwhile: it goes on while the task stays at the
    inner [select]. *)
Fixpoint inner_loop `{!Constants} {E U : Type} `{!Encryptor E, !UDPSender U}
    (fuel : nat) (l : Locals E U) (w : World) : Outcome unit (Task E U * World) :=
  match fuel with
  | O => OutOfFuel ({| ctl := AtInnerSelect; locals := l |}, w)
  | S fuel' =>
      let s' := inner_select l w in
      match ctl (fst s') with
      | AtInnerSelect => inner_loop fuel' (locals (fst s')) (snd s')
      | AtOuterSelect | Exited | Crashed => Returned tt s'
      end
  end.

(** The trace read as batches: [Some true] when a frame has been appended
    since the last send, [Some false] when none has, [None] once a send
    has followed no append. *)
Definition batch_step (st : option bool) (ev : IOEvent) : option bool :=
  match st, ev with
  | Some _, EvAppendFrame _ => Some true
  | Some true, EvSend _ _ => Some false
  | _, _ => None
  end.

Definition batch_state (tr : list IOEvent) : option bool :=
  foldl batch_step (Some false) tr.

(** The batch is open exactly at the inner [select]. *)
Definition batch_open {E U : Type} (t : Task E U) : bool :=
  match ctl t with
  | AtInnerSelect => true
  | AtOuterSelect | Exited | Crashed => false
  end.

(** The DF pipeline of [df_task] once it has received its frame. *)
Definition df_inner : Task PlainEncryptor ScriptedSender * World :=
  default (df_task, world_one_frame)
    (@run weave_constants _ _ plain_encryptor scripted_sender [TakeFrame]
       (df_task, world_one_frame)).

(* ===================================================================== *)
(** * Proofs *)
(* ===================================================================== *)

(* ===================================================================== *)
(** * Arithmetic and slices *)
(* ===================================================================== *)

Lemma bitclear_7 (x : Z) : bitclear x 7 = 8 * (x / 8).
Proof.
  unfold bitclear. change 7 with (Z.ones 3).
  rewrite Z.ldiff_ones_r by lia.
  rewrite Z.shiftr_div_pow2, Z.shiftl_mul_pow2 by lia.
  change (2 ^ 3) with 8. lia.
Qed.

Lemma len_nonneg {A} (l : list A) : 0 <= len l.
Proof. unfold len. lia. Qed.

Lemma len_app {A} (l k : list A) : len (l ++ k) = len l + len k.
Proof. unfold len. rewrite length_app. lia. Qed.

Lemma len_take {A} (l : list A) (n : Z) : 0 <= n <= len l -> len (take (Z.to_nat n) l) = n.
Proof. unfold len. intros. rewrite length_take. lia. Qed.

Lemma len_drop {A} (l : list A) (n : Z) : 0 <= n <= len l -> len (drop (Z.to_nat n) l) = len l - n.
Proof. unfold len. intros. rewrite length_drop. lia. Qed.

Lemma len_replicate {A} (n : Z) (x : A) : 0 <= n -> len (replicate (Z.to_nat n) x) = n.
Proof. unfold len. intros. rewrite length_replicate. lia. Qed.

Lemma ceil_div_zero (b : Z) : 0 < b -> ceil_div 0 b = 0.
Proof. intros. unfold ceil_div. apply Z.div_small. lia. Qed.

Lemma ceil_div_step (a b : Z) : 0 < b -> ceil_div (a + b) b = ceil_div a b + 1.
Proof.
  intros. unfold ceil_div.
  replace (a + b + b - 1) with (a + b - 1 + 1 * b) by lia.
  rewrite Z.div_add by lia. lia.
Qed.

Lemma ceil_div_small (a b : Z) : 0 < a <= b -> ceil_div a b = 1.
Proof.
  intros. unfold ceil_div.
  replace (a + b - 1) with (a - 1 + 1 * b) by lia.
  rewrite Z.div_add by lia. rewrite Z.div_small by lia. lia.
Qed.

Lemma ceil_div_bounds (a b : Z) : 0 < b -> a <= ceil_div a b * b < a + b.
Proof.
  intros Hb. unfold ceil_div.
  pose proof (Z.div_mod (a + b - 1) b ltac:(lia)) as Hdm.
  pose proof (Z.mod_pos_bound (a + b - 1) b Hb) as Hm.
  nia.
Qed.

Lemma enough_fuel (a b : Z) (fuel : nat) :
  0 <= a -> 0 < b -> ceil_div a b < Z.of_nat fuel ->
  a - 0 <= (Z.of_nat fuel - 1) * b /\ (0 < fuel)%nat.
Proof.
  intros Ha Hb Hf. pose proof (ceil_div_bounds a b Hb) as Hc.
  assert (0 <= ceil_div a b) by (apply Z.div_pos; lia).
  assert (ceil_div a b * b <= (Z.of_nat fuel - 1) * b)
    by (apply Z.mul_le_mono_nonneg_r; lia).
  split; lia.
Qed.

Lemma slice_upto_len (s : slice) (n : Z) (p : list byte) :
  slice_upto s n = Some p -> len p = n /\ 0 <= n.
Proof.
  unfold slice_upto. intros Hs.
  destruct (0 <=? n) eqn:H0; [| discriminate].
  destruct (n <=? len (s_elems s ++ s_spare s)) eqn:H1; [| discriminate].
  simpl in Hs. injection Hs as <-.
  apply Z.leb_le in H0. apply Z.leb_le in H1.
  split; [| exact H0]. apply len_take. lia.
Qed.

Lemma maxSegmentSize_eq `{!Constants} (pmtu headerSize : Z) :
  maxSegmentSize pmtu headerSize = 8 * ((pmtu - EthernetOverhead - headerSize) / 8).
Proof. apply bitclear_7. Qed.



(* ===================================================================== *)
(** * The fragmenter *)
(* ===================================================================== *)

Section FragmenterFacts.
  Context `{!Constants}.
  Variables (hs mss psz base orig : Z).
  Hypothesis mss_pos : 0 < mss.

Lemma split_at_inside (p : list byte) :
    mss < len p ->
    split_at p mss = Some (take (Z.to_nat mss) p, drop (Z.to_nat mss) p).
  Proof.
    intros Hlt. unfold split_at.
    destruct (0 <=? mss) eqn:H0; [| lia].
    destruct (mss <=? len p) eqn:H1; [reflexivity | lia].
  Qed.

Lemma fuel_step (fuel : nat) (offset : Z) :
    psz - offset <= (Z.of_nat (S fuel) - 1) * mss ->
    offset < psz ->
    psz - (offset + mss) <= (Z.of_nat fuel - 1) * mss /\ (0 < fuel)%nat.
  Proof.
    intros Hfuel Hoff.
    replace (Z.of_nat (S fuel) - 1) with (Z.of_nat fuel) in Hfuel by lia.
    replace ((Z.of_nat fuel - 1) * mss) with (Z.of_nat fuel * mss - mss) by ring.
    split; [lia |].
    destruct fuel; [simpl in Hfuel; lia | lia].
  Qed.

Lemma fragment_loop_run `{!LayerSerializer} {St : Type}
      (frame0 : ForwardedFrame) (forward : ForwardedFrame -> St -> St) (fuel : nat) :
    forall offset payload e i st,
      (offset < psz -> len payload = psz - offset) ->
      psz - offset <= (Z.of_nat fuel - 1) * mss ->
      (0 < fuel)%nat ->
      fragment_loop hs mss psz base orig frame0 forward fuel offset payload e i st
      = let r := forward_segments frame0 forward
                   (segments_from hs mss psz base orig fuel offset payload e i) st in
        Returned (fst r) (snd r).
  Proof.
    induction fuel as [| fuel IH]; intros offset payload e i st Hlen Hfuel Hpos; [lia |].
    simpl. destruct (offset <? psz) eqn:Hoff; [| reflexivity].
    apply Z.ltb_lt in Hoff. specialize (Hlen Hoff).
    destruct (fuel_step _ _ Hfuel Hoff) as [Hfuel' Hpos'].
    unfold next_segment.
    destruct (len payload <=? mss) eqn:Hlast.
    - simpl. destruct SerializeLayers as [err | buf]; [reflexivity |].
      apply IH; [lia | exact Hfuel' | exact Hpos'].
    - apply Z.leb_gt in Hlast. rewrite split_at_inside by lia. simpl.
      destruct SerializeLayers as [err | buf]; [reflexivity |].
      apply IH; [| exact Hfuel' | exact Hpos'].
      intros _. rewrite len_drop by lia. lia.
  Qed.

Lemma segments_from_layout (flags : Z) (fuel : nat) :
    forall offset payload e i,
      (offset < psz -> len payload = psz - offset) ->
      psz - offset <= (Z.of_nat fuel - 1) * mss ->
      (0 < fuel)%nat ->
      ip_Flags i = flags ->
      let segs := segments_from hs mss psz base orig fuel offset payload e i in
      Z.of_nat (length segs) = ceil_div (Z.max 0 (psz - offset)) mss /\
      forall (k : nat) (seg : Segment),
        segs !! k = Some seg ->
        ip_FragOffset (seg_ip seg)
          = uint16 (Z.shiftr (offset + Z.of_nat k * mss + base) 3) /\
        ip_Flags (seg_ip seg) = (if decide (S k = length segs) then orig else flags) /\
        seg_payload seg = take (Z.to_nat mss) (drop (k * Z.to_nat mss) payload).
  Proof.
    induction fuel as [| fuel IH]; intros offset payload e i Hlen Hfuel Hpos Hfl; [lia |].
    simpl. destruct (offset <? psz) eqn:Hoff.
    2:{ apply Z.ltb_ge in Hoff. simpl. split.
        - rewrite Z.max_l by lia. now rewrite ceil_div_zero.
        - intros k seg Hk. discriminate. }
    apply Z.ltb_lt in Hoff. specialize (Hlen Hoff).
    destruct (fuel_step _ _ Hfuel Hoff) as [Hfuel' Hpos'].
    unfold next_segment.
    destruct (len payload <=? mss) eqn:Hlast.
    - apply Z.leb_le in Hlast.
      assert (Hend : segments_from hs mss psz base orig fuel (offset + mss) payload
                (fix_eth_Length e (set_ip_Flags orig (set_ip_Length (uint16 (len payload + hs)) i)))
                (set_ip_FragOffset (uint16 (Z.shiftr (offset + base) 3))
                   (set_ip_Flags orig (set_ip_Length (uint16 (len payload + hs)) i))) = []).
      { destruct fuel; [reflexivity |]. simpl.
        destruct (offset + mss <? psz) eqn:Hn; [lia | reflexivity]. }
      simpl. rewrite Hend. simpl. split.
      + rewrite Z.max_r by lia. rewrite ceil_div_small by lia. reflexivity.
      + intros [| k] seg Hk; [| discriminate]. injection Hk as <-. simpl.
        repeat split.
        * do 2 f_equal. lia.
        * rewrite drop_0, take_ge; [reflexivity |]. unfold len in Hlast. lia.
    - apply Z.leb_gt in Hlast. rewrite split_at_inside by lia. simpl.
      destruct (IH (offset + mss) (drop (Z.to_nat mss) payload) e
                  (set_ip_FragOffset (uint16 (Z.shiftr (offset + base) 3)) i))
        as [Hn Hk];
        [ intros _; rewrite len_drop by lia; lia | exact Hfuel' | exact Hpos' | exact Hfl |].
      split.
      + rewrite Nat2Z.inj_succ, Hn.
        rewrite !Z.max_r by lia.
        replace (psz - offset) with (psz - (offset + mss) + mss) by lia.
        rewrite ceil_div_step by lia. lia.
      + intros [| k] seg Hseg.
        * injection Hseg as <-. simpl. repeat split.
          -- do 2 f_equal. lia.
          -- destruct decide as [Heq | _]; [| exact Hfl].
             exfalso. injection Heq as Heq.
             rewrite <- Heq in Hn. simpl in Hn.
             rewrite Z.max_r in Hn by lia.
             assert (0 < ceil_div (psz - (offset + mss)) mss); [| lia].
             unfold ceil_div. apply Z.div_str_pos. lia.
        * simpl in Hseg. destruct (Hk k seg Hseg) as (Ho & Hf & Hp).
          repeat split.
          -- rewrite Ho. do 2 f_equal. lia.
          -- rewrite Hf. simpl length.
             destruct decide as [H1 | H1], decide as [H2 | H2]; try reflexivity; lia.
          -- rewrite Hp, drop_drop. do 2 f_equal; lia.
  Qed.
End FragmenterFacts.

Section FragmentFacts.
  Context `{!Constants, !LayerSerializer} {St : Type}.
  Variables (frame0 : ForwardedFrame) (forward : ForwardedFrame -> St -> St).

Lemma fragment_loop_collect (hs mss psz base orig : Z) (fuel : nat) :
    forall offset payload e i (st : St) (acc : list ForwardedFrame),
      fragment_loop hs mss psz base orig frame0 forward fuel offset payload e i
                    (foldl (fun s f => forward f s) st acc)
      = outcome_map (foldl (fun s f => forward f s) st)
          (fragment_loop hs mss psz base orig frame0 collect fuel offset payload e i acc).
  Proof.
    induction fuel as [| fuel IH]; intros offset payload e i st acc; [reflexivity |].
    simpl. destruct (offset <? psz); [| reflexivity].
    destruct next_segment as [[seg rest] |]; [| reflexivity].
    destruct SerializeLayers as [err | buf]; [reflexivity |].
    rewrite <- IH. unfold collect. now rewrite foldl_app.
  Qed.

Lemma fragment_collect (fuel : nat) (e : Ethernet) (i : IPv4) (pmtu : Z) (st : St) :
    fragment fuel e i pmtu frame0 forward st
    = outcome_map (foldl (fun s f => forward f s) st)
        (fragment fuel e i pmtu frame0 collect []).
  Proof.
    unfold fragment. destruct slice_upto; [| reflexivity].
    apply (fragment_loop_collect _ _ _ _ _ fuel 0 _ _ _ st []).
  Qed.

Lemma fragment_as_segments (fuel : nat) (e : Ethernet) (i : IPv4) (pmtu : Z)
      (st : St) (payload : list byte) :
    let headerSize := ip_IHL i * 4 in
    let mss := maxSegmentSize pmtu headerSize in
    let payloadSize := ip_Length i - headerSize in
    slice_upto (ip_Payload i) payloadSize = Some payload ->
    0 < mss ->
    ceil_div payloadSize mss < Z.of_nat fuel ->
    fragment fuel e i pmtu frame0 forward st
    = (let r := forward_segments frame0 forward (segments fuel e i pmtu) st in
       Returned (fst r) (snd r)).
  Proof.
    intros headerSize mss payloadSize Hs Hmss Hfuel.
    unfold fragment, segments. fold headerSize mss payloadSize. rewrite Hs.
    destruct (slice_upto_len _ _ _ Hs) as [Hlen Hpos].
    destruct (enough_fuel payloadSize mss fuel Hpos Hmss Hfuel) as [Hf1 Hf2].
    apply fragment_loop_run; [exact Hmss | intros _; lia | exact Hf1 | exact Hf2].
  Qed.
End FragmentFacts.


Lemma segments_layout `{!Constants} (fuel : nat) (e : Ethernet) (i : IPv4) (pmtu : Z)
    (payload : list byte) :
  let headerSize := ip_IHL i * 4 in
  let mss := maxSegmentSize pmtu headerSize in
  let payloadSize := ip_Length i - headerSize in
  slice_upto (ip_Payload i) payloadSize = Some payload ->
  0 < mss ->
  ceil_div payloadSize mss < Z.of_nat fuel ->
  let segs := segments fuel e i pmtu in
  Z.of_nat (length segs) = ceil_div payloadSize mss /\
  forall (k : nat) (seg : Segment),
    segs !! k = Some seg ->
    ip_FragOffset (seg_ip seg)
      = uint16 (Z.shiftr (Z.of_nat k * mss + Z.shiftl (ip_FragOffset i) 3) 3) /\
    ip_Flags (seg_ip seg)
      = (if decide (S k = length segs) then ip_Flags i
         else Z.lor (ip_Flags i) IPv4MoreFragments) /\
    seg_payload seg = take (Z.to_nat mss) (drop (k * Z.to_nat mss) payload).
Proof.
  intros headerSize mss payloadSize Hs Hmss Hfuel segs.
  destruct (slice_upto_len _ _ _ Hs) as [Hlen Hpos].
  destruct (enough_fuel payloadSize mss fuel Hpos Hmss Hfuel) as [Hf1 Hf2].
  unfold segs, segments. fold headerSize mss payloadSize. rewrite Hs.
  match goal with
  | |- context [segments_from _ _ _ _ _ _ _ _ ?e1 ?i1] =>
      destruct (segments_from_layout headerSize mss payloadSize
                  (Z.shiftl (ip_FragOffset i) 3) (ip_Flags i) Hmss
                  (Z.lor (ip_Flags i) IPv4MoreFragments) fuel 0 payload e1 i1)
        as [Hn Hk]; [intros _; lia | exact Hf1 | exact Hf2 | reflexivity |]
  end.
  split.
  - rewrite Hn. f_equal. lia.
  - intros k seg Hseg. destruct (Hk k seg Hseg) as (Ho & Hf & Hp).
    repeat split; [| exact Hf | exact Hp].
    rewrite Ho. do 2 f_equal.
Qed.

Lemma frag_offset_in_range (i : IPv4) (off : Z) :
  decoded_IPv4 i -> 0 <= off < 2 ^ 16 ->
  uint16 (Z.shiftr (off + Z.shiftl (ip_FragOffset i) 3) 3)
  = Z.shiftr (off + Z.shiftl (ip_FragOffset i) 3) 3.
Proof.
  intros (_ & _ & _ & Hfo) Hoff. unfold uint16.
  rewrite Z.shiftl_mul_pow2, Z.shiftr_div_pow2 by lia.
  change (2 ^ 3) with 8 in *. change (2 ^ 13) with 8192 in *.
  change (2 ^ 16) with 65536 in *.
  apply Z.mod_small. split.
  - apply Z.div_pos; lia.
  - apply Z.div_lt_upper_bound; lia.
Qed.

Lemma index_below_payload (a b : Z) (k n : nat) :
  0 < b -> Z.of_nat n = ceil_div a b -> (k < n)%nat -> 0 <= Z.of_nat k * b < a.
Proof.
  intros Hb Hn Hk. pose proof (ceil_div_bounds a b Hb) as Hc.
  assert ((Z.of_nat k + 1) * b <= ceil_div a b * b)
    by (apply Z.mul_le_mono_nonneg_r; lia).
  split; [apply Z.mul_nonneg_nonneg; lia | lia].
Qed.



Section Divergence.
  Context `{!Constants, !LayerSerializer} {St : Type}.
  Variables (hs psz base orig : Z) (frame0 : ForwardedFrame)
            (forward : ForwardedFrame -> St -> St).



End Divergence.

Lemma segments_layout_decoded `{!Constants} (fuel : nat) (e : Ethernet) (i : IPv4)
    (pmtu : Z) (payload : list byte) :
  let headerSize := ip_IHL i * 4 in
  let mss := maxSegmentSize pmtu headerSize in
  let payloadSize := ip_Length i - headerSize in
  decoded_IPv4 i ->
  slice_upto (ip_Payload i) payloadSize = Some payload ->
  0 < mss ->
  ceil_div payloadSize mss < Z.of_nat fuel ->
  let segs := segments fuel e i pmtu in
  Z.of_nat (length segs) = ceil_div payloadSize mss /\
  forall (k : nat) (seg : Segment),
    segs !! k = Some seg ->
    ip_FragOffset (seg_ip seg)
      = Z.shiftr (Z.of_nat k * mss + Z.shiftl (ip_FragOffset i) 3) 3 /\
    ip_Flags (seg_ip seg)
      = (if decide (S k = length segs) then ip_Flags i
         else Z.lor (ip_Flags i) IPv4MoreFragments) /\
    seg_payload seg = take (Z.to_nat mss) (drop (k * Z.to_nat mss) payload).
Proof.
  intros headerSize mss payloadSize Hdec Hs Hmss Hfuel segs.
  destruct (segments_layout fuel e i pmtu payload Hs Hmss Hfuel) as [Hn Hk].
  fold headerSize mss payloadSize segs in Hn, Hk.
  split; [exact Hn |].
  intros k seg Hseg. destruct (Hk k seg Hseg) as (Ho & Hf & Hp).
  split; [| split; assumption].
  rewrite Ho. apply frag_offset_in_range; [exact Hdec |].
  pose proof (index_below_payload payloadSize mss k (length segs) Hmss Hn
                (lookup_lt_Some _ _ _ Hseg)) as Hb.
  destruct Hdec as (Hihl & Hl & _). unfold payloadSize, headerSize in Hb. lia.
Qed.

(** C6.  For a decoded Ethernet+IPv4 frame whose IP payload is there, and a
    positive segment size: [maxSegmentSize] is [pmtu - EthernetOverhead -
    headerSize] rounded down to a multiple of 8; [fragment] serializes and
    forwards the segments of [segments] in order; segment [k] has fragment
    offset [(k * maxSegmentSize + (FragOffset << 3)) >> 3]; every segment
    but the last carries the original flags with [MoreFragments], the last
    carries the original flags; and a payload of exactly [maxSegmentSize]
    bytes gives one segment, with the original flags and the whole
    payload. *)
Theorem fragment_layout `{!Constants, !LayerSerializer} {St : Type}
    (e : Ethernet) (i : IPv4) (pmtu : Z) (frame0 : ForwardedFrame)
    (forward : ForwardedFrame -> St -> St) (st : St)
    (payload : list byte) (fuel : nat) :
  let headerSize := ip_IHL i * 4 in
  let mss := maxSegmentSize pmtu headerSize in
  let payloadSize := ip_Length i - headerSize in
  let segs := segments fuel e i pmtu in
  decoded_IPv4 i ->
  slice_upto (ip_Payload i) payloadSize = Some payload ->
  0 < mss ->
  ceil_div payloadSize mss < Z.of_nat fuel ->
  mss = 8 * ((pmtu - EthernetOverhead - headerSize) / 8) /\
  fragment fuel e i pmtu frame0 forward st
    = (let r := forward_segments frame0 forward segs st in Returned (fst r) (snd r)) /\
  (forall (k : nat) (seg : Segment),
     segs !! k = Some seg ->
     ip_FragOffset (seg_ip seg)
       = Z.shiftr (Z.of_nat k * mss + Z.shiftl (ip_FragOffset i) 3) 3 /\
     ip_Flags (seg_ip seg)
       = (if decide (S k = length segs) then ip_Flags i
          else Z.lor (ip_Flags i) IPv4MoreFragments) /\
     seg_payload seg = take (Z.to_nat mss) (drop (k * Z.to_nat mss) payload)) /\
  (payloadSize = mss ->
     exists seg, segs = [seg] /\ ip_Flags (seg_ip seg) = ip_Flags i
                 /\ seg_payload seg = payload).
Proof.
  intros headerSize mss payloadSize segs Hdec Hs Hmss Hfuel.
  destruct (segments_layout_decoded fuel e i pmtu payload Hdec Hs Hmss Hfuel) as [Hn Hk].
  fold headerSize mss payloadSize segs in Hn, Hk.
  destruct (slice_upto_len _ _ _ Hs) as [Hlen Hpos].
  split; [apply maxSegmentSize_eq |].
  split; [apply (fragment_as_segments frame0 forward fuel e i pmtu st payload Hs Hmss Hfuel) |].
  split; [exact Hk |].
  intros Heq. rewrite Heq, ceil_div_small in Hn by lia.
  destruct segs as [| seg [| seg' rest]] eqn:Hsegs; simpl in Hn; try lia.
  exists seg. destruct (Hk 0%nat seg eq_refl) as (_ & Hf & Hp).
  split; [reflexivity |]. split; [exact Hf |].
  rewrite Hp, drop_0, take_ge; [reflexivity |]. unfold len in Hlen. lia.
Qed.

Lemma fragment_layout_witness :
  exists seg, @segments weave_constants 2 eth_2500 ip_980 1000 = [seg]
              /\ ip_Flags (seg_ip seg) = 2
              /\ seg_payload seg = replicate 960 xff.
Proof.
  refine (proj2 (proj2 (proj2
    (@fragment_layout weave_constants wire_serializer _
       eth_2500 ip_980 1000 frame_2500 collect [] (replicate 960 xff) 2 _ _ _ _))) _).
  - unfold decoded_IPv4. simpl. lia.
  - reflexivity.
  - reflexivity.
  - reflexivity.
  - reflexivity.
Defined.

(** C6 as stated fails where [maxSegmentSize] is 0.  The 60-byte frame holds
    an IPv4 header with no payload; with a PMTU of 36 [maxSegmentSize] is
    [(36 - 14 - 20) &^ 7 = 0], equal to the payload size.  The loop of
    [fragment] is not entered: no segment is made where the claim has
    exactly one, [fragment] returns nil without a call of [forward], and
    [Forward] returns nil with nothing queued. *)
Lemma fragment_no_segment_at_zero :
  decoded_IPv4 ip_empty /\
  slice_upto (ip_Payload ip_empty) (ip_Length ip_empty - ip_IHL ip_empty * 4) = Some [] /\
  ip_Length ip_empty - ip_IHL ip_empty * 4 = 0 /\
  @maxSegmentSize weave_constants 36 (ip_IHL ip_empty * 4) = 0 /\
  (forall fuel, @segments weave_constants fuel eth_2500 ip_empty 36 = []) /\
  (forall fuel, ~ exists seg, @segments weave_constants fuel eth_2500 ip_empty 36 = [seg]) /\
  (forall fuel,
     @fragment weave_constants wire_serializer _ (S fuel) eth_2500 ip_empty 36
       frame_60 collect [] = Returned None []) /\
  exists w',
    @Forward weave_constants wire_serializer 4 false frame_60 (Some dec_empty)
      (world_ready 36 false) = Returned None w' /\
    queue 0%nat w' = [] /\ queue 1%nat w' = [].
Proof.
  split; [vm_compute; repeat split; discriminate |].
  split; [reflexivity |]. split; [reflexivity |]. split; [reflexivity |].
  assert (Hsegs : forall fuel, @segments weave_constants fuel eth_2500 ip_empty 36 = []).
  { intros fuel. destruct fuel; reflexivity. }
  split; [exact Hsegs |].
  split; [intros fuel [seg Hseg]; rewrite Hsegs in Hseg; discriminate |].
  split; [intros fuel; reflexivity |].
  eexists. split; [vm_compute; reflexivity |]. split; reflexivity.
Qed.



(* ===================================================================== *)
(** * The dispatcher *)
(* ===================================================================== *)

Lemma queue_chan_send_eq (c : chan) (f : ForwardedFrame) (w : World) :
  queue c (chan_send c f w) = queue c w ++ [f].
Proof. unfold queue, chan_send. simpl. now rewrite lookup_total_insert_eq. Qed.

Lemma queue_chan_send_ne (c c' : chan) (f : ForwardedFrame) (w : World) :
  c <> c' -> queue c' (chan_send c f w) = queue c' w.
Proof. intros Hne. unfold queue, chan_send. simpl. now rewrite lookup_total_insert_ne. Qed.

Lemma enqueue_all_queue (c : chan) (frames : list ForwardedFrame) :
  forall w,
    queue c (enqueue_all c w frames) = queue c w ++ frames /\
    (forall c', c <> c' -> queue c' (enqueue_all c w frames) = queue c' w) /\
    conn (enqueue_all c w frames) = conn w /\
    stopChans (enqueue_all c w frames) = stopChans w /\
    logged (enqueue_all c w frames) = logged w.
Proof.
  unfold enqueue_all.
  induction frames as [| f frames IH]; intros w; simpl.
  - rewrite app_nil_r. auto.
  - destruct (IH (chan_send c f w)) as (Hq & Hne & Hc & Hs & Hl).
    rewrite Hq, Hc, Hs, Hl, queue_chan_send_eq, <- app_assoc.
    repeat split; try reflexivity.
    intros c' Hc'. rewrite Hne by exact Hc'. now apply queue_chan_send_ne.
Qed.

Lemma fits_true `{!Constants} (f : ForwardedFrame) (pmtu : Z) :
  fits f pmtu = true <-> len (frame f) - EthernetOverhead <= pmtu.
Proof. unfold fits. apply Z.leb_le. Qed.

Lemma fits_false `{!Constants} (f : ForwardedFrame) (pmtu : Z) :
  fits f pmtu = false <-> pmtu < len (frame f) - EthernetOverhead.
Proof. unfold fits. apply Z.leb_gt. Qed.

(** The last branch of [Forward]: the frames [fragment] emits are sent on
    the DF channel in order, and its outcome is the outcome of [Forward]. *)
Lemma Forward_fragment_path `{!Constants, !LayerSerializer} (fuel : nat)
    (f : ForwardedFrame) (d : EthernetDecoder) (w : World) (fwd fwdDF : chan) :
  forwardChan (conn w) = Some fwd ->
  forwardChanDF (conn w) = Some fwdDF ->
  stackFrag (conn w) = false ->
  2 <= len (decoded d) ->
  clientPMTU (conn w) < len (frame f) - EthernetOverhead ->
  Forward fuel false f (Some d) w
  = outcome_map (enqueue_all fwdDF (log_entry (LogFragmenting (frame f) (eth d)) w))
      (fragment fuel (eth d) (ip d) (clientPMTU (conn w)) f collect []).
Proof.
  intros Hfwd HfwdDF Hs Hn Hgt. unfold Forward. rewrite Hfwd, HfwdDF, Hs. simpl.
  apply Z.ltb_ge in Hn. rewrite Hn.
  apply fits_false in Hgt. rewrite Hgt.
  apply fragment_collect.
Qed.

(** C1.  With both queue handles non-null, [Forward] with [df = true]
    sends the frame on the DF channel and returns nil exactly when
    [len(frame) - EthernetOverhead <= clientPMTU] (so also at equality), and
    otherwise returns [FrameTooBigError] with the client PMTU and leaves
    the connection and every queue as they were. *)
Theorem Forward_df `{!Constants, !LayerSerializer} (fuel : nat) (f : ForwardedFrame)
    (dec : option EthernetDecoder) (w : World) (fwd fwdDF : chan) :
  forwardChan (conn w) = Some fwd ->
  forwardChanDF (conn w) = Some fwdDF ->
  let pmtu := clientPMTU (conn w) in
  (len (frame f) - EthernetOverhead <= pmtu ->
     Forward fuel true f dec w = Returned None (chan_send fwdDF f w)) /\
  (pmtu < len (frame f) - EthernetOverhead ->
     Forward fuel true f dec w = Returned (Some (FrameTooBigError pmtu (Some f))) w) /\
  ((exists w', Forward fuel true f dec w = Returned None w')
     <-> len (frame f) - EthernetOverhead <= pmtu) /\
  (len (frame f) = pmtu + EthernetOverhead ->
     Forward fuel true f dec w = Returned None (chan_send fwdDF f w)) /\
  queue fwdDF (chan_send fwdDF f w) = queue fwdDF w ++ [f] /\
  (forall c, fwdDF <> c -> queue c (chan_send fwdDF f w) = queue c w) /\
  conn (chan_send fwdDF f w) = conn w.
Proof.
  intros Hfwd HfwdDF pmtu.
  assert (Hyes : len (frame f) - EthernetOverhead <= pmtu ->
                 Forward fuel true f dec w = Returned None (chan_send fwdDF f w)).
  { intros Hle. unfold Forward. rewrite Hfwd, HfwdDF.
    apply fits_true in Hle. fold pmtu. now rewrite Hle. }
  assert (Hno : pmtu < len (frame f) - EthernetOverhead ->
                Forward fuel true f dec w
                = Returned (Some (FrameTooBigError pmtu (Some f))) w).
  { intros Hgt. unfold Forward. rewrite Hfwd, HfwdDF.
    apply fits_false in Hgt. fold pmtu. now rewrite Hgt. }
  repeat split.
  - exact Hyes.
  - exact Hno.
  - intros [w' Hrun].
    destruct (Z.le_gt_cases (len (frame f) - EthernetOverhead) pmtu) as [Hle | Hgt];
      [exact Hle |].
    rewrite (Hno Hgt) in Hrun. discriminate.
  - intros Hle. eauto.
  - intros Heq. apply Hyes. lia.
  - apply queue_chan_send_eq.
  - intros c Hc. now apply queue_chan_send_ne.
Qed.

Lemma Forward_df_witness :
  @Forward weave_constants wire_serializer 0 true frame_2500 None (world_ready 1400 false)
  = Returned (Some (FrameTooBigError 1400 (Some frame_2500))) (world_ready 1400 false).
Proof.
  refine (proj1 (proj2
    (@Forward_df weave_constants wire_serializer 0 frame_2500 None
       (world_ready 1400 false) 0%nat 1%nat eq_refl eq_refl)) _).
  reflexivity.
Defined.

(** C2.  With both queue handles non-null, [Forward] with [df = false]:
    sends the frame on the non-DF channel and returns nil when [stackFrag]
    is set, [dec] is nil or fewer than two layers were decoded; otherwise
    sends it whole on the DF channel and returns nil when it fits the
    client PMTU; otherwise runs [fragment], sends every frame it emits on
    the DF channel in order, and ends as [fragment] ends, with its error. *)
Theorem Forward_non_df `{!Constants, !LayerSerializer} (fuel : nat) (f : ForwardedFrame)
    (dec : option EthernetDecoder) (w : World) (fwd fwdDF : chan) :
  forwardChan (conn w) = Some fwd ->
  forwardChanDF (conn w) = Some fwdDF ->
  let pmtu := clientPMTU (conn w) in
  (stackFrag (conn w) = true \/ dec = None \/ (exists d, dec = Some d /\ len (decoded d) < 2) ->
     Forward fuel false f dec w = Returned None (chan_send fwd f w)) /\
  (forall d, stackFrag (conn w) = false -> dec = Some d -> 2 <= len (decoded d) ->
     (len (frame f) - EthernetOverhead <= pmtu ->
        Forward fuel false f dec w = Returned None (chan_send fwdDF f w)) /\
     (pmtu < len (frame f) - EthernetOverhead ->
        Forward fuel false f dec w
        = outcome_map (enqueue_all fwdDF (log_entry (LogFragmenting (frame f) (eth d)) w))
            (fragment fuel (eth d) (ip d) pmtu f collect []))) /\
  (forall c g, queue c (chan_send c g w) = queue c w ++ [g]) /\
  (forall w0 frames,
     queue fwdDF (enqueue_all fwdDF w0 frames) = queue fwdDF w0 ++ frames /\
     (forall c, fwdDF <> c -> queue c (enqueue_all fwdDF w0 frames) = queue c w0) /\
     conn (enqueue_all fwdDF w0 frames) = conn w0).
Proof.
  intros Hfwd HfwdDF pmtu.
  split; [| split; [| split]].
  - intros Hcase. unfold Forward. rewrite Hfwd, HfwdDF.
    assert (Hor : stackFrag (conn w) || undecoded dec = true).
    { destruct Hcase as [Hs | [Hd | (d & Hd & Hn)]].
      - now rewrite Hs.
      - rewrite Hd. simpl. apply orb_true_r.
      - rewrite Hd. simpl. apply Z.ltb_lt in Hn. rewrite Hn. apply orb_true_r. }
    now rewrite Hor.
  - intros d Hs Hd Hn.
    assert (Hor : stackFrag (conn w) || undecoded dec = false).
    { rewrite Hs, Hd. simpl. now apply Z.ltb_ge. }
    split.
    + intros Hle. unfold Forward. rewrite Hfwd, HfwdDF, Hor.
      apply fits_true in Hle. fold pmtu. now rewrite Hle.
    + intros Hgt. rewrite Hd.
      apply (Forward_fragment_path fuel f d w fwd fwdDF); assumption.
  - intros c g. apply queue_chan_send_eq.
  - intros w0 frames. destruct (enqueue_all_queue fwdDF frames w0) as (Hq & Hne & Hc & _).
    auto.
Qed.

Lemma Forward_non_df_witness :
  @Forward weave_constants wire_serializer 0 false frame_2500 (Some dec_2500)
    (world_ready 1000 true)
  = Returned None (chan_send 0%nat frame_2500 (world_ready 1000 true)).
Proof.
  refine (proj1
    (@Forward_non_df weave_constants wire_serializer 0 frame_2500 (Some dec_2500)
       (world_ready 1000 true) 0%nat 1%nat eq_refl eq_refl) _).
  left. reflexivity.
Defined.

(** C9.  When either queue handle is nil, [Forward] returns nil and changes
    nothing but the log: the connection, the frame queues and the stop
    channels stay as they were.  That is the case from the moment
    [stopForwarders] has cleared the two handles, whether it has returned
    or waits in a send, for as long as the connection record stays as
    [stopForwarders] left it. *)
Theorem Forward_not_ready `{!Constants, !LayerSerializer} (fuel : nat) (df : bool)
    (f : ForwardedFrame) (dec : option EthernetDecoder) (w : World) :
  (forwardChan (conn w) = None \/ forwardChanDF (conn w) = None ->
     Forward fuel df f dec w = Returned None (log_entry LogAwaitingContact w)) /\
  (forall k w' w'', stopForwarders w = (k, w') -> conn w'' = conn w' ->
     forwardChan (conn w'') = None /\ forwardChanDF (conn w'') = None /\
     Forward fuel df f dec w'' = Returned None (log_entry LogAwaitingContact w'')) /\
  (forall w0, conn (log_entry LogAwaitingContact w0) = conn w0 /\
              frameChans (log_entry LogAwaitingContact w0) = frameChans w0 /\
              stopChans (log_entry LogAwaitingContact w0) = stopChans w0 /\
              logged (log_entry LogAwaitingContact w0) = logged w0 ++ [LogAwaitingContact]).
Proof.
  assert (Hnull : forall w0, forwardChan (conn w0) = None \/ forwardChanDF (conn w0) = None ->
            Forward fuel df f dec w0 = Returned None (log_entry LogAwaitingContact w0)).
  { intros w0 [Hn | Hn]; unfold Forward; rewrite Hn; [reflexivity |].
    now destruct (forwardChan (conn w0)). }
  split; [apply Hnull | split].
  - intros k w' w'' Hstop Hsame.
    assert (Hc : forwardChan (conn w') = None /\ forwardChanDF (conn w') = None).
    { unfold stopForwarders in Hstop.
      destruct (stopForward (conn w)); injection Hstop as _ <-; split; reflexivity. }
    destruct Hc as [Hc1 Hc2]. rewrite <- Hsame in Hc1, Hc2.
    repeat split; [exact Hc1 | exact Hc2 |].
    apply Hnull. now left.
  - intros w0. repeat split.
Qed.

Lemma Forward_not_ready_witness :
  forwardChan (conn (snd (stopForwarders (world_ready 1400 false)))) = None /\
  @Forward weave_constants wire_serializer 4 true frame_50 None
    (snd (stopForwarders (world_ready 1400 false)))
  = Returned None
      (log_entry LogAwaitingContact (snd (stopForwarders (world_ready 1400 false)))).
Proof.
  destruct (proj1 (proj2
    (@Forward_not_ready weave_constants wire_serializer 4 true frame_50 None
       (world_ready 1400 false)))
     (fst (stopForwarders (world_ready 1400 false)))
     (snd (stopForwarders (world_ready 1400 false)))
     (snd (stopForwarders (world_ready 1400 false)))
     eq_refl eq_refl) as (Hf & _ & Hrun).
  split; [exact Hf | exact Hrun].
Defined.

Lemma segments_three `{!Constants} (fuel : nat) (e : Ethernet) (i : IPv4) (pmtu : Z)
    (payload : list byte) :
  let headerSize := ip_IHL i * 4 in
  let mss := maxSegmentSize pmtu headerSize in
  let payloadSize := ip_Length i - headerSize in
  decoded_IPv4 i ->
  slice_upto (ip_Payload i) payloadSize = Some payload ->
  0 < mss -> 2 * mss < payloadSize <= 3 * mss -> (3 < fuel)%nat ->
  exists s1 s2 s3,
    segments fuel e i pmtu = [s1; s2; s3] /\
    map (fun s => ip_FragOffset (seg_ip s)) [s1; s2; s3]
      = map (fun k => Z.shiftr (k * mss + Z.shiftl (ip_FragOffset i) 3) 3) [0; 1; 2] /\
    map (fun s => len (seg_payload s)) [s1; s2; s3] = [mss; mss; payloadSize - 2 * mss] /\
    map (fun s => ip_Flags (seg_ip s)) [s1; s2; s3]
      = [Z.lor (ip_Flags i) IPv4MoreFragments; Z.lor (ip_Flags i) IPv4MoreFragments;
         ip_Flags i].
Proof.
  intros headerSize mss payloadSize Hdec Hs Hmss Hsize Hfuel.
  assert (Hceil : ceil_div payloadSize mss = 3).
  { replace payloadSize with (payloadSize - 2 * mss + mss + mss) by lia.
    rewrite !ceil_div_step by lia. rewrite ceil_div_small by lia. reflexivity. }
  assert (Hf : ceil_div payloadSize mss < Z.of_nat fuel) by lia.
  destruct (segments_layout_decoded fuel e i pmtu payload Hdec Hs Hmss Hf) as [Hn Hk].
  fold headerSize mss payloadSize in Hk, Hn. rewrite Hceil in Hn.
  destruct (slice_upto_len _ _ _ Hs) as [Hlen _]. fold payloadSize in Hlen.
  destruct (segments fuel e i pmtu) as [| s1 [| s2 [| s3 [| s4 rest]]]] eqn:Hsegs;
    simpl in Hn; try lia.
  exists s1, s2, s3. split; [reflexivity |].
  destruct (Hk 0%nat s1 eq_refl) as (Ho1 & Hf1 & Hp1).
  destruct (Hk 1%nat s2 eq_refl) as (Ho2 & Hf2 & Hp2).
  destruct (Hk 2%nat s3 eq_refl) as (Ho3 & Hf3 & Hp3).
  simpl in Hf1, Hf2, Hf3.
  repeat split.
  - simpl. rewrite Ho1, Ho2, Ho3. reflexivity.
  - simpl. rewrite Hp1, Hp2, Hp3. unfold len in *.
    rewrite !length_take, !length_drop. repeat f_equal; lia.
  - simpl. rewrite Hf1, Hf2, Hf3. reflexivity.
Qed.

(** C4, as the code has it.  With [EthernetOverhead = 14], [stackFrag]
    false, a client PMTU of 1000 and a 2500-byte frame holding a 20-byte IP
    header and 2466 bytes of IP payload, the fragmenter builds exactly three
    segments, at fragment offsets 0, 120 and 240 (in 8-byte units), carrying
    960, 960 and 546 bytes of IP payload, the first two with [MoreFragments]
    added to the original flags and the third with the original flags; when
    the three serialize, [Forward] returns nil having sent exactly these
    three on the DF channel, in order, and nothing on any other channel. *)
Theorem Forward_fragments_2500 `{!Constants, !LayerSerializer} (fuel : nat)
    (f : ForwardedFrame) (d : EthernetDecoder) (w : World) (fwd fwdDF : chan)
    (payload : list byte) :
  EthernetOverhead = 14 ->
  forwardChan (conn w) = Some fwd -> forwardChanDF (conn w) = Some fwdDF ->
  stackFrag (conn w) = false -> clientPMTU (conn w) = 1000 ->
  len (frame f) = 2500 -> 2 <= len (decoded d) ->
  decoded_IPv4 (ip d) ->
  ip_IHL (ip d) = 5 -> ip_Length (ip d) = 2486 -> ip_FragOffset (ip d) = 0 ->
  slice_upto (ip_Payload (ip d)) 2466 = Some payload ->
  (3 < fuel)%nat ->
  exists s1 s2 s3,
    segments fuel (eth d) (ip d) 1000 = [s1; s2; s3] /\
    map (fun s => ip_FragOffset (seg_ip s)) [s1; s2; s3] = [0; 120; 240] /\
    map (fun s => len (seg_payload s)) [s1; s2; s3] = [960; 960; 546] /\
    map (fun s => ip_Flags (seg_ip s)) [s1; s2; s3]
      = [Z.lor (ip_Flags (ip d)) IPv4MoreFragments;
         Z.lor (ip_Flags (ip d)) IPv4MoreFragments; ip_Flags (ip d)] /\
    forall b1 b2 b3,
      SerializeLayers fragment_opts (seg_eth s1) (seg_ip s1) (seg_payload s1) = inr b1 ->
      SerializeLayers fragment_opts (seg_eth s2) (seg_ip s2) (seg_payload s2) = inr b2 ->
      SerializeLayers fragment_opts (seg_eth s3) (seg_ip s3) (seg_payload s3) = inr b3 ->
      exists w',
        Forward fuel false f (Some d) w = Returned None w' /\
        queue fwdDF w' = queue fwdDF w ++ [set_frame b1 f; set_frame b2 f; set_frame b3 f] /\
        (forall c, fwdDF <> c -> queue c w' = queue c w).
Proof.
  intros HEO Hfwd HfwdDF Hstack Hpmtu Hlen Hdecoded Hdec Hihl Hiplen Hfo Hs Hfuel.
  assert (Hmss : maxSegmentSize 1000 (ip_IHL (ip d) * 4) = 960).
  { rewrite maxSegmentSize_eq, HEO, Hihl. reflexivity. }
  assert (Hpsz : ip_Length (ip d) - ip_IHL (ip d) * 4 = 2466) by (rewrite Hihl, Hiplen; lia).
  destruct (segments_three fuel (eth d) (ip d) 1000 payload) as (s1 & s2 & s3 & Hsegs & Ho & Hp & Hf);
    [exact Hdec | now rewrite Hpsz | rewrite Hmss; lia | rewrite Hmss, Hpsz; lia | exact Hfuel |].
  rewrite Hmss, Hpsz, Hfo in *.
  exists s1, s2, s3.
  split; [exact Hsegs |]. split; [exact Ho |]. split; [exact Hp |]. split; [exact Hf |].
  intros b1 b2 b3 Hb1 Hb2 Hb3.
  pose proof (Forward_fragment_path fuel f d w fwd fwdDF Hfwd HfwdDF Hstack Hdecoded
                ltac:(rewrite Hpmtu, HEO; lia)) as Hrun.
  rewrite Hpmtu in Hrun.
  exists (enqueue_all fwdDF (log_entry (LogFragmenting (frame f) (eth d)) w)
            [set_frame b1 f; set_frame b2 f; set_frame b3 f]).
  destruct (enqueue_all_queue fwdDF [set_frame b1 f; set_frame b2 f; set_frame b3 f]
              (log_entry (LogFragmenting (frame f) (eth d)) w)) as (Hq1 & Hq2 & _).
  split; [| split; [exact Hq1 | exact Hq2]].
  rewrite Hrun.
  rewrite (fragment_as_segments f collect fuel (eth d) (ip d) 1000 [] payload);
    [| now rewrite Hpsz | rewrite Hmss; lia
     | rewrite Hmss, Hpsz; change (ceil_div 2466 960) with 3; lia].
  rewrite Hsegs. simpl. rewrite Hb1. simpl. rewrite Hb2. simpl. rewrite Hb3. reflexivity.
Qed.

Lemma Forward_fragments_2500_witness :
  exists s1 s2 s3,
    @segments weave_constants 4 eth_2500 ip_2500 1000 = [s1; s2; s3] /\
    map (fun s => ip_FragOffset (seg_ip s)) [s1; s2; s3] = [0; 120; 240] /\
    map (fun s => len (seg_payload s)) [s1; s2; s3] = [960; 960; 546].
Proof.
  destruct (@Forward_fragments_2500 weave_constants wire_serializer 4 frame_2500 dec_2500
              (world_ready 1000 false) 0%nat 1%nat (replicate 2466 xff))
    as (s1 & s2 & s3 & Hsegs & Ho & Hp & _);
    [ reflexivity | reflexivity | reflexivity | reflexivity | reflexivity | reflexivity
    | vm_compute; discriminate | unfold decoded_IPv4; simpl; lia
    | reflexivity | reflexivity | reflexivity | reflexivity | lia |].
  exists s1, s2, s3. split; [exact Hsegs |]. split; [exact Ho | exact Hp].
Defined.

(** C4 as stated fails: the three frames [Forward] puts on the DF channel
    for the 2500-byte frame carry offsets 0, 120, 240 and 960, 960, 546
    bytes of IP payload, not offsets 0, 122, 244 and 968 bytes. *)
Lemma Forward_fragments_2500_not_968 :
  exists w',
    @Forward weave_constants wire_serializer 4 false frame_2500 (Some dec_2500)
             (world_ready 1000 false) = Returned None w' /\
    map wire_FragOffset (queue 1%nat w') = [0; 120; 240] /\
    map wire_payload_len (queue 1%nat w') = [960; 960; 546] /\
    map wire_Flags (queue 1%nat w') = [1; 1; 0] /\
    map wire_FragOffset (queue 1%nat w') <> [0; 122; 244] /\
    map wire_payload_len (take 2 (queue 1%nat w')) <> [968; 968].
Proof.
  eexists. split; [vm_compute; reflexivity |].
  repeat split; try (vm_compute; reflexivity); vm_compute; discriminate.
Qed.

(* ===================================================================== *)
(** * The pipeline task *)
(* ===================================================================== *)

Section PipelineFacts.
  Context `{!Constants} {E U : Type} `{!Encryptor E, !UDPSender U}.
  Implicit Types (l : Locals E U) (w : World).

Lemma verify_once_frame vf l :
    same_frame l (verify_once vf l) /\
    exists d, l_trace (verify_once vf l)
              = l_trace l ++ [EvAppendFrame vf; EvSend d (l_maxPayload l)].
  Proof.
    unfold verify_once, send_Bytes, enc_AppendFrame. simpl.
    destruct (Bytes (AppendFrame vf (l_enc l))) as [msg e1].
    destruct (Send msg (l_udpSender l)) as [err u1]. simpl.
    split; [repeat split |]. exists msg. now rewrite <- app_assoc.
  Qed.

Lemma iter_verify_once vf (n : nat) l :
    same_frame l (Nat.iter n (verify_once vf) l) /\
    exists ds, length ds = n /\
      l_trace (Nat.iter n (verify_once vf) l)
      = l_trace l ++ verify_events vf (l_maxPayload l) ds.
  Proof.
    induction n as [| n [Hsame (ds & Hlen & Htr)]]; simpl.
    - split; [repeat split |]. exists []. split; [reflexivity |].
      simpl. now rewrite app_nil_r.
    - destruct (verify_once_frame vf (Nat.iter n (verify_once vf) l)) as [Hs (d & Hd)].
      unfold same_frame in *.
      destruct Hsame as (? & ? & ? & ? & ? & Hmp), Hs as (? & ? & ? & ? & ? & ?).
      split; [repeat split; congruence |].
      exists (ds ++ [d]). split; [rewrite length_app; simpl; lia |].
      rewrite Hd, Htr, Hmp. unfold verify_events.
      rewrite flat_map_app. simpl. now rewrite <- app_assoc.
  Qed.

Lemma updateClientPMTU_ok l w :
    0 <= l_clientPMTU l + EthernetOverhead ->
    exists l' vf ds,
      updateClientPMTU l w = Returned tt (l', setClientPMTU (l_clientPMTU l) w) /\
      l_clientPMTU l' = l_clientPMTU l /\ l_maxPayload l' = l_maxPayload l /\
      len (frame vf) = l_clientPMTU l + EthernetOverhead /\
      srcPeer vf = local (conn w) /\ dstPeer vf = remote (conn w) /\
      length ds = 10%nat /\
      l_trace l' = l_trace l ++ verify_events vf (l_maxPayload l) ds /\
      l_pmtuVerifyTick l' = true.
  Proof.
    intros Hpos. unfold updateClientPMTU, make_bytes.
    destruct (0 <=? l_clientPMTU l + EthernetOverhead) eqn:Hge; [| lia].
    set (vf := {| srcPeer := local (conn (setClientPMTU (l_clientPMTU l) w));
                  dstPeer := remote (conn (setClientPMTU (l_clientPMTU l) w));
                  frame := replicate (Z.to_nat (l_clientPMTU l + EthernetOverhead)) x00 |}).
    destruct (iter_verify_once vf 10 l) as [(_ & _ & _ & _ & Hcp & Hmp) (ds & Hlen & Htr)].
    exists (set_pmtuVerifyTick true (Nat.iter 10 (verify_once vf) l)), vf, ds.
    split; [reflexivity |]. simpl.
    repeat split; try assumption.
    now apply len_replicate.
  Qed.

Lemma updateClientPMTU_panics l w :
    l_clientPMTU l + EthernetOverhead < 0 ->
    updateClientPMTU l w = Panicked (l, setClientPMTU (l_clientPMTU l) w).
  Proof.
    intros Hneg. unfold updateClientPMTU, make_bytes.
    destruct (0 <=? l_clientPMTU l + EthernetOverhead) eqn:Hge; [lia | reflexivity].
  Qed.

  (** Whatever its outcome, [updateClientPMTU] leaves the local client PMTU
      as it found it and writes it to the connection. *)
Lemma updateClientPMTU_writes l w :
    l_clientPMTU (fst (outcome_state (updateClientPMTU l w))) = l_clientPMTU l /\
    clientPMTU (conn (snd (outcome_state (updateClientPMTU l w)))) = l_clientPMTU l.
  Proof.
    destruct (Z.le_gt_cases 0 (l_clientPMTU l + EthernetOverhead)) as [Hge | Hlt].
    - destruct (updateClientPMTU_ok l w Hge) as (l' & vf & ds & Hrun & Hcp & _).
      rewrite Hrun. simpl. split; [exact Hcp | reflexivity].
    - rewrite (updateClientPMTU_panics l w Hlt). simpl. split; reflexivity.
  Qed.

Lemma resume_state (c : Control) (o : Outcome unit (Locals E U * World)) :
    l_clientPMTU (locals (fst (resume c o))) = l_clientPMTU (fst (outcome_state o)) /\
    snd (resume c o) = snd (outcome_state o).
  Proof. destruct o as [r [l w] | [l w] | [l w] | [l w]]; simpl; split; reflexivity. Qed.

  (** C7, as the code has it.  When the verify timer fires (it was armed):
      if the client PMTU is not verified and the decremented client PMTU
      plus [EthernetOverhead] is not negative, the task takes exactly 10
      off the client PMTU, writes it to the connection, appends and sends
      one by one 10 copies of a frame of [clientPMTU + EthernetOverhead]
      bytes, and arms the timer again; if the client PMTU is verified, the
      client PMTU is unchanged, nothing is appended or sent, and the timer
      is left disarmed. *)
Theorem verify_tick l w :
    l_pmtuVerifyTick l = true ->
    (isClientPMTUVerfied w = false ->
     0 <= l_clientPMTU l - 10 + EthernetOverhead ->
     exists l' w' vf ds,
       outer_select TakeTick l w = Some ({| ctl := AtOuterSelect; locals := l' |}, w') /\
       l_clientPMTU l' = l_clientPMTU l - 10 /\
       clientPMTU (conn w') = l_clientPMTU l - 10 /\
       len (frame vf) = l_clientPMTU l - 10 + EthernetOverhead /\
       length ds = 10%nat /\
       l_trace l' = l_trace l ++ verify_events vf (l_maxPayload l) ds /\
       l_pmtuVerifyTick l' = true) /\
    (isClientPMTUVerfied w = true ->
     outer_select TakeTick l w
     = Some ({| ctl := AtOuterSelect; locals := set_pmtuVerifyTick false l |}, w) /\
     l_clientPMTU (set_pmtuVerifyTick false l) = l_clientPMTU l /\
     l_trace (set_pmtuVerifyTick false l) = l_trace l).
  Proof.
    intros Harmed. split.
    - intros Hunv Hpos. unfold outer_select. rewrite Harmed, Hunv. simpl.
      set (l1 := set_clientPMTU (l_clientPMTU l - 10) (set_pmtuVerifyTick false l)).
      destruct (updateClientPMTU_ok l1 w Hpos)
        as (l' & vf & ds & Hrun & Hcp & Hmp & Hlen & _ & _ & Hds & Htr & Htick).
      exists l', (setClientPMTU (l_clientPMTU l1) w), vf, ds.
      fold l1. rewrite Hrun. simpl. repeat split; assumption.
    - intros Hver. unfold outer_select. rewrite Harmed, Hver. simpl. repeat split.
  Qed.

  (** C3, as the code has it.  When the send of a flush returns
      [FrameTooBigError{p}] and [p - UDPOverhead - PacketOverhead -
      FrameOverhead] is not negative, [flush] sets [maxPayload] to [p -
      UDPOverhead] and the client PMTU to [maxPayload - PacketOverhead -
      FrameOverhead - EthernetOverhead], writes the client PMTU to the
      connection, appends and sends one by one exactly 10 copies of a frame
      of [clientPMTU + EthernetOverhead] bytes, and arms the verify
      timer. *)
Theorem flush_frame_too_big l w (msg : list byte) (e1 : E) (u1 : U) (p : Z)
      (fr : option ForwardedFrame) :
    Bytes (l_enc l) = (msg, e1) ->
    Send msg (l_udpSender l) = (Some (FrameTooBigError p fr), u1) ->
    let mp := p - UDPOverhead in
    let cp := mp - PacketOverhead e1 - FrameOverhead e1 - EthernetOverhead in
    0 <= cp + EthernetOverhead ->
    exists l' w' vf ds,
      flush l w = Returned tt (l', w') /\
      l_maxPayload l' = mp /\
      l_clientPMTU l' = cp /\
      clientPMTU (conn w') = cp /\
      len (frame vf) = cp + EthernetOverhead /\
      length ds = 10%nat /\
      l_trace l' = l_trace l ++ [EvSend msg (l_maxPayload l)] ++ verify_events vf mp ds /\
      l_pmtuVerifyTick l' = true.
  Proof.
    intros Hb Hsend mp cp Hpos. unfold flush, send_Bytes. rewrite Hb, Hsend.
    match goal with
    | |- context [updateClientPMTU ?l3 w] => set (l3' := l3)
    end.
    assert (Hcp3 : l_clientPMTU l3' = cp) by reflexivity.
    destruct (updateClientPMTU_ok l3' w ltac:(rewrite Hcp3; exact Hpos))
      as (l' & vf & ds & Hrun & Hcp & Hmp & Hlen & _ & _ & Hds & Htr & Htick).
    exists l', (setClientPMTU (l_clientPMTU l3') w), vf, ds.
    rewrite Hrun. repeat split; try assumption.
    rewrite Htr. simpl. now rewrite <- app_assoc.
  Qed.
End PipelineFacts.

Section InvariantFacts.
  Context `{!Constants} {E U : Type} `{!Encryptor E, !UDPSender U, !EncryptorLaws E}.
  Variables (po fo : Z).
  Implicit Types (l : Locals E U) (w : World).

Lemma sends_within_snoc tr msg budget :
    sends_within po tr -> len msg <= budget + po ->
    sends_within po (tr ++ [EvSend msg budget]).
  Proof.
    intros Htr Hmsg m b Hin. apply elem_of_app in Hin as [Hin | Hin]; [now apply Htr |].
    apply list_elem_of_singleton in Hin. injection Hin as -> ->. exact Hmsg.
  Qed.

Lemma sends_within_append tr f :
    sends_within po tr -> sends_within po (tr ++ [EvAppendFrame f]).
  Proof.
    intros Htr m b Hin. apply elem_of_app in Hin as [Hin | Hin]; [now apply Htr |].
    apply list_elem_of_singleton in Hin. discriminate.
  Qed.

Lemma batch_inv_weaken bound bound' l :
    bound <= bound' -> batch_inv po fo bound l -> batch_inv po fo bound' l.
  Proof. intros Hle (? & ? & ? & ? & ?). repeat split; try assumption. lia. Qed.

Lemma enc_AppendFrame_inv bound f l :
    batch_inv po fo bound l ->
    batch_inv po fo (bound + fo + len (frame f)) (enc_AppendFrame f l).
  Proof.
    intros (Hpo & Hfo & Htr & Hb & Harm).
    destruct (law_append_overheads f (l_enc l)) as [Hfo' Hpo'].
    unfold batch_inv, enc_AppendFrame. simpl.
    rewrite law_append_total, Hfo', Hpo'.
    repeat split; try assumption; [now apply sends_within_append | lia].
  Qed.

Lemma send_Bytes_inv l :
    batch_inv po fo (l_maxPayload l) l ->
    batch_inv po fo po (snd (send_Bytes l)) /\
    l_maxPayload (snd (send_Bytes l)) = l_maxPayload l /\
    l_clientPMTU (snd (send_Bytes l)) = l_clientPMTU l /\
    l_pmtuVerifyTick (snd (send_Bytes l)) = l_pmtuVerifyTick l.
  Proof.
    intros (Hpo & Hfo & Htr & Hb & Harm).
    pose proof (law_bytes_len (l_enc l)) as Hlen.
    pose proof (law_bytes_reset (l_enc l)) as Hreset.
    destruct (law_bytes_overheads (l_enc l)) as [Hfo' Hpo'].
    unfold send_Bytes. destruct (Bytes (l_enc l)) as [msg e1]. simpl in *.
    destruct (Send msg (l_udpSender l)) as [err u1]. simpl.
    split; [| repeat split].
    unfold batch_inv. simpl. repeat split; try congruence; try lia; try assumption.
    apply sends_within_snoc; [assumption | lia].
  Qed.

Lemma appendFrame_inv bound f l :
    batch_inv po fo bound l ->
    (fst (appendFrame f l) = true ->
     batch_inv po fo (l_maxPayload l) (snd (appendFrame f l))) /\
    (fst (appendFrame f l) = false -> snd (appendFrame f l) = l) /\
    l_maxPayload (snd (appendFrame f l)) = l_maxPayload l.
  Proof.
    intros Hinv. unfold appendFrame.
    destruct (TotalLen (l_enc l) + FrameOverhead (l_enc l) + len (frame f) >? l_maxPayload l)
      eqn:Hcmp; simpl.
    - split; [discriminate |]. split; reflexivity.
    - split; [| split; [discriminate | reflexivity]].
      intros _. pose proof (enc_AppendFrame_inv (TotalLen (l_enc l)) f l) as Hnew.
      destruct Hinv as (Hpo & Hfo & Htr & Hb & Harm).
      eapply batch_inv_weaken; [| apply Hnew; repeat split; try assumption; lia].
      rewrite <- Hfo. lia.
  Qed.

Lemma verify_once_inv f l :
    batch_inv po fo po l ->
    len (frame f) + fo + po <= l_maxPayload l ->
    batch_inv po fo po (verify_once f l) /\
    l_maxPayload (verify_once f l) = l_maxPayload l /\
    l_clientPMTU (verify_once f l) = l_clientPMTU l /\
    l_pmtuVerifyTick (verify_once f l) = l_pmtuVerifyTick l.
  Proof.
    intros Hinv Hfit. unfold verify_once.
    pose proof (enc_AppendFrame_inv po f l Hinv) as Happ.
    apply (batch_inv_weaken _ (l_maxPayload (enc_AppendFrame f l))) in Happ;
      [| simpl; lia].
    exact (send_Bytes_inv _ Happ).
  Qed.

Lemma iter_verify_once_inv f (n : nat) l :
    batch_inv po fo po l ->
    len (frame f) + fo + po <= l_maxPayload l ->
    batch_inv po fo po (Nat.iter n (verify_once f) l) /\
    l_maxPayload (Nat.iter n (verify_once f) l) = l_maxPayload l /\
    l_clientPMTU (Nat.iter n (verify_once f) l) = l_clientPMTU l /\
    l_pmtuVerifyTick (Nat.iter n (verify_once f) l) = l_pmtuVerifyTick l.
  Proof.
    intros Hinv Hfit. induction n as [| n (IH & Hmp & Hcp & Htick)]; simpl; [auto |].
    destruct (verify_once_inv f (Nat.iter n (verify_once f) l) IH ltac:(lia))
      as (H1 & H2 & H3 & H4).
    split; [exact H1 |]. split; [congruence |]. split; congruence.
  Qed.

Lemma updateClientPMTU_inv l w :
    batch_inv po fo po l ->
    l_clientPMTU l + EthernetOverhead + fo + po <= l_maxPayload l ->
    batch_inv po fo po (fst (outcome_state (updateClientPMTU l w))).
  Proof.
    intros Hinv Hfit. unfold updateClientPMTU, make_bytes.
    destruct (0 <=? l_clientPMTU l + EthernetOverhead) eqn:Hge; [| exact Hinv].
    match goal with
    | |- context [Nat.iter 10 (verify_once ?vf) l] =>
        destruct (iter_verify_once_inv vf 10 l Hinv)
          as ((Hpo & Hfo & Htr & Hb & _) & Hmp & Hcp & _);
        [ simpl; rewrite len_replicate by lia; lia |];
        remember (Nat.iter 10 (verify_once vf) l) as l10
    end.
    unfold batch_inv. simpl. repeat split; try assumption.
    intros _. rewrite Hcp, Hmp. exact Hfit.
  Qed.

Lemma flush_inv l w :
    batch_inv po fo (l_maxPayload l) l ->
    batch_inv po fo po (fst (outcome_state (flush l w))).
  Proof.
    intros Hinv. unfold flush.
    destruct (send_Bytes_inv l Hinv) as (Hs & Hmp & Hcp & Htick).
    destruct (send_Bytes l) as [err l1]. simpl in *.
    destruct err as [[p fr | n | s] |]; simpl; try exact Hs.
    - apply updateClientPMTU_inv.
      + destruct Hs as (Hpo & Hfo & Htr & Hb & _).
        unfold batch_inv. simpl. repeat split; try assumption. intros _. lia.
      + destruct Hs as (Hpo & Hfo & _). simpl. lia.
    - destruct (n =? ENOBUFS); exact Hs.
  Qed.

Lemma leave_inv (c : Control) l :
    c = Exited \/ c = Crashed ->
    sends_within po (l_trace l) -> task_inv po fo (leave c l).
  Proof. intros [-> | ->] Htr; exact Htr. Qed.

Lemma resume_outer_inv (o : Outcome unit (Locals E U * World)) :
    batch_inv po fo po (fst (outcome_state o)) ->
    task_inv po fo (fst (resume AtOuterSelect o)).
  Proof.
    destruct o as [r [l w] | [l w] | [l w] | [l w]]; simpl; intros Hinv;
      [exact Hinv | | |]; apply leave_inv; auto; apply Hinv.
  Qed.

Lemma outer_select_inv (c : Choice) l w r :
    batch_inv po fo po l ->
    outer_select c l w = Some r ->
    task_inv po fo (fst r).
  Proof.
    intros Hinv Hsel. destruct c; simpl in Hsel.
    - destruct (stopChans w !!! l_stop l); [discriminate |].
      injection Hsel as <-. simpl. apply leave_inv; [auto | apply Hinv].
    - destruct (l_pmtuVerifyTick l) eqn:Harmed; [| discriminate].
      destruct (negb (isClientPMTUVerfied w)); injection Hsel as <-.
      + apply resume_outer_inv. destruct Hinv as (Hpo & Hfo & Htr & Hb & Harm).
        specialize (Harm Harmed).
        apply updateClientPMTU_inv; [| simpl; lia].
        unfold batch_inv. simpl. repeat split; try assumption. discriminate.
      + destruct Hinv as (Hpo & Hfo & Htr & Hb & Harm).
        unfold task_inv, batch_inv. simpl. repeat split; try assumption. discriminate.
    - destruct (queue (l_forwardCh l) w) as [| f q]; [discriminate |].
      destruct (appendFrame_inv po f l Hinv) as (Hyes & Hno & Hmp).
      destruct (appendFrame f l) as [ok l1]. simpl in *.
      destruct ok; injection Hsel as <-; unfold task_inv; simpl.
      + rewrite Hmp. now apply Hyes.
      + now rewrite Hno.
  Qed.

Lemma inner_select_inv l w :
    batch_inv po fo (l_maxPayload l) l ->
    task_inv po fo (fst (inner_select l w)).
  Proof.
    intros Hinv. unfold inner_select.
    destruct (queue (l_forwardCh l) w) as [| f q].
    - apply resume_outer_inv. now apply flush_inv.
    - destruct (appendFrame_inv (l_maxPayload l) f l Hinv) as (Hyes & Hno & Hmp).
      destruct (appendFrame f l) as [ok l1]. simpl in *.
      destruct ok; [unfold task_inv; simpl; rewrite Hmp; now apply Hyes |].
      rewrite Hno by reflexivity.
      pose proof (flush_inv l (chan_pop (l_forwardCh l) q w) Hinv) as Hfl.
      destruct (flush l (chan_pop (l_forwardCh l) q w)) as [r [l2 w2] | [l2 w2] | [l2 w2] | [l2 w2]];
        simpl in *; try (apply leave_inv; [auto | apply Hfl]).
      destruct (appendFrame_inv po f l2 Hfl) as (Hyes2 & Hno2 & Hmp2).
      destruct (appendFrame f l2) as [ok2 l3]. simpl in *.
      destruct ok2; unfold task_inv; simpl.
      + rewrite Hmp2. now apply Hyes2.
      + now rewrite Hno2.
  Qed.

Lemma task_step_inv (s s' : Task E U * World) :
    task_step s s' -> task_inv po fo (fst s) -> task_inv po fo (fst s').
  Proof.
    intros Hstep Hinv. destruct Hstep as [c l w r Hsel | l w | t w w'].
    - eapply outer_select_inv; [exact Hinv | exact Hsel].
    - apply inner_select_inv. exact Hinv.
    - exact Hinv.
  Qed.

Lemma task_inv_sends (t : Task E U) :
    task_inv po fo t -> sends_within po (l_trace (locals t)).
  Proof. unfold task_inv. destruct (ctl t); intros Hinv; try exact Hinv; apply Hinv. Qed.
End InvariantFacts.

(** C8.  With an encryptor whose accounting is accurate and whose batch
    is empty when [forwarderLoop] starts, every datagram the task hands to
    its sender, from a flush or from a verification send, in any state the
    task can reach, is at most [maxPayload + PacketOverhead] bytes long,
    [maxPayload] taken at the time of the send. *)
Theorem datagrams_within_budget `{!Constants} {E U : Type}
    `{!Encryptor E, !UDPSender U} (forwardCh stop : chan) (e : E) (u : U)
    (pmtu : Z) (w0 : World) (t : Task E U) (w : World) :
  EncryptorLaws E ->
  TotalLen e <= PacketOverhead e ->
  reachable (forwarderLoop forwardCh stop e u pmtu, w0) (t, w) ->
  forall msg budget,
    EvSend msg budget ∈ l_trace (locals t) ->
    len msg <= budget + PacketOverhead e.
Proof.
  intros Hlaws Hempty Hreach.
  apply (task_inv_sends (PacketOverhead e) (FrameOverhead e)).
  change t with (fst (t, w)).
  induction Hreach as [| s s' _ IH Hstep].
  - unfold task_inv, batch_inv, forwarderLoop. simpl.
    repeat split; try assumption; try discriminate.
    intros msg budget Hin. inversion Hin.
  - eapply task_step_inv; [exact Hstep | exact IH].
Qed.

Lemma plain_encryptor_laws : @EncryptorLaws PlainEncryptor plain_encryptor.
Proof.
  split; simpl; intros.
  - rewrite !len_app. unfold be16, len. simpl. lia.
  - split; reflexivity.
  - unfold len. simpl. lia.
  - split; reflexivity.
  - unfold len. simpl. lia.
Qed.

Section RunFacts.
  Context `{!Constants} {E U : Type} `{!Encryptor E, !UDPSender U}.

Lemma run_reachable (cs : list Choice) :
    forall (init s s' : Task E U * World),
      reachable init s -> run cs s = Some s' -> reachable init s'.
  Proof.
    induction cs as [| c cs IH]; intros init s s' Hreach Hrun; simpl in Hrun.
    - injection Hrun as <-. exact Hreach.
    - destruct s as [[k l] w]. simpl in Hrun. destruct k.
      + destruct (outer_select c l w) as [r |] eqn:Hsel; [| discriminate].
        apply (IH init r s'); [| exact Hrun].
        eapply reach_step; [exact Hreach |]. now apply (step_outer c).
      + apply (IH init (inner_select l w) s'); [| exact Hrun].
        eapply reach_step; [exact Hreach |]. apply step_inner.
      + injection Hrun as <-. exact Hreach.
      + injection Hrun as <-. exact Hreach.
  Qed.

  (** A verify tick that finds the client PMTU unverified takes exactly 10
      off it and writes the result to the connection, whether or not the
      verification frame can then be built. *)
Lemma tick_decrements (l : Locals E U) (w : World) (r : Task E U * World) :
    outer_select TakeTick l w = Some r ->
    isClientPMTUVerfied w = false ->
    l_clientPMTU (locals (fst r)) = l_clientPMTU l - 10 /\
    clientPMTU (conn (snd r)) = l_clientPMTU l - 10.
  Proof.
    intros Hsel Hunv. unfold outer_select in Hsel.
    destruct (l_pmtuVerifyTick l); [| discriminate].
    rewrite Hunv in Hsel. simpl in Hsel. injection Hsel as <-.
    match goal with
    | |- context [resume _ (updateClientPMTU ?l1 w)] =>
        destruct (resume_state AtOuterSelect (updateClientPMTU l1 w)) as [Hl Hw];
        destruct (updateClientPMTU_writes l1 w) as [Hl' Hw']
    end.
    rewrite Hl, Hw, Hl', Hw'. split; reflexivity.
  Qed.

  (** The recomputation after [FrameTooBigError{p}], whatever follows. *)
Lemma flush_recomputes (l : Locals E U) (w : World) (msg : list byte) (e1 : E)
      (u1 : U) (p : Z) (fr : option ForwardedFrame) :
    Bytes (l_enc l) = (msg, e1) ->
    Send msg (l_udpSender l) = (Some (FrameTooBigError p fr), u1) ->
    let cp := p - UDPOverhead - PacketOverhead e1 - FrameOverhead e1 - EthernetOverhead in
    l_clientPMTU (fst (outcome_state (flush l w))) = cp /\
    clientPMTU (conn (snd (outcome_state (flush l w)))) = cp.
  Proof.
    intros Hb Hsend cp. unfold flush, send_Bytes. rewrite Hb, Hsend.
    match goal with
    | |- context [updateClientPMTU ?l3 w] =>
        destruct (updateClientPMTU_writes l3 w) as [Hl Hw]
    end.
    rewrite Hl, Hw. split; reflexivity.
  Qed.

Lemma flush_panics (l : Locals E U) (w : World) (msg : list byte) (e1 : E)
      (u1 : U) (p : Z) (fr : option ForwardedFrame) :
    Bytes (l_enc l) = (msg, e1) ->
    Send msg (l_udpSender l) = (Some (FrameTooBigError p fr), u1) ->
    p - UDPOverhead - PacketOverhead e1 - FrameOverhead e1 < 0 ->
    exists l' w', flush l w = Panicked (l', w') /\
      l_trace l' = l_trace l ++ [EvSend msg (l_maxPayload l)] /\
      l_pmtuVerifyTick l' = l_pmtuVerifyTick l.
  Proof.
    intros Hb Hsend Hneg. unfold flush, send_Bytes. rewrite Hb, Hsend.
    rewrite updateClientPMTU_panics by (simpl; lia).
    eexists _, _. split; [reflexivity |]. split; reflexivity.
  Qed.

  (** C5, as the code has it.  The client PMTU has no floor.  A verify tick
      that finds it unverified takes exactly 10 off it, so it stays at or
      above [MinPMTU] exactly when it was at or above [MinPMTU + 10]; a
      tick that finds it verified leaves it alone; the recomputation after
      [FrameTooBigError{p}] sets it to [p - UDPOverhead - PacketOverhead -
      FrameOverhead - EthernetOverhead], which is at or above [MinPMTU]
      exactly when [p] is at or above [MinPMTU] plus these overheads; and
      [appendFrame] does not change it. *)
Theorem client_pmtu_has_no_floor (MinPMTU : Z) (l : Locals E U) (w : World) :
    (forall r, outer_select TakeTick l w = Some r ->
       isClientPMTUVerfied w = false ->
       l_clientPMTU (locals (fst r)) = l_clientPMTU l - 10 /\
       clientPMTU (conn (snd r)) = l_clientPMTU l - 10 /\
       (MinPMTU <= clientPMTU (conn (snd r)) <-> MinPMTU + 10 <= l_clientPMTU l)) /\
    (forall r, outer_select TakeTick l w = Some r ->
       isClientPMTUVerfied w = true ->
       l_clientPMTU (locals (fst r)) = l_clientPMTU l /\ snd r = w) /\
    (forall msg e1 u1 p fr,
       Bytes (l_enc l) = (msg, e1) ->
       Send msg (l_udpSender l) = (Some (FrameTooBigError p fr), u1) ->
       let cp := p - UDPOverhead - PacketOverhead e1 - FrameOverhead e1
                 - EthernetOverhead in
       l_clientPMTU (fst (outcome_state (flush l w))) = cp /\
       clientPMTU (conn (snd (outcome_state (flush l w)))) = cp /\
       (MinPMTU <= cp <->
        MinPMTU + UDPOverhead + PacketOverhead e1 + FrameOverhead e1 + EthernetOverhead
        <= p)) /\
    (forall f, l_clientPMTU (snd (appendFrame f l)) = l_clientPMTU l).
  Proof.
    split; [| split; [| split]].
    - intros r Hsel Hunv. destruct (tick_decrements l w r Hsel Hunv) as [Hl Hw].
      rewrite Hl, Hw. repeat split; lia.
    - intros r Hsel Hver. unfold outer_select in Hsel.
      destruct (l_pmtuVerifyTick l); [| discriminate].
      rewrite Hver in Hsel. simpl in Hsel. injection Hsel as <-. split; reflexivity.
    - intros msg e1 u1 p fr Hb Hsend cp.
      destruct (flush_recomputes l w msg e1 u1 p fr Hb Hsend) as [Hl Hw].
      fold cp in Hl, Hw. rewrite Hl, Hw. unfold cp. repeat split; lia.
    - intros f. unfold appendFrame.
      destruct (_ >? _); reflexivity.
  Qed.
End RunFacts.

(** No value of [MinPMTU] is kept as a floor by the verify tick. *)
Lemma client_pmtu_floor_broken :
  ~ exists MinPMTU : Z,
      forall (l : Locals PlainEncryptor ScriptedSender) (w : World) r,
        MinPMTU <= l_clientPMTU l -> MinPMTU <= clientPMTU (conn w) ->
        @outer_select weave_constants _ _ plain_encryptor scripted_sender TakeTick l w
          = Some r ->
        MinPMTU <= clientPMTU (conn (snd r)).
Proof.
  intros [m Hfloor].
  set (l0 := {| l_forwardCh := 1%nat; l_stop := 1%nat;
                l_enc := {| pe_batch := [] |};
                l_udpSender := {| ss_script := [] |};
                l_pmtu := 1400; l_pmtuVerifyTick := true; l_clientPMTU := m;
                l_maxPayload := m + 17; l_trace := [] |}
             : Locals PlainEncryptor ScriptedSender).
  set (w0 := world_ready m false).
  destruct (@outer_select weave_constants _ _ plain_encryptor scripted_sender TakeTick l0 w0)
    as [r |] eqn:Hsel; [| discriminate].
  pose proof (Hfloor l0 w0 r ltac:(simpl; lia) ltac:(simpl; lia) Hsel) as Hkept.
  destruct (@tick_decrements weave_constants _ _ plain_encryptor scripted_sender
              l0 w0 r Hsel eq_refl) as [_ Hw].
  rewrite Hw in Hkept. simpl in Hkept. lia.
Qed.

Lemma client_pmtu_has_no_floor_witness :
  l_clientPMTU (locals (fst (df_state 1))) = 45 /\
  clientPMTU (conn (snd (df_state 1))) = 45.
Proof.
  destruct (@client_pmtu_has_no_floor weave_constants _ _ plain_encryptor scripted_sender
              0 (locals (fst (df_state 0))) (snd (df_state 0))) as (Htick & _).
  destruct (Htick (df_state 1) ltac:(vm_compute; reflexivity) ltac:(reflexivity))
    as (Hl & Hw & _).
  split; [exact Hl | exact Hw].
Defined.

(** The verify tick at a reachable state where it cannot build its frame. *)
Lemma verify_tick_panics :
  exists t w,
    df_run 6 = Some (t, w) /\
    ctl t = AtOuterSelect /\ l_pmtuVerifyTick (locals t) = true /\
    isClientPMTUVerfied w = false /\ l_clientPMTU (locals t) = -5 /\
    exists t' w',
      @outer_select weave_constants _ _ plain_encryptor scripted_sender
        TakeTick (locals t) w = Some (t', w') /\
      ctl t' = Crashed /\
      l_trace (locals t') = l_trace (locals t) /\
      l_pmtuVerifyTick (locals t') = false /\
      l_clientPMTU (locals t') = -15 /\
      clientPMTU (conn w') = -15.
Proof.
  eexists _, _. split; [vm_compute; reflexivity |].
  repeat split.
  eexists _, _. split; [vm_compute; reflexivity |].
  repeat split.
Qed.

Lemma verify_tick_witness :
  exists l' w',
    @outer_select weave_constants _ _ plain_encryptor scripted_sender TakeTick
      (locals (fst (df_state 0))) (snd (df_state 0))
    = Some ({| ctl := AtOuterSelect; locals := l' |}, w') /\
    l_clientPMTU l' = 45 /\ clientPMTU (conn w') = 45.
Proof.
  destruct (@verify_tick weave_constants _ _ plain_encryptor scripted_sender
              (locals (fst (df_state 0))) (snd (df_state 0)) eq_refl) as [Hunv _].
  destruct (Hunv eq_refl ltac:(vm_compute; discriminate))
    as (l' & w' & vf & ds & Hsel & Hl & Hw & _).
  exists l', w'. split; [exact Hsel |]. split; [exact Hl | exact Hw].
Defined.

(** The flush at a path MTU too small for the overheads. *)
Lemma flush_frame_too_big_panics :
  exists l' w',
    @flush weave_constants _ _ plain_encryptor scripted_sender
      locals_pmtu_30 (world_ready 1400 false) = Panicked (l', w') /\
    l_maxPayload l' = 2 /\ l_clientPMTU l' = -15 /\ clientPMTU (conn w') = -15 /\
    l_trace l' = [EvSend (x01 :: be16 50 ++ replicate 50 x00) 1372] /\
    l_pmtuVerifyTick l' = false.
Proof.
  eexists _, _. split; [vm_compute; reflexivity |]. repeat split.
Qed.

Lemma flush_frame_too_big_witness :
  exists l' w',
    @flush weave_constants _ _ plain_encryptor scripted_sender
      (snd (@appendFrame _ _ plain_encryptor frame_50 (locals df_task)))
      (world_ready 1400 false) = Returned tt (l', w') /\
    l_maxPayload l' = 72 /\ l_clientPMTU l' = 55 /\ clientPMTU (conn w') = 55 /\
    l_pmtuVerifyTick l' = true.
Proof.
  destruct (@flush_frame_too_big weave_constants _ _ plain_encryptor scripted_sender
              (snd (@appendFrame _ _ plain_encryptor frame_50 (locals df_task)))
              (world_ready 1400 false)
              (x01 :: be16 50 ++ replicate 50 x00) {| pe_batch := [] |}
              {| ss_script := [] |} 100 None eq_refl eq_refl
              ltac:(vm_compute; discriminate))
    as (l' & w' & vf & ds & Hrun & Hmp & Hcp & Hw & _ & _ & _ & Htick).
  exists l', w'.
  split; [exact Hrun |]. split; [exact Hmp |]. split; [exact Hcp |].
  split; [exact Hw | exact Htick].
Defined.

Lemma datagrams_within_budget_witness :
  sends_within 1 (l_trace (locals (fst (df_state 3)))).
Proof.
  intros msg budget.
  apply (@datagrams_within_budget weave_constants _ _ plain_encryptor scripted_sender
           1%nat 1%nat {| pe_batch := [] |}
           {| ss_script := [Some (FrameTooBigError 100 None)] |} 1400
           world_one_frame (fst (df_state 3)) (snd (df_state 3))
           plain_encryptor_laws).
  - vm_compute. discriminate.
  - apply (run_reachable ([TakeFrame; TakeFrame] ++ replicate 3 TakeTick)
             _ (df_task, world_one_frame)); [apply reach_init |].
    vm_compute. reflexivity.
Defined.

(* ===================================================================== *)
(** * The fragmenter: sizes, headers, reassembly *)
(* ===================================================================== *)

Lemma maxSegmentSize_bounds `{!Constants} (pmtu headerSize : Z) :
  maxSegmentSize pmtu headerSize <= pmtu - EthernetOverhead - headerSize /\
  maxSegmentSize pmtu headerSize `mod` 8 = 0.
Proof.
  rewrite maxSegmentSize_eq.
  pose proof (Z.div_mod (pmtu - EthernetOverhead - headerSize) 8 ltac:(lia)) as Hdm.
  pose proof (Z.mod_pos_bound (pmtu - EthernetOverhead - headerSize) 8 ltac:(lia)) as Hm.
  split; [lia |]. rewrite Z.mul_comm. apply Z.mod_mul. lia.
Qed.

Section SegmentFacts.
  Context `{!Constants}.
  Variables (hs mss psz base orig : Z) (e0 : Ethernet) (i0 : IPv4).

Lemma segments_from_after_last (fuel : nat) (offset : Z) payload e i :
    psz <= offset ->
    segments_from hs mss psz base orig fuel offset payload e i = [].
  Proof.
    intros Hge. destruct fuel; [reflexivity |]. simpl.
    destruct (offset <? psz) eqn:Ho; [lia | reflexivity].
  Qed.

Lemma segments_from_ok (fuel : nat) :
    forall offset payload e i,
      0 <= offset ->
      (offset < psz -> len payload = psz - offset) ->
      loop_inv hs mss e0 i0 e i ->
      Forall (segment_ok hs mss psz e0 i0)
             (segments_from hs mss psz base orig fuel offset payload e i).
  Proof.
    induction fuel as [| fuel IH]; intros offset payload e i Hoff Hlen Hinv; simpl;
      [constructor |].
    destruct (offset <? psz) eqn:Ho; [| constructor].
    apply Z.ltb_lt in Ho. specialize (Hlen Ho).
    destruct Hinv as (Hip & Heth & Hl & Hel).
    unfold next_segment.
    destruct (len payload <=? mss) eqn:Hlast.
    - apply Z.leb_le in Hlast. simpl.
      rewrite segments_from_after_last by lia. constructor; [| constructor].
      unfold segment_ok, fix_eth_Length. simpl.
      destruct Heth as (H1 & H2 & H3). rewrite H3.
      split; [exact Hip |].
      split; [destruct (eth_EthernetType e0 =? EthernetTypeLLC); repeat split; assumption |].
      split; [exact Hlast |]. split; [lia |].
      split; [f_equal; lia |].
      destruct (eth_EthernetType e0 =? EthernetTypeLLC); reflexivity.
    - apply Z.leb_gt in Hlast. unfold split_at.
      destruct (0 <=? mss) eqn:Hm; simpl; [| constructor].
      destruct (mss <=? len payload) eqn:Hm2; [| lia]. simpl.
      assert (Htk : len (take (Z.to_nat mss) payload) = mss).
      { unfold len in *. rewrite length_take. lia. }
      constructor.
      + unfold segment_ok. simpl. rewrite Htk.
        repeat split; try apply Hip; try apply Heth; try lia; assumption.
      + apply IH; [lia | | repeat split; try apply Hip; try apply Heth; assumption].
        intros _. unfold len in *. rewrite length_drop. lia.
  Qed.

Lemma segments_from_concat (fuel : nat) :
    forall offset payload e i,
      0 < mss ->
      (offset < psz -> len payload = psz - offset) ->
      psz - offset <= (Z.of_nat fuel - 1) * mss -> (0 < fuel)%nat ->
      concat (map seg_payload (segments_from hs mss psz base orig fuel offset payload e i))
      = (if offset <? psz then payload else []).
  Proof.
    induction fuel as [| fuel IH]; intros offset payload e i Hmss Hlen Hfuel Hpos; [lia |].
    simpl. destruct (offset <? psz) eqn:Ho; [| reflexivity].
    apply Z.ltb_lt in Ho. specialize (Hlen Ho).
    destruct (fuel_step mss psz _ _ Hfuel Ho) as [Hfuel' Hpos'].
    unfold next_segment.
    destruct (len payload <=? mss) eqn:Hlast.
    - apply Z.leb_le in Hlast. simpl.
      rewrite segments_from_after_last by lia. simpl. apply app_nil_r.
    - apply Z.leb_gt in Hlast. rewrite (split_at_inside mss Hmss) by lia. simpl.
      rewrite IH; [| exact Hmss | intros _; rewrite len_drop by lia; lia
                   | exact Hfuel' | exact Hpos'].
      destruct (offset + mss <? psz) eqn:Hn; [| lia].
      apply take_drop.
  Qed.
End SegmentFacts.

Lemma segments_ok `{!Constants} (fuel : nat) (e : Ethernet) (i : IPv4) (pmtu : Z) :
  Forall (segment_ok (ip_IHL i * 4) (maxSegmentSize pmtu (ip_IHL i * 4))
            (ip_Length i - ip_IHL i * 4) e i)
         (segments fuel e i pmtu).
Proof.
  unfold segments. destruct slice_upto as [payload |] eqn:Hs; [| constructor].
  destruct (slice_upto_len _ _ _ Hs) as [Hlen Hpos].
  apply segments_from_ok; [lia | intros _; lia |].
  unfold loop_inv, fix_eth_Length. simpl.
  split; [repeat split |]. split; [| split; [reflexivity |]].
  - destruct (eth_EthernetType e =? EthernetTypeLLC); repeat split.
  - destruct (eth_EthernetType e =? EthernetTypeLLC) eqn:Ht; simpl; reflexivity.
Qed.

(** X1.  Reassembly: when [fragment] runs to its end, the payloads of the
    segments it serializes, joined in order, are the IP payload it was
    given, cut at [ip.Length]. *)
Theorem fragment_reassembly `{!Constants} (fuel : nat) (e : Ethernet) (i : IPv4)
    (pmtu : Z) (payload : list byte) :
  let headerSize := ip_IHL i * 4 in
  let mss := maxSegmentSize pmtu headerSize in
  let payloadSize := ip_Length i - headerSize in
  slice_upto (ip_Payload i) payloadSize = Some payload ->
  0 < mss ->
  ceil_div payloadSize mss < Z.of_nat fuel ->
  concat (map seg_payload (segments fuel e i pmtu)) = payload.
Proof.
  intros headerSize mss payloadSize Hs Hmss Hfuel.
  destruct (slice_upto_len _ _ _ Hs) as [Hlen Hpos].
  destruct (enough_fuel payloadSize mss fuel Hpos Hmss Hfuel) as [Hf1 Hf2].
  unfold segments. fold headerSize mss payloadSize. rewrite Hs.
  rewrite segments_from_concat; [| exact Hmss | intros _; lia | exact Hf1 | exact Hf2].
  destruct (0 <? payloadSize) eqn:Hp; [reflexivity |].
  apply Z.ltb_ge in Hp. symmetry. apply length_zero_iff_nil. unfold len in Hlen. lia.
Qed.

Lemma fragment_reassembly_witness :
  concat (map seg_payload (@segments weave_constants 4 eth_2500 ip_2500 1000))
  = replicate 2466 xff.
Proof.
  apply (@fragment_reassembly weave_constants 4 eth_2500 ip_2500 1000 (replicate 2466 xff)).
  - reflexivity.
  - vm_compute. reflexivity.
  - vm_compute. reflexivity.
Defined.

(** X2.  Every segment fits: the total length written in its IP header is
    the header size plus the bytes it carries and is at most [pmtu -
    EthernetOverhead]; it carries at least one byte; every segment but the
    last carries exactly [maxSegmentSize] bytes, a multiple of 8; and
    [eth.Length] repeats the IP length on an LLC frame and is 0 on any
    other. *)
Theorem segments_fit_pmtu `{!Constants} (fuel : nat) (e : Ethernet) (i : IPv4)
    (pmtu : Z) (payload : list byte) :
  let headerSize := ip_IHL i * 4 in
  let mss := maxSegmentSize pmtu headerSize in
  let payloadSize := ip_Length i - headerSize in
  let segs := segments fuel e i pmtu in
  decoded_IPv4 i ->
  slice_upto (ip_Payload i) payloadSize = Some payload ->
  0 < mss ->
  ceil_div payloadSize mss < Z.of_nat fuel ->
  forall (k : nat) (seg : Segment),
    segs !! k = Some seg ->
    ip_Length (seg_ip seg) = headerSize + len (seg_payload seg) /\
    ip_Length (seg_ip seg) <= pmtu - EthernetOverhead /\
    0 < len (seg_payload seg) <= mss /\
    (S k <> length segs -> len (seg_payload seg) = mss /\ mss `mod` 8 = 0) /\
    eth_Length (seg_eth seg)
      = (if eth_EthernetType e =? EthernetTypeLLC then ip_Length (seg_ip seg) else 0).
Proof.
  intros headerSize mss payloadSize segs Hdec Hs Hmss Hfuel k seg Hseg.
  destruct (slice_upto_len _ _ _ Hs) as [Hlen Hpos].
  pose proof (segments_ok fuel e i pmtu) as Hok.
  rewrite Forall_lookup in Hok. specialize (Hok k seg Hseg).
  destruct Hok as (_ & _ & Hle & Hle2 & Hl & He).
  fold headerSize mss payloadSize in Hle, Hle2, Hl, He.
  destruct (segments_layout fuel e i pmtu payload Hs Hmss Hfuel) as [Hn Hk].
  fold headerSize mss payloadSize segs in Hn, Hk.
  destruct (Hk k seg Hseg) as (_ & _ & Hp).
  pose proof (index_below_payload payloadSize mss k (length segs) Hmss Hn
                (lookup_lt_Some _ _ _ Hseg)) as Hb.
  destruct (maxSegmentSize_bounds pmtu headerSize) as [Hmax Hmod].
  fold mss in Hmax, Hmod.
  destruct Hdec as (Hihl & Hlength & _).
  assert (Hplen : len (seg_payload seg) = Z.min mss (payloadSize - Z.of_nat k * mss)).
  { rewrite Hp. unfold len in *. rewrite length_take, length_drop. lia. }
  assert (Hnowrap : uint16 (headerSize + len (seg_payload seg))
                    = headerSize + len (seg_payload seg)).
  { unfold uint16. apply Z.mod_small. unfold payloadSize, headerSize in *. lia. }
  rewrite Hnowrap in Hl.
  split; [exact Hl |]. split; [lia |]. split; [lia |]. split; [| exact He].
  intros Hnot. split; [| exact Hmod].
  assert (Hk1 : (S k < length segs)%nat).
  { pose proof (lookup_lt_Some _ _ _ Hseg). lia. }
  pose proof (index_below_payload payloadSize mss (S k) (length segs) Hmss Hn Hk1) as Hb'.
  lia.
Qed.

Lemma segments_fit_pmtu_witness :
  exists seg, @segments weave_constants 4 eth_2500 ip_2500 1000 !! 1%nat = Some seg /\
              ip_Length (seg_ip seg) = 980 /\ len (seg_payload seg) = 960.
Proof.
  destruct (@segments weave_constants 4 eth_2500 ip_2500 1000 !! 1%nat) as [seg |] eqn:Hseg;
    [| vm_compute in Hseg; discriminate].
  exists seg. split; [reflexivity |].
  destruct (@segments_fit_pmtu weave_constants 4 eth_2500 ip_2500 1000 (replicate 2466 xff)
              ltac:(unfold decoded_IPv4; simpl; lia) eq_refl
              ltac:(vm_compute; reflexivity) ltac:(vm_compute; reflexivity)
              1%nat seg Hseg) as (Hl & _ & _ & Hmid & _).
  destruct (Hmid ltac:(vm_compute; lia)) as [Hp _].
  rewrite Hl, Hp. split; reflexivity.
Defined.

(** X3.  The fragmenter assigns only the lengths, the flags and the
    fragment offset: every segment carries the version, header length, TOS,
    identification, TTL, protocol, addresses and options of the IP header
    it was given, and the MAC addresses and type of the Ethernet header. *)
Theorem segments_keep_headers `{!Constants} (fuel : nat) (e : Ethernet) (i : IPv4)
    (pmtu : Z) :
  Forall (fun seg => same_ip_header i (seg_ip seg) /\ same_eth_header e (seg_eth seg))
         (segments fuel e i pmtu).
Proof.
  eapply Forall_impl; [apply segments_ok |].
  intros seg (Hip & Heth & _). split; assumption.
Qed.

Section EmitFacts.
  Context `{!Constants, !LayerSerializer}.
  Variables (hs mss psz base orig : Z) (frame0 : ForwardedFrame).

Lemma fragment_loop_emits (fuel : nat) :
    forall offset payload e i acc,
      let out := fragment_loop hs mss psz base orig frame0 collect fuel offset payload e i acc in
      let segs := segments_from hs mss psz base orig fuel offset payload e i in
      exists new,
        outcome_state out = acc ++ new /\
        Forall2 (emitted_for frame0) (take (length new) segs) new /\
        (forall err st, out = Returned (Some err) st ->
           exists seg, segs !! length new = Some seg /\
             SerializeLayers fragment_opts (seg_eth seg) (seg_ip seg) (seg_payload seg)
             = inl err) /\
        (forall st, out = Returned None st -> length new = length segs).
  Proof.
    induction fuel as [| fuel IH]; intros offset payload e i acc; simpl.
    - exists []. rewrite app_nil_r.
      split; [reflexivity |]. split; [constructor |]. split; intros; discriminate.
    - destruct (offset <? psz).
      + destruct next_segment as [[seg rest] |].
        * destruct SerializeLayers as [err | buf] eqn:Hser.
          -- exists []. simpl. rewrite app_nil_r.
             split; [reflexivity |]. split; [constructor |].
             split; [| intros; discriminate].
             intros err' st Heq. injection Heq as Herr _. subst err'.
             exists seg. split; [reflexivity | exact Hser].
          -- destruct (IH (offset + mss) rest (seg_eth seg) (seg_ip seg)
                          (collect (set_frame buf frame0) acc))
               as (new & Hst & Hall & Herr & Hok).
             exists (set_frame buf frame0 :: new).
             split; [rewrite Hst; unfold collect; now rewrite <- app_assoc |].
             split.
             { simpl. constructor; [| exact Hall].
               split; [exact Hser | split; reflexivity]. }
             split; [exact Herr |].
             intros st Heq. simpl. f_equal. now apply (Hok st).
        * exists []. rewrite app_nil_r.
          split; [reflexivity |]. split; [constructor |]. split; intros; discriminate.
      + exists []. rewrite app_nil_r.
        split; [reflexivity |]. split; [constructor |].
        split; [intros; discriminate | reflexivity].
  Qed.
End EmitFacts.

Lemma fragment_emits `{!Constants, !LayerSerializer} (fuel : nat)
    (e : Ethernet) (i : IPv4) (pmtu : Z) (frame0 : ForwardedFrame) :
  let out := fragment fuel e i pmtu frame0 collect [] in
  let frames := outcome_state out in
  let segs := segments fuel e i pmtu in
  Forall2 (emitted_for frame0) (take (length frames) segs) frames /\
  (forall err st', out = Returned (Some err) st' ->
     exists seg, segs !! length frames = Some seg /\
       SerializeLayers fragment_opts (seg_eth seg) (seg_ip seg) (seg_payload seg) = inl err) /\
  (forall st', out = Returned None st' -> length frames = length segs).
Proof.
  intros out frames segs.
  unfold frames, out, segs, fragment, segments.
  destruct slice_upto as [payload |].
  - match goal with
    | |- context [fragment_loop ?hs ?mss ?psz ?base ?orig _ _ _ ?o ?p ?e1 ?i1 _] =>
        destruct (fragment_loop_emits hs mss psz base orig frame0 fuel o p e1 i1 [])
          as (new & Hst & Hall & Herr & Hok)
    end.
    simpl in Hst. rewrite Hst. split; [exact Hall |]. split; [exact Herr | exact Hok].
  - simpl. split; [constructor |]. split; intros; discriminate.
Qed.

(** X4.  However [fragment] ends (with nil, with the serializer's error,
    with a panic or still running), the frames it has forwarded are, in
    order, the serialized first segments of [segments], each a copy of the
    frame it was given with only the bytes replaced; an error it returns is
    the serializer's error on the next segment, which is not forwarded; and
    when it returns nil every segment has been forwarded. *)
Theorem fragment_emits_prefix `{!Constants, !LayerSerializer} {St : Type} (fuel : nat)
    (e : Ethernet) (i : IPv4) (pmtu : Z) (frame0 : ForwardedFrame)
    (forward : ForwardedFrame -> St -> St) (st : St) :
  let out := fragment fuel e i pmtu frame0 collect [] in
  let frames := outcome_state out in
  let segs := segments fuel e i pmtu in
  outcome_state (fragment fuel e i pmtu frame0 forward st)
    = foldl (fun s f => forward f s) st frames /\
  Forall2 (emitted_for frame0) (take (length frames) segs) frames /\
  (forall err st', out = Returned (Some err) st' ->
     exists seg, segs !! length frames = Some seg /\
       SerializeLayers fragment_opts (seg_eth seg) (seg_ip seg) (seg_payload seg) = inl err) /\
  (forall st', out = Returned None st' -> length frames = length segs).
Proof.
  intros out frames segs. split.
  - rewrite fragment_collect. fold out frames. now destruct out.
  - apply fragment_emits.
Qed.

(** X5.  [fragment] reslices the IP payload to [ip.Length - 4 * ip.IHL]
    without a check: when that is negative or beyond the capacity of the
    payload, [Forward] on its fragmenting path panics after the log line,
    with nothing sent on any channel. *)
Theorem Forward_bad_length_panics `{!Constants, !LayerSerializer} (fuel : nat)
    (f : ForwardedFrame) (d : EthernetDecoder) (w : World) (fwd fwdDF : chan) :
  let payloadSize := ip_Length (ip d) - ip_IHL (ip d) * 4 in
  forwardChan (conn w) = Some fwd ->
  forwardChanDF (conn w) = Some fwdDF ->
  stackFrag (conn w) = false ->
  2 <= len (decoded d) ->
  clientPMTU (conn w) < len (frame f) - EthernetOverhead ->
  payloadSize < 0 \/
    len (s_elems (ip_Payload (ip d))) + len (s_spare (ip_Payload (ip d))) < payloadSize ->
  Forward fuel false f (Some d) w
  = Panicked (log_entry (LogFragmenting (frame f) (eth d)) w).
Proof.
  intros payloadSize Hfwd HfwdDF Hs Hn Hgt Hbad.
  rewrite (Forward_fragment_path fuel f d w fwd fwdDF) by assumption.
  unfold fragment. fold payloadSize.
  assert (Hnone : slice_upto (ip_Payload (ip d)) payloadSize = None).
  { unfold slice_upto. rewrite len_app.
    destruct (0 <=? payloadSize) eqn:Hlo; [| reflexivity].
    destruct (payloadSize <=? _) eqn:Hhi; [| reflexivity].
    apply Z.leb_le in Hlo, Hhi. lia. }
  rewrite Hnone. reflexivity.
Qed.

Lemma Forward_bad_length_panics_witness :
  @Forward weave_constants wire_serializer 4 false frame_2500 (Some dec_short)
    (world_ready 1000 false)
  = Panicked (log_entry (LogFragmenting (frame frame_2500) eth_2500) (world_ready 1000 false)).
Proof.
  apply (@Forward_bad_length_panics weave_constants wire_serializer 4 frame_2500 dec_short
           (world_ready 1000 false) 0%nat 1%nat).
  - reflexivity.
  - reflexivity.
  - reflexivity.
  - vm_compute. discriminate.
  - vm_compute. reflexivity.
  - left. vm_compute. reflexivity.
Defined.

(* ===================================================================== *)
(** * The dispatcher: what [Forward] does to the connection *)
(* ===================================================================== *)

Lemma outcome_state_map {R S T : Type} (g : S -> T) (o : Outcome R S) :
  outcome_state (outcome_map g o) = g (outcome_state o).
Proof. now destruct o. Qed.

Lemma fragment_chan_send `{!Constants, !LayerSerializer} (fuel : nat) (e : Ethernet)
    (i : IPv4) (pmtu : Z) (f : ForwardedFrame) (c : chan) (w0 : World) :
  outcome_state (fragment fuel e i pmtu f (chan_send c) w0)
  = enqueue_all c w0 (outcome_state (fragment fuel e i pmtu f collect [])).
Proof. rewrite fragment_collect. apply outcome_state_map. Qed.

Lemma queue_log_entry (c : chan) (x : LogEntry) (w : World) :
  queue c (log_entry x w) = queue c w.
Proof. reflexivity. Qed.

(** What [Forward] ends in: the world it was given, with at most one log
    entry added and then frames sent on one of the two channels. *)
Lemma Forward_as_enqueue `{!Constants, !LayerSerializer} (fuel : nat) (df : bool)
    (f : ForwardedFrame) (dec : option EthernetDecoder) (w : World) :
  exists (logs : list LogEntry) (c : chan) (frames : list ForwardedFrame),
    outcome_state (Forward fuel df f dec w)
    = enqueue_all c
        {| conn := conn w; frameChans := frameChans w; stopChans := stopChans w;
           logged := logged w ++ logs |} frames /\
    (frames <> [] -> forwardChan (conn w) = Some c \/ forwardChanDF (conn w) = Some c).
Proof.
  assert (Hsame : forall w0 : World,
            w0 = {| conn := conn w0; frameChans := frameChans w0;
                    stopChans := stopChans w0; logged := logged w0 ++ [] |}).
  { intros [c0 fc sc lg]. simpl. now rewrite app_nil_r. }
  unfold Forward.
  destruct (forwardChan (conn w)) as [fwd |] eqn:Hfwd;
    [destruct (forwardChanDF (conn w)) as [fwdDF |] eqn:HfwdDF |].
  - destruct df.
    + destruct (fits f (clientPMTU (conn w))).
      * exists [], fwdDF, [f]. split; [simpl; now rewrite <- Hsame | auto].
      * exists [], fwdDF, []. split; [simpl; apply Hsame | congruence].
    + destruct (stackFrag (conn w) || undecoded dec) eqn:Hplain.
      * exists [], fwd, [f]. split; [simpl; now rewrite <- Hsame | auto].
      * destruct (fits f (clientPMTU (conn w))).
        -- exists [], fwdDF, [f]. split; [simpl; now rewrite <- Hsame | auto].
        -- destruct dec as [d |].
           ++ exists [LogFragmenting (frame f) (eth d)], fwdDF,
                (outcome_state (fragment fuel (eth d) (ip d) (clientPMTU (conn w)) f collect [])).
              split; [apply fragment_chan_send | auto].
           ++ exists [], fwdDF, []. split; [simpl; apply Hsame | congruence].
  - exists [LogAwaitingContact], 0%nat, []. split; [reflexivity | congruence].
  - exists [LogAwaitingContact], 0%nat, []. split; [reflexivity | congruence].
Qed.

(** X6.  [Forward] only ever appends: however it ends, the connection
    record and the stop channels are as before, the log and every frame
    queue keep what they held as a prefix, and a queue that is neither of
    the two forward channels is untouched. *)
Theorem Forward_only_appends `{!Constants, !LayerSerializer} (fuel : nat) (df : bool)
    (f : ForwardedFrame) (dec : option EthernetDecoder) (w : World) :
  let w' := outcome_state (Forward fuel df f dec w) in
  conn w' = conn w /\ stopChans w' = stopChans w /\
  logged w `prefix_of` logged w' /\
  (forall c, queue c w `prefix_of` queue c w') /\
  (forall c, forwardChan (conn w) <> Some c -> forwardChanDF (conn w) <> Some c ->
             queue c w' = queue c w).
Proof.
  intros w'. unfold w'.
  destruct (Forward_as_enqueue fuel df f dec w) as (logs & c & frames & Hw' & Hc).
  rewrite Hw'.
  match goal with
  | |- context [enqueue_all c ?w0 frames] =>
      destruct (enqueue_all_queue c frames w0) as (Hq & Hne & Hconn & Hstop & Hlog)
  end.
  rewrite Hconn, Hstop, Hlog. simpl.
  split; [reflexivity |]. split; [reflexivity |].
  split; [now exists logs |]. split.
  - intros c'. destruct (decide (c = c')) as [<- | Hcc].
    + rewrite Hq. now exists frames.
    + rewrite (Hne c' Hcc). reflexivity.
  - intros c' H1 H2. destruct (decide (c = c')) as [<- | Hcc].
    + rewrite Hq. destruct frames as [| g frames]; [now rewrite app_nil_r |].
      destruct (Hc ltac:(discriminate)); contradiction.
    + now rewrite (Hne c' Hcc).
Qed.

(** The frames [Forward] sends on each of its two channels. *)
Lemma Forward_sends `{!Constants, !LayerSerializer} (fuel : nat) (df : bool)
    (f : ForwardedFrame) (dec : option EthernetDecoder) (w : World) (fwd fwdDF : chan) :
  forwardChan (conn w) = Some fwd ->
  forwardChanDF (conn w) = Some fwdDF ->
  let pmtu := clientPMTU (conn w) in
  let plain := if negb df && (stackFrag (conn w) || undecoded dec) then [f] else [] in
  exists (logs : list LogEntry) (dfs : list ForwardedFrame),
    outcome_state (Forward fuel df f dec w)
    = enqueue_all fwdDF
        (enqueue_all fwd
           {| conn := conn w; frameChans := frameChans w; stopChans := stopChans w;
              logged := logged w ++ logs |} plain) dfs /\
    (dfs = [] \/ (dfs = [f] /\ fits f pmtu = true) \/
     exists d, dec = Some d /\ df = false /\ fits f pmtu = false /\
               dfs = outcome_state (fragment fuel (eth d) (ip d) pmtu f collect [])).
Proof.
  intros Hfwd HfwdDF pmtu plain.
  assert (Hsame : forall w0 : World,
            w0 = {| conn := conn w0; frameChans := frameChans w0;
                    stopChans := stopChans w0; logged := logged w0 ++ [] |}).
  { intros [c0 fc sc lg]. simpl. now rewrite app_nil_r. }
  unfold plain, Forward. rewrite Hfwd, HfwdDF. fold pmtu.
  destruct df; simpl.
  - destruct (fits f pmtu) eqn:Hfits.
    + exists [], [f]. split; [simpl; now rewrite <- Hsame | auto].
    + exists [], []. split; [simpl; apply Hsame | auto].
  - destruct (stackFrag (conn w) || undecoded dec) eqn:Hplain.
    + exists [], []. split; [simpl; now rewrite <- Hsame | auto].
    + destruct (fits f pmtu) eqn:Hfits.
      * exists [], [f]. split; [simpl; now rewrite <- Hsame | auto].
      * destruct dec as [d |].
        -- exists [LogFragmenting (frame f) (eth d)],
             (outcome_state (fragment fuel (eth d) (ip d) pmtu f collect [])).
           split; [apply fragment_chan_send |].
           right. right. exists d. auto.
        -- exists [], []. split; [simpl; apply Hsame | auto].
Qed.

(** X7.  The channel of the fragmenting pipeline receives the frame itself
    and nothing else, and only for [df = false] on a connection whose stack
    fragments or for a frame that was not decoded as far as IP. *)
Theorem Forward_plain_queue `{!Constants, !LayerSerializer} (fuel : nat) (df : bool)
    (f : ForwardedFrame) (dec : option EthernetDecoder) (w : World) (fwd fwdDF : chan) :
  forwardChan (conn w) = Some fwd ->
  forwardChanDF (conn w) = Some fwdDF ->
  fwd <> fwdDF ->
  queue fwd (outcome_state (Forward fuel df f dec w))
  = queue fwd w ++ (if negb df && (stackFrag (conn w) || undecoded dec) then [f] else []).
Proof.
  intros Hfwd HfwdDF Hne.
  destruct (Forward_sends fuel df f dec w fwd fwdDF Hfwd HfwdDF) as (logs & dfs & Hw' & _).
  rewrite Hw'.
  match goal with
  | |- context [enqueue_all fwdDF ?w1 dfs] =>
      destruct (enqueue_all_queue fwdDF dfs w1) as (_ & Hq & _)
  end.
  rewrite (Hq fwd) by congruence.
  match goal with
  | |- context [enqueue_all fwd ?w0 ?plain] =>
      destruct (enqueue_all_queue fwd plain w0) as (Hq' & _)
  end.
  rewrite Hq'. reflexivity.
Qed.

Lemma Forward_plain_queue_witness :
  queue 0%nat (outcome_state (@Forward weave_constants wire_serializer 4 false frame_2500
                                (Some dec_2500) (world_ready 1000 true)))
  = queue 0%nat (world_ready 1000 true) ++ [frame_2500].
Proof.
  apply (@Forward_plain_queue weave_constants wire_serializer 4 false frame_2500
           (Some dec_2500) (world_ready 1000 true) 0%nat 1%nat);
    [reflexivity | reflexivity | discriminate].
Defined.

Lemma fragment_frames_fit `{!Constants, !LayerSerializer} (fuel : nat) (e : Ethernet)
    (i : IPv4) (pmtu : Z) (f : ForwardedFrame) :
  Forall writes_all (segments fuel e i pmtu) ->
  Forall (fun g => len (frame g) <= pmtu)
         (outcome_state (fragment fuel e i pmtu f collect [])).
Proof.
  intros Hw.
  destruct (fragment_emits fuel e i pmtu f) as [Hall _].
  pose proof (segments_ok fuel e i pmtu) as Hok.
  destruct (maxSegmentSize_bounds pmtu (ip_IHL i * 4)) as [Hmax _].
  apply Forall_lookup. intros k g Hg.
  destruct (Forall2_lookup_r _ _ _ _ _ Hall Hg) as (seg & Hseg & Hser & _).
  apply lookup_take_Some in Hseg as [Hseg _].
  rewrite Forall_lookup in Hw, Hok.
  specialize (Hw k seg Hseg (frame g) Hser).
  destruct (Hok k seg Hseg) as ((_ & Hihl & _) & _ & Hle & _).
  rewrite Hw, Hihl. lia.
Qed.

(** X8.  Whatever [Forward] sends on the DF channel fits the client PMTU:
    the frame itself when its length less [EthernetOverhead] is within the
    client PMTU, or else fragments, each of which the serializer writes as
    [EthernetOverhead] bytes, the IP header and at most [maxSegmentSize]
    bytes of payload. *)
Theorem Forward_df_queue_fits `{!Constants, !LayerSerializer} (fuel : nat) (df : bool)
    (f : ForwardedFrame) (dec : option EthernetDecoder) (w : World) (fwd fwdDF : chan) :
  let pmtu := clientPMTU (conn w) in
  0 <= EthernetOverhead ->
  forwardChan (conn w) = Some fwd ->
  forwardChanDF (conn w) = Some fwdDF ->
  fwd <> fwdDF ->
  (forall d, dec = Some d -> Forall writes_all (segments fuel (eth d) (ip d) pmtu)) ->
  exists new,
    queue fwdDF (outcome_state (Forward fuel df f dec w)) = queue fwdDF w ++ new /\
    Forall (fun g => fits g pmtu = true) new.
Proof.
  intros pmtu Heo Hfwd HfwdDF Hne Hser.
  destruct (Forward_sends fuel df f dec w fwd fwdDF Hfwd HfwdDF) as (logs & dfs & Hw' & Hdfs).
  exists dfs. rewrite Hw'.
  match goal with
  | |- context [enqueue_all fwdDF ?w1 dfs] =>
      destruct (enqueue_all_queue fwdDF dfs w1) as (Hq & _)
  end.
  rewrite Hq.
  match goal with
  | |- context [enqueue_all fwd ?w0 ?plain] =>
      destruct (enqueue_all_queue fwd plain w0) as (_ & Hq' & _)
  end.
  rewrite (Hq' fwdDF Hne). split; [reflexivity |].
  fold pmtu in Hdfs.
  destruct Hdfs as [-> | [[-> Hfits] | (d & Hd & _ & _ & ->)]].
  - constructor.
  - constructor; [exact Hfits | constructor].
  - eapply Forall_impl; [apply (fragment_frames_fit fuel (eth d) (ip d) pmtu f (Hser d Hd)) |].
    intros g Hg. simpl in Hg. apply fits_true. unfold pmtu in *. lia.
Qed.

Lemma wire_writes_all (seg : Segment) :
  len (eth_DstMAC (seg_eth seg)) = 6 -> len (eth_SrcMAC (seg_eth seg)) = 6 ->
  ip_IHL (seg_ip seg) = 5 ->
  len (ip_SrcIP (seg_ip seg)) = 4 -> len (ip_DstIP (seg_ip seg)) = 4 ->
  @writes_all weave_constants wire_serializer seg.
Proof.
  intros Hd Hs Hihl Hsrc Hdst buf.
  unfold SerializeLayers, wire_serializer.
  destruct (ip_Options (seg_ip seg)); [| discriminate].
  intros Heq. injection Heq as <-.
  rewrite Hihl. change (@EthernetOverhead weave_constants) with 14.
  unfold len in *. repeat (rewrite length_app || rewrite length_cons). lia.
Qed.

Lemma Forward_df_queue_fits_witness :
  exists new,
    queue 1%nat (outcome_state (@Forward weave_constants wire_serializer 4 false frame_2500
                                  (Some dec_2500) (world_ready 1000 false)))
    = queue 1%nat (world_ready 1000 false) ++ new /\
    Forall (fun g => @fits weave_constants g 1000 = true) new.
Proof.
  apply (@Forward_df_queue_fits weave_constants wire_serializer 4 false frame_2500
           (Some dec_2500) (world_ready 1000 false) 0%nat 1%nat).
  - vm_compute. discriminate.
  - reflexivity.
  - reflexivity.
  - discriminate.
  - intros d Hd. injection Hd as <-.
    eapply Forall_impl; [apply (@segments_ok weave_constants) |].
    intros seg ((_ & Hihl & _ & _ & _ & _ & Hsrc & Hdst & _) & (Hsm & Hdm & _) & _).
    apply wire_writes_all.
    + rewrite Hdm. reflexivity.
    + rewrite Hsm. reflexivity.
    + rewrite Hihl. reflexivity.
    + rewrite Hsrc. reflexivity.
    + rewrite Hdst. reflexivity.
Defined.

(* ===================================================================== *)
(** * The pipeline task: batches *)
(* ===================================================================== *)

Lemma sent_last_batch_sent (tr : list IOEvent) : sent_last tr -> batch_sent tr.
Proof.
  intros (tr' & msg & b & ->). unfold batch_sent. now rewrite last_snoc.
Qed.

Section BatchFacts.
  Context `{!Constants} {E U : Type} `{!Encryptor E, !UDPSender U}.
  Implicit Types (l : Locals E U) (w : World).

Lemma send_Bytes_trace l :
    l_trace (snd (send_Bytes l))
    = l_trace l ++ [EvSend (fst (Bytes (l_enc l))) (l_maxPayload l)].
  Proof.
    unfold send_Bytes. destruct (Bytes (l_enc l)) as [msg e1].
    destruct (Send msg (l_udpSender l)) as [err u1]. reflexivity.
  Qed.

Lemma updateClientPMTU_sent_last l w r l' w' :
    updateClientPMTU l w = Returned r (l', w') -> sent_last (l_trace l').
  Proof.
    unfold updateClientPMTU. destruct make_bytes as [b |]; [| discriminate].
    intros Heq.
    match type of Heq with
    | Returned _ (set_pmtuVerifyTick true (Nat.iter 10 (verify_once ?vf) l), _) = _ =>
        assert (Hl' : l' = set_pmtuVerifyTick true (verify_once vf (Nat.iter 9 (verify_once vf) l)))
          by (change (Nat.iter 10 (verify_once vf) l)
                with (verify_once vf (Nat.iter 9 (verify_once vf) l)) in Heq; congruence);
        destruct (verify_once_frame vf (Nat.iter 9 (verify_once vf) l)) as [_ (d & Hd)];
        remember (Nat.iter 9 (verify_once vf) l) as l9 eqn:Hl9; clear Hl9 Heq;
        subst l'; exists (l_trace l9 ++ [EvAppendFrame vf]), d, (l_maxPayload l9)
    end.
    unfold set_pmtuVerifyTick. cbn [l_trace]. rewrite Hd. now rewrite <- app_assoc.
  Qed.

Lemma flush_sent_last l w r l' w' :
    flush l w = Returned r (l', w') -> sent_last (l_trace l').
  Proof.
    unfold flush. pose proof (send_Bytes_trace l) as Htr.
    destruct (send_Bytes l) as [err l1]. simpl in Htr.
    assert (Hl1 : sent_last (l_trace l1)) by (rewrite Htr; unfold sent_last; eauto).
    destruct err as [[p fr | n | m] |].
    - apply updateClientPMTU_sent_last.
    - destruct (PosixError (PosixErrno n) =? ENOBUFS); intros Heq; injection Heq as _ <- _;
        exact Hl1.
    - destruct (PosixError (OtherError m) =? ENOBUFS); intros Heq; injection Heq as _ <- _;
        exact Hl1.
    - intros Heq. injection Heq as _ <- _. exact Hl1.
  Qed.

Lemma appendFrame_refused f l l' : appendFrame f l = (false, l') -> l' = l.
  Proof.
    unfold appendFrame. destruct (_ >? _); intros Heq; now injection Heq.
  Qed.

Lemma resume_outer_flushed (o : Outcome unit (Locals E U * World)) :
    (forall r l' w', o = Returned r (l', w') -> sent_last (l_trace l')) ->
    waits_flushed (fst (resume AtOuterSelect o)).
  Proof.
    intros Ho. destruct o as [r [l' w'] | [l' w'] | [l' w'] | [l' w']]; simpl;
      try exact I.
    apply sent_last_batch_sent. now apply (Ho r l' w').
  Qed.

Lemma outer_select_flushed (c : Choice) l w r :
    batch_sent (l_trace l) -> outer_select c l w = Some r -> waits_flushed (fst r).
  Proof.
    intros Hb. unfold outer_select. destruct c.
    - destruct (stopChans w !!! l_stop l); [discriminate |].
      intros Heq. injection Heq as <-. exact Hb.
    - destruct (l_pmtuVerifyTick l); [| discriminate].
      destruct (negb (isClientPMTUVerfied w)); intros Heq; injection Heq as <-.
      + apply resume_outer_flushed. intros r0 l' w'. apply updateClientPMTU_sent_last.
      + exact Hb.
    - destruct (queue (l_forwardCh l) w) as [| f q]; [discriminate |].
      destruct (appendFrame f l) as [[] l1] eqn:Happ; intros Heq; injection Heq as <-.
      + exact I.
      + apply appendFrame_refused in Happ. subst l1. exact Hb.
  Qed.

Lemma inner_select_flushed l w : waits_flushed (fst (inner_select l w)).
  Proof.
    unfold inner_select. destruct (queue (l_forwardCh l) w) as [| f q].
    - apply resume_outer_flushed. intros r l' w'. apply flush_sent_last.
    - destruct (appendFrame f l) as [[] l1] eqn:Happ; [exact I |].
      destruct (flush l1 _) as [r [l2 w2] | [l2 w2] | [l2 w2] | [l2 w2]] eqn:Hfl;
        try exact I.
      destruct (appendFrame f l2) as [[] l3] eqn:Happ2; [exact I |].
      apply appendFrame_refused in Happ2. subst l3.
      apply sent_last_batch_sent. exact (flush_sent_last _ _ _ _ _ Hfl).
  Qed.

Lemma task_step_flushed (s s' : Task E U * World) :
    task_step s s' -> waits_flushed (fst s) -> waits_flushed (fst s').
  Proof.
    intros Hstep Hinv. destruct Hstep as [c l w r Hsel | l w | t w w'].
    - exact (outer_select_flushed c l w r Hinv Hsel).
    - apply inner_select_flushed.
    - exact Hinv.
  Qed.

Lemma reachable_flushed (init s : Task E U * World) :
    reachable init s -> waits_flushed (fst init) -> waits_flushed (fst s).
  Proof.
    intros Hreach Hinit. induction Hreach as [| s s' _ IH Hstep]; [exact Hinit |].
    exact (task_step_flushed s s' Hstep IH).
  Qed.
End BatchFacts.

(** X9.  The task never waits with a frame appended and not sent: in every
    state it reaches, interleaved with whatever the rest of the program does
    to the connection, when it stands at the outer [select] or has returned,
    the last call it made on its encryptor or sender was not an
    [AppendFrame]. *)
Theorem batch_sent_before_waiting `{!Constants} {E U : Type}
    `{!Encryptor E, !UDPSender U} (forwardCh stop : chan) (e : E) (u : U) (pmtu : Z)
    (w0 : World) (t : Task E U) (w : World) :
  reachable (forwarderLoop forwardCh stop e u pmtu, w0) (t, w) ->
  ctl t = AtOuterSelect \/ ctl t = Exited ->
  batch_sent (l_trace (locals t)).
Proof.
  intros Hreach Hctl.
  pose proof (reachable_flushed _ _ Hreach I) as Hinv.
  unfold waits_flushed in Hinv. simpl in Hinv.
  destruct Hctl as [Hc | Hc]; rewrite Hc in Hinv; exact Hinv.
Qed.

Lemma batch_sent_before_waiting_witness :
  batch_sent (l_trace (locals (fst (df_state 0)))).
Proof.
  apply (@batch_sent_before_waiting weave_constants _ _ plain_encryptor scripted_sender
           1%nat 1%nat {| pe_batch := [] |}
           {| ss_script := [Some (FrameTooBigError 100 None)] |} 1400
           world_one_frame (fst (df_state 0)) (snd (df_state 0))).
  - apply (run_reachable [TakeFrame; TakeFrame] _ (df_task, world_one_frame));
      [apply reach_init |].
    vm_compute. reflexivity.
  - left. reflexivity.
Defined.

Section CoalesceFacts.
  Context `{!Constants} {E U : Type} `{!Encryptor E, !UDPSender U}.
  Context `{!EncryptorLaws E}.
  Implicit Types (l : Locals E U) (w : World).

Lemma chan_pop_pop (c : chan) (q q' : list ForwardedFrame) w :
    chan_pop c q (chan_pop c q' w) = chan_pop c q w.
  Proof. unfold chan_pop, set_frameChans. simpl. now rewrite insert_insert_eq. Qed.

Lemma queue_chan_pop (c : chan) (q : list ForwardedFrame) w :
    queue c (chan_pop c q w) = q.
  Proof. unfold queue, chan_pop. simpl. now rewrite lookup_total_insert_eq. Qed.

Lemma appendFrame_fits f l :
    TotalLen (l_enc l) + FrameOverhead (l_enc l) + len (frame f) <= l_maxPayload l ->
    appendFrame f l = (true, enc_AppendFrame f l).
  Proof.
    intros Hfit. unfold appendFrame.
    destruct (_ >? _) eqn:Hgt; [| reflexivity]. apply Z.gtb_lt in Hgt. lia.
  Qed.

Lemma enc_AppendFrame_grows f l :
    TotalLen (l_enc (enc_AppendFrame f l))
      = TotalLen (l_enc l) + FrameOverhead (l_enc l) + len (frame f) /\
    FrameOverhead (l_enc (enc_AppendFrame f l)) = FrameOverhead (l_enc l) /\
    l_maxPayload (enc_AppendFrame f l) = l_maxPayload l /\
    l_forwardCh (enc_AppendFrame f l) = l_forwardCh l.
  Proof.
    unfold enc_AppendFrame. simpl.
    split; [apply law_append_total |]. split; [apply law_append_overheads |].
    split; reflexivity.
  Qed.

Lemma append_all_trace (fs : list ForwardedFrame) :
    forall l, l_trace (append_all fs l) = l_trace l ++ map EvAppendFrame fs.
  Proof.
    unfold append_all.
    induction fs as [| f fs IH]; intros l; simpl; [now rewrite app_nil_r |].
    rewrite IH. simpl. now rewrite <- app_assoc.
  Qed.

Lemma batch_growth_nonneg (fo : Z) (fs : list ForwardedFrame) :
    0 <= fo -> 0 <= batch_growth fo fs.
  Proof.
    intros Hfo. induction fs as [| f fs IH]; simpl; [lia |].
    pose proof (len_nonneg (frame f)). lia.
  Qed.

Lemma inner_select_coalesces (fs : list ForwardedFrame) :
    forall l w,
      0 <= FrameOverhead (l_enc l) ->
      TotalLen (l_enc l) + batch_growth (FrameOverhead (l_enc l)) fs <= l_maxPayload l ->
      run (replicate (S (length fs)) TakeFrame)
          ({| ctl := AtInnerSelect; locals := l |}, chan_pop (l_forwardCh l) fs w)
      = Some (resume AtOuterSelect
                (flush (append_all fs l) (chan_pop (l_forwardCh l) [] w))).
  Proof.
    induction fs as [| f fs IH]; intros l w Hfo Hfit.
    - simpl. unfold inner_select. rewrite queue_chan_pop. reflexivity.
    - change (replicate (S (length (f :: fs))) TakeFrame)
        with (TakeFrame :: replicate (S (length fs)) TakeFrame).
      destruct (enc_AppendFrame_grows f l) as (Htot & Hfo' & Hmp & Hch).
      simpl in Hfit.
      pose proof (batch_growth_nonneg (FrameOverhead (l_enc l)) fs Hfo) as Hge.
      assert (Hstep : inner_select l (chan_pop (l_forwardCh l) (f :: fs) w)
                      = ({| ctl := AtInnerSelect; locals := enc_AppendFrame f l |},
                         chan_pop (l_forwardCh l) fs w)).
      { unfold inner_select. rewrite queue_chan_pop, chan_pop_pop.
        rewrite appendFrame_fits by lia. reflexivity. }
      change (run (TakeFrame :: ?cs) ({| ctl := AtInnerSelect; locals := l |}, ?w0))
        with (run cs (inner_select l w0)).
      rewrite Hstep. rewrite <- Hch.
      rewrite IH; [reflexivity | now rewrite Hfo' | rewrite Htot, Hfo', Hmp; lia].
  Qed.

Lemma outer_select_coalesces l w (f : ForwardedFrame) (fs : list ForwardedFrame) :
    0 <= FrameOverhead (l_enc l) ->
    queue (l_forwardCh l) w = f :: fs ->
    TotalLen (l_enc l) + batch_growth (FrameOverhead (l_enc l)) (f :: fs) <= l_maxPayload l ->
    run (replicate (S (S (length fs))) TakeFrame) ({| ctl := AtOuterSelect; locals := l |}, w)
    = Some (resume AtOuterSelect
              (flush (append_all (f :: fs) l) (chan_pop (l_forwardCh l) [] w))).
  Proof.
    intros Hfo Hq Hfit.
    change (replicate (S (S (length fs))) TakeFrame)
      with (TakeFrame :: replicate (S (length fs)) TakeFrame).
    destruct (enc_AppendFrame_grows f l) as (Htot & Hfo' & Hmp & Hch).
    simpl in Hfit.
    pose proof (batch_growth_nonneg (FrameOverhead (l_enc l)) fs Hfo) as Hge.
    assert (Hstep : outer_select TakeFrame l w
                    = Some ({| ctl := AtInnerSelect; locals := enc_AppendFrame f l |},
                            chan_pop (l_forwardCh l) fs w)).
    { unfold outer_select. rewrite Hq. rewrite appendFrame_fits by lia. reflexivity. }
    change (run (TakeFrame :: ?cs) ({| ctl := AtOuterSelect; locals := l |}, w))
      with (match outer_select TakeFrame l w with
            | Some s' => run cs s'
            | None => None
            end).
    rewrite Hstep. rewrite <- Hch.
    rewrite inner_select_coalesces;
      [reflexivity | now rewrite Hfo' | rewrite Htot, Hfo', Hmp; lia].
  Qed.
End CoalesceFacts.

(** X10.  Frames that wait together leave together: when the frames on the
    forward channel all fit the budget on top of what the batch holds, the
    task takes them in the order they were sent, appends each with no send
    in between, and only when the channel is empty flushes them in one
    datagram. *)
Theorem frames_coalesce `{!Constants} {E U : Type} `{!Encryptor E, !UDPSender U}
    (l : Locals E U) (w : World) (f : ForwardedFrame) (fs : list ForwardedFrame) :
  EncryptorLaws E ->
  0 <= FrameOverhead (l_enc l) ->
  queue (l_forwardCh l) w = f :: fs ->
  TotalLen (l_enc l) + batch_growth (FrameOverhead (l_enc l)) (f :: fs) <= l_maxPayload l ->
  run (replicate (S (S (length fs))) TakeFrame) ({| ctl := AtOuterSelect; locals := l |}, w)
  = Some (resume AtOuterSelect
            (flush (append_all (f :: fs) l) (chan_pop (l_forwardCh l) [] w))) /\
  l_trace (append_all (f :: fs) l) = l_trace l ++ map EvAppendFrame (f :: fs).
Proof.
  intros Hlaws Hfo Hq Hfit. split.
  - now apply outer_select_coalesces.
  - apply append_all_trace.
Qed.

Lemma frames_coalesce_witness :
  l_trace (locals (fst (default (df_task, world_two_frames)
     (@run weave_constants _ _ plain_encryptor scripted_sender
        (replicate 3 TakeFrame) (df_task, world_two_frames)))))
  = [EvAppendFrame frame_50; EvAppendFrame frame_50;
     EvSend (x01 :: (be16 50 ++ replicate 50 x00) ++ be16 50 ++ replicate 50 x00) 1372]
    ++ verify_events {| srcPeer := 1%N; dstPeer := 2%N; frame := replicate 69 x00 |} 72
         (replicate 10 (x01 :: be16 69 ++ replicate 69 x00)).
Proof.
  destruct (@frames_coalesce weave_constants _ _ plain_encryptor scripted_sender
              (locals df_task) world_two_frames frame_50 [frame_50]
              plain_encryptor_laws ltac:(vm_compute; discriminate) eq_refl
              ltac:(vm_compute; discriminate)) as [Hrun _].
  change (replicate 3 TakeFrame) with (replicate (S (S (length [frame_50]))) TakeFrame).
  change df_task with {| ctl := AtOuterSelect; locals := locals df_task |} at 2.
  rewrite Hrun. vm_compute. reflexivity.
Defined.

(* ===================================================================== *)
(** * The pipeline task: receives and send errors *)
(* ===================================================================== *)

Section ReceiveFacts.
  Context `{!Constants} {E U : Type} `{!Encryptor E, !UDPSender U}.
  Implicit Types (l : Locals E U) (w : World).

Lemma updateClientPMTU_frame l w :
    closure_frame (l, w) (outcome_state (updateClientPMTU l w)).
  Proof.
    unfold updateClientPMTU. destruct make_bytes as [b |].
    - match goal with
      | |- context [Nat.iter 10 (verify_once ?vf) l] =>
          destruct (iter_verify_once vf 10 l) as [(Hc & Hs & Hp & _) (ds & _ & Htr)];
          remember (Nat.iter 10 (verify_once vf) l) as l10 eqn:Hl10; clear Hl10
      end.
      unfold closure_frame. simpl.
      repeat (split; [first [reflexivity | assumption] |]). eauto.
    - unfold closure_frame. simpl.
      repeat (split; [reflexivity |]). exists []. now rewrite app_nil_r.
  Qed.

Lemma flush_frame l w : closure_frame (l, w) (outcome_state (flush l w)).
  Proof.
    unfold flush, send_Bytes.
    destruct (Bytes (l_enc l)) as [msg e1]. destruct (Send msg (l_udpSender l)) as [err u1].
    assert (Hplain : forall w', frameChans w' = frameChans w -> logged w' = logged w ->
              stopChans w' = stopChans w ->
              closure_frame (l, w)
                (set_udpSender u1 (set_enc e1 (record (EvSend msg (l_maxPayload l)) l)), w')).
    { intros w' H1 H2 H3. unfold closure_frame. simpl.
      repeat (split; [first [reflexivity | assumption] |]). eauto. }
    destruct err as [[p fr | n | m] |].
    - match goal with
      | |- context [updateClientPMTU ?l3 w] =>
          destruct (updateClientPMTU_frame l3 w) as (H1 & H2 & H3 & H4 & H5 & H6 & tr & Htr)
      end.
      unfold closure_frame. simpl in *.
      repeat (split; [assumption |]).
      exists ([EvSend msg (l_maxPayload l)] ++ tr). rewrite Htr. now rewrite <- app_assoc.
    - destruct (PosixError (PosixErrno n) =? ENOBUFS); simpl; now apply Hplain.
    - destruct (PosixError (OtherError m) =? ENOBUFS); simpl; now apply Hplain.
    - simpl. now apply Hplain.
  Qed.

Lemma appendFrame_cases f l :
    (appendFrame f l = (true, enc_AppendFrame f l) /\
     TotalLen (l_enc l) + FrameOverhead (l_enc l) + len (frame f) <= l_maxPayload l) \/
    (appendFrame f l = (false, l) /\
     l_maxPayload l < TotalLen (l_enc l) + FrameOverhead (l_enc l) + len (frame f)).
  Proof.
    unfold appendFrame. destruct (_ >? _) eqn:Hgt.
    - right. apply Z.gtb_lt in Hgt. split; [reflexivity | lia].
    - left. split; [reflexivity |].
      destruct (Z.gtb_spec (TotalLen (l_enc l) + FrameOverhead (l_enc l) + len (frame f))
                  (l_maxPayload l)); [discriminate | lia].
  Qed.

Lemma outer_select_accounted l w f q :
    queue (l_forwardCh l) w = f :: q ->
    exists s', outer_select TakeFrame l w = Some s' /\
      queue (l_forwardCh l) (snd s') = q /\ accounted f l w s'.
  Proof.
    intros Hq. unfold outer_select. rewrite Hq.
    destruct (appendFrame_cases f l) as [[-> Hfit] | [-> Hbig]];
      eexists; (split; [reflexivity |]); simpl.
    - split; [apply queue_chan_pop |]. left. split; [reflexivity |]. now exists [].
    - split; [apply queue_chan_pop |]. right. left. repeat split. exact Hbig.
  Qed.

Lemma inner_select_accounted l w f q :
    queue (l_forwardCh l) w = f :: q ->
    queue (l_forwardCh l) (snd (inner_select l w)) = q /\
    accounted f l w (inner_select l w).
  Proof.
    intros Hq. unfold inner_select. rewrite Hq.
    destruct (appendFrame_cases f l) as [[-> Hfit] | [-> Hbig]]; simpl.
    - split; [apply queue_chan_pop |]. left. split; [reflexivity |]. now exists [].
    - pose proof (flush_frame l (chan_pop (l_forwardCh l) q w)) as Hfr.
      destruct (flush l _) as [r [l2 w2] | [l2 w2] | [l2 w2] | [l2 w2]];
        destruct Hfr as (Hfc & Hlog & _ & Hch & _ & Hp & tr & Htr); simpl in *;
        try (split; [unfold queue; rewrite Hfc; apply queue_chan_pop | right; right; reflexivity]).
      destruct (appendFrame_cases f l2) as [[-> Hfit2] | [-> Hbig2]]; simpl.
      + split; [unfold queue; rewrite Hfc; apply queue_chan_pop |].
        left. split; [reflexivity |]. exists tr.
        unfold enc_AppendFrame. simpl. rewrite Htr. now rewrite <- app_assoc.
      + split; [unfold queue, logDrop; simpl; rewrite Hfc; apply queue_chan_pop |].
        right. left. split; [reflexivity |].
        unfold logDrop. simpl. rewrite Hlog, Hp. split; [reflexivity | exact Hbig2].
  Qed.
End ReceiveFacts.

(** X11.  No frame is lost in silence: a frame the task receives, at the
    outer or at the inner [select], is taken off the channel and then
    either it is the last frame appended to the batch, or it is logged as
    dropped, which happens only when it does not fit an emptied batch, or
    the task has panicked. *)
Theorem received_frame_accounted `{!Constants} {E U : Type} `{!Encryptor E, !UDPSender U}
    (t : Task E U) (w : World) (f : ForwardedFrame) (q : list ForwardedFrame) :
  ctl t = AtOuterSelect \/ ctl t = AtInnerSelect ->
  queue (l_forwardCh (locals t)) w = f :: q ->
  exists s', run [TakeFrame] (t, w) = Some s' /\
    queue (l_forwardCh (locals t)) (snd s') = q /\
    ((ctl (fst s') = AtInnerSelect /\
      exists tr, l_trace (locals (fst s')) = l_trace (locals t) ++ tr ++ [EvAppendFrame f]) \/
     (ctl (fst s') = AtOuterSelect /\
      logged (snd s')
        = logged w ++ [LogDroppingTooBig (len (frame f)) (l_pmtu (locals t))] /\
      l_maxPayload (locals (fst s'))
        < TotalLen (l_enc (locals (fst s'))) + FrameOverhead (l_enc (locals (fst s')))
          + len (frame f)) \/
     ctl (fst s') = Crashed).
Proof.
  intros Hctl Hq. destruct t as [k l]. simpl in Hctl, Hq.
  cbn [locals]. destruct Hctl as [-> | ->].
  - destruct (outer_select_accounted l w f q Hq) as (s' & Hsel & Hq' & Hacc).
    exists s'. split; [cbn [run ctl fst snd locals]; now rewrite Hsel |].
    split; [exact Hq' | exact Hacc].
  - destruct (inner_select_accounted l w f q Hq) as [Hq' Hacc].
    exists (inner_select l w). split; [reflexivity |]. split; [exact Hq' | exact Hacc].
Qed.

Lemma received_frame_accounted_witness :
  exists s',
    @run weave_constants _ _ plain_encryptor scripted_sender [TakeFrame]
      (df_task, world_one_frame) = Some s' /\
    queue 1%nat (snd s') = [] /\ ctl (fst s') = AtInnerSelect.
Proof.
  destruct (@received_frame_accounted weave_constants _ _ plain_encryptor scripted_sender
              df_task world_one_frame frame_50 [] ltac:(left; reflexivity) eq_refl)
    as (s' & Hrun & Hq & Hacc).
  exists s'. split; [exact Hrun |]. split; [exact Hq |].
  vm_compute in Hrun. injection Hrun as <-. reflexivity.
Defined.

Section SendErrorFacts.
  Context `{!Constants} {E U : Type} `{!Encryptor E, !UDPSender U}.
  Implicit Types (l : Locals E U) (w : World).

Lemma flush_other_error l w (msg : list byte) (e1 : E) (u1 : U) (err : error) :
    Bytes (l_enc l) = (msg, e1) ->
    Send msg (l_udpSender l) = (Some err, u1) ->
    (forall p fr, err <> FrameTooBigError p fr) ->
    flush l w
    = Returned tt (set_udpSender u1 (set_enc e1 (record (EvSend msg (l_maxPayload l)) l)),
                   if PosixError err =? ENOBUFS then w else CheckFatal err w).
  Proof.
    intros Hb Hsend Hno. unfold flush, send_Bytes. rewrite Hb, Hsend.
    destruct err as [p fr | n | m].
    - now destruct (Hno p fr).
    - now destruct (PosixError (PosixErrno n) =? ENOBUFS).
    - now destruct (PosixError (OtherError m) =? ENOBUFS).
  Qed.

Lemma flush_no_error l w (msg : list byte) (e1 : E) (u1 : U) :
    Bytes (l_enc l) = (msg, e1) ->
    Send msg (l_udpSender l) = (None, u1) ->
    flush l w
    = Returned tt (set_udpSender u1 (set_enc e1 (record (EvSend msg (l_maxPayload l)) l)), w).
  Proof. intros Hb Hsend. unfold flush, send_Bytes. now rewrite Hb, Hsend. Qed.
End SendErrorFacts.

(** X12.  A send that fails with anything but [FrameTooBigError] costs the
    batch and nothing else: the flush at an empty channel takes the task
    back to the outer [select] with the encryptor reset by [Bytes], the
    datagram is not sent again, the budget, the client PMTU and the timer
    are as before, and the error is reported to [CheckFatal] unless it is
    [ENOBUFS], which is ignored. *)
Theorem send_error_drops_batch `{!Constants} {E U : Type} `{!Encryptor E, !UDPSender U}
    (l : Locals E U) (w : World) (msg : list byte) (e1 : E) (u1 : U) (err : error) :
  queue (l_forwardCh l) w = [] ->
  Bytes (l_enc l) = (msg, e1) ->
  Send msg (l_udpSender l) = (Some err, u1) ->
  (forall p fr, err <> FrameTooBigError p fr) ->
  exists l' w',
    inner_select l w = ({| ctl := AtOuterSelect; locals := l' |}, w') /\
    l_enc l' = e1 /\ l_udpSender l' = u1 /\
    l_trace l' = l_trace l ++ [EvSend msg (l_maxPayload l)] /\
    l_maxPayload l' = l_maxPayload l /\ l_clientPMTU l' = l_clientPMTU l /\
    l_pmtuVerifyTick l' = l_pmtuVerifyTick l /\
    clientPMTU (conn w') = clientPMTU (conn w) /\
    frameChans w' = frameChans w /\
    fatalErrors (conn w')
      = fatalErrors (conn w) ++ (if PosixError err =? ENOBUFS then [] else [err]).
Proof.
  intros Hq Hb Hsend Hno. unfold inner_select. rewrite Hq.
  rewrite (flush_other_error l w msg e1 u1 err Hb Hsend Hno). simpl.
  eexists _, _. split; [reflexivity |]. simpl.
  repeat (split; [reflexivity |]).
  destruct (PosixError err =? ENOBUFS); simpl.
  - repeat split. now rewrite app_nil_r.
  - repeat split.
Qed.

Section StaticFacts.
  Context `{!Constants} {E U : Type} `{!Encryptor E, !UDPSender U}.
  Variables (P : U -> Prop) (pmtu : Z).
  Hypothesis Hsender : never_too_big P.
  Implicit Types (l : Locals E U) (w : World).

Lemma flush_static l w :
    P (l_udpSender l) ->
    exists l' w',
      flush l w = Returned tt (l', w') /\
      P (l_udpSender l') /\ l_pmtu l' = l_pmtu l /\ l_maxPayload l' = l_maxPayload l /\
      l_pmtuVerifyTick l' = l_pmtuVerifyTick l /\ l_clientPMTU l' = l_clientPMTU l /\
      clientPMTU (conn w') = clientPMTU (conn w).
  Proof.
    intros HP.
    destruct (Bytes (l_enc l)) as [msg e1] eqn:Hb.
    destruct (Hsender _ HP) as [_ Hsend]. destruct (Hsend msg) as [HP' Hno].
    destruct (Send msg (l_udpSender l)) as [[err |] u1] eqn:Hs; simpl in *.
    - rewrite (flush_other_error l w msg e1 u1 err Hb Hs)
        by (intros p fr ->; now apply (Hno p fr)).
      eexists _, _. split; [reflexivity |]. simpl.
      repeat (split; [first [reflexivity | assumption] |]).
      now destruct (PosixError err =? ENOBUFS).
    - rewrite (flush_no_error l w msg e1 u1 Hb Hs).
      eexists _, _. split; [reflexivity |]. simpl.
      repeat (split; [first [reflexivity | assumption] |]). reflexivity.
  Qed.

Lemma appendFrame_static f l (k : Control) :
    k <> Crashed ->
    static_budget P pmtu {| ctl := AtOuterSelect; locals := l |} ->
    static_budget P pmtu {| ctl := k; locals := snd (appendFrame f l) |}.
  Proof.
    intros Hk (HP & Hp & Hmp & Ht & Hcp & _).
    unfold appendFrame. destruct (_ >? _); simpl; repeat split; assumption.
  Qed.

Lemma outer_select_static (c : Choice) l w r :
    static_budget P pmtu {| ctl := AtOuterSelect; locals := l |} ->
    outer_select c l w = Some r ->
    static_budget P pmtu (fst r) /\ clientPMTU (conn (snd r)) = clientPMTU (conn w).
  Proof.
    intros Hinv Hsel. pose proof Hinv as (HP & Hp & Hmp & Ht & Hcp & _).
    simpl in HP, Hp, Hmp, Ht, Hcp. unfold outer_select in Hsel. destruct c.
    - destruct (stopChans w !!! l_stop l); [discriminate |]. injection Hsel as <-.
      split; [| reflexivity]. unfold static_budget. simpl.
      split; [apply (Hsender _ HP) |]. repeat split; try assumption; try discriminate.
    - rewrite Ht in Hsel. discriminate.
    - destruct (queue (l_forwardCh l) w) as [| f q]; [discriminate |].
      pose proof (appendFrame_static f l AtInnerSelect ltac:(discriminate) Hinv) as Hin.
      pose proof (appendFrame_static f l AtOuterSelect ltac:(discriminate) Hinv) as Hout.
      destruct (appendFrame f l) as [[] l1]; injection Hsel as <-; simpl in *;
        (split; [assumption | reflexivity]).
  Qed.

Lemma inner_select_static l w :
    static_budget P pmtu {| ctl := AtInnerSelect; locals := l |} ->
    static_budget P pmtu (fst (inner_select l w)) /\
    clientPMTU (conn (snd (inner_select l w))) = clientPMTU (conn w).
  Proof.
    intros (HP & Hp & Hmp & Ht & Hcp & _). simpl in HP, Hp, Hmp, Ht, Hcp.
    assert (Hl : static_budget P pmtu {| ctl := AtOuterSelect; locals := l |}).
    { repeat split; try assumption; try discriminate. }
    unfold inner_select. destruct (queue (l_forwardCh l) w) as [| f q].
    - destruct (flush_static l w HP) as (l' & w' & -> & HP' & Hp' & Hmp' & Ht' & Hcp' & Hw').
      simpl. split; [| exact Hw'].
      repeat split; simpl; try congruence; try discriminate.
    - pose proof (appendFrame_static f l AtInnerSelect ltac:(discriminate) Hl) as Hin.
      pose proof (appendFrame_refused f l) as Href.
      destruct (appendFrame f l) as [[] l1]; [split; [exact Hin | reflexivity] |].
      rewrite (Href l1 eq_refl).
      destruct (flush_static l (chan_pop (l_forwardCh l) q w) HP)
        as (l' & w' & -> & HP' & Hp' & Hmp' & Ht' & Hcp' & Hw').
      assert (Hl' : static_budget P pmtu {| ctl := AtOuterSelect; locals := l' |}).
      { repeat split; simpl; try congruence; try discriminate. }
      pose proof (appendFrame_static f l' AtInnerSelect ltac:(discriminate) Hl') as Hin'.
      pose proof (appendFrame_static f l' AtOuterSelect ltac:(discriminate) Hl') as Hout'.
      destruct (appendFrame f l') as [[] l3]; simpl in *;
        (split; [assumption | exact Hw']).
  Qed.

Lemma task_step_static (s s' : Task E U * World) :
    task_step s s' -> static_budget P pmtu (fst s) -> static_budget P pmtu (fst s').
  Proof.
    intros Hstep Hinv. destruct Hstep as [c l w r Hsel | l w | t w w'].
    - exact (proj1 (outer_select_static c l w r Hinv Hsel)).
    - exact (proj1 (inner_select_static l w Hinv)).
    - exact Hinv.
  Qed.

Lemma reachable_static (init s : Task E U * World) :
    reachable init s -> static_budget P pmtu (fst init) -> static_budget P pmtu (fst s).
  Proof.
    intros Hreach Hinit. induction Hreach as [| s s' _ IH Hstep]; [exact Hinit |].
    exact (task_step_static s s' Hstep IH).
  Qed.

Lemma run_one_static (c : Choice) (t : Task E U) w s' :
    static_budget P pmtu t -> run [c] (t, w) = Some s' ->
    clientPMTU (conn (snd s')) = clientPMTU (conn w).
  Proof.
    intros Hinv Hrun. destruct t as [k l]. cbn [run ctl fst snd locals] in Hrun.
    destruct k.
    - destruct (outer_select c l w) as [r |] eqn:Hsel; [| discriminate].
      injection Hrun as <-. exact (proj2 (outer_select_static c l w r Hinv Hsel)).
    - injection Hrun as <-. exact (proj2 (inner_select_static l w Hinv)).
    - injection Hrun as <-. reflexivity.
    - injection Hrun as <-. reflexivity.
  Qed.
End StaticFacts.

(** X13.  A pipeline whose sender never reports [FrameTooBigError] is
    static: in every state it reaches its budget is [pmtu - UDPOverhead],
    its verify timer is not armed (so the tick case is never ready), it has
    not panicked, and no step it takes writes the client PMTU of the
    connection. *)
Theorem static_pipeline `{!Constants} {E U : Type} `{!Encryptor E, !UDPSender U}
    (P : U -> Prop) (forwardCh stop : chan) (e : E) (u : U) (pmtu : Z)
    (w0 : World) (t : Task E U) (w : World) :
  never_too_big P -> P u ->
  reachable (forwarderLoop forwardCh stop e u pmtu, w0) (t, w) ->
  l_maxPayload (locals t) = pmtu - UDPOverhead /\
  l_pmtuVerifyTick (locals t) = false /\
  ctl t <> Crashed /\
  outer_select TakeTick (locals t) w = None /\
  forall c s', run [c] (t, w) = Some s' ->
               clientPMTU (conn (snd s')) = clientPMTU (conn w).
Proof.
  intros Hsender HP Hreach.
  assert (Hinv : static_budget P pmtu t).
  { apply (reachable_static P pmtu Hsender _ _ Hreach).
    unfold static_budget, forwarderLoop. simpl. repeat split; try assumption; try discriminate. }
  pose proof Hinv as (_ & _ & Hmp & Ht & _ & Hk).
  repeat (split; [assumption |]). split.
  - unfold outer_select. now rewrite Ht.
  - intros c s'. now apply (run_one_static P pmtu Hsender).
Qed.

Lemma send_error_drops_batch_witness :
  exists l' w',
    @inner_select weave_constants _ _ plain_encryptor scripted_sender
      locals_refused (world_ready 1400 false)
    = ({| ctl := AtOuterSelect; locals := l' |}, w') /\
    l_enc l' = {| pe_batch := [] |} /\
    fatalErrors (conn w') = [PosixErrno 111].
Proof.
  destruct (@send_error_drops_batch weave_constants _ _ plain_encryptor scripted_sender
              locals_refused (world_ready 1400 false)
              (x01 :: be16 50 ++ replicate 50 x00) {| pe_batch := [] |}
              {| ss_script := [] |} (PosixErrno 111) eq_refl eq_refl eq_refl
              ltac:(discriminate))
    as (l' & w' & Hsel & Henc & _ & _ & _ & _ & _ & _ & _ & Hfatal).
  exists l', w'. split; [exact Hsel |]. split; [exact Henc | exact Hfatal].
Defined.

Lemma scripted_never_too_big : @never_too_big ScriptedSender scripted_sender script_plain.
Proof.
  intros [script] HP. unfold script_plain in *. simpl in *.
  split; [exact HP |]. intros msg.
  destruct script as [| r script]; simpl.
  - split; [constructor | discriminate].
  - apply Forall_cons in HP as [Hr HP]. split; [exact HP | exact Hr].
Qed.

Lemma static_pipeline_witness :
  l_maxPayload (locals (fst enobufs_state)) = 1372 /\
  l_pmtuVerifyTick (locals (fst enobufs_state)) = false /\
  ctl (fst enobufs_state) <> Crashed.
Proof.
  destruct (@static_pipeline weave_constants _ _ plain_encryptor scripted_sender
              script_plain 1%nat 1%nat {| pe_batch := [] |}
              {| ss_script := [Some (PosixErrno ENOBUFS)] |} 1400
              world_one_frame (fst enobufs_state) (snd enobufs_state)
              scripted_never_too_big)
    as (Hmp & Ht & Hk & _).
  - repeat constructor. discriminate.
  - apply (run_reachable [TakeFrame; TakeFrame] _ (enobufs_task, world_one_frame));
      [apply reach_init |].
    vm_compute. reflexivity.
  - split; [exact Hmp |]. split; [exact Ht | exact Hk].
Defined.

(* ===================================================================== *)
(** * Stopping the pipelines *)
(* ===================================================================== *)

Lemma lookup_total_stop_send_eq (s : chan) (w : World) :
  stopChans (stop_send s w) !!! s = S (stopChans w !!! s).
Proof. unfold stop_send. simpl. now rewrite lookup_total_insert_eq. Qed.

Lemma lookup_total_stop_send_ne (s s' : chan) (w : World) :
  s <> s' -> stopChans (stop_send s w) !!! s' = stopChans w !!! s'.
Proof. intros Hne. unfold stop_send. simpl. now rewrite lookup_total_insert_ne. Qed.

Lemma stopForwarders_sending (w : World) (s : chan) :
  stopForward (conn w) = Some s ->
  exists w1,
    stopForwarders w = (SendingStop s, w1) /\
    stopChans w1 !!! s = S (stopChans w !!! s) /\
    (forall c, c <> s -> stopChans w1 !!! c = stopChans w !!! c) /\
    (forall c, queue c w1 = queue c w) /\ logged w1 = logged w /\
    forwardChan (conn w1) = None /\ forwardChanDF (conn w1) = None /\
    stopForward (conn w1) = Some s /\ stopForwardDF (conn w1) = stopForwardDF (conn w).
Proof.
  intros Hs. unfold stopForwarders. cbv zeta. rewrite Hs.
  eexists. split; [reflexivity |].
  split; [now rewrite lookup_total_stop_send_eq |].
  split; [intros c Hc; now rewrite lookup_total_stop_send_ne by congruence |].
  repeat split.
Qed.

Section StopFacts.
  Context `{!Constants} {E U : Type} `{!Encryptor E, !UDPSender U}.
  Implicit Types (l : Locals E U) (w : World).

  (** The stop case of the outer [select] when a sender waits. *)
Lemma outer_select_stop l w (n : nat) :
    stopChans w !!! l_stop l = S n ->
    exists w',
      outer_select TakeStop l w = Some (leave Exited l, w') /\
      conn w' = conn w /\ logged w' = logged w /\
      queue (l_forwardCh l) w' = [] /\
      (forall c, c <> l_forwardCh l -> queue c w' = queue c w) /\
      stopChans w' !!! l_stop l = n /\
      (forall c, c <> l_stop l -> stopChans w' !!! c = stopChans w !!! c).
  Proof.
    intros Hn. unfold outer_select. rewrite Hn.
    eexists. split; [reflexivity |]. unfold drain, queue. simpl.
    split; [reflexivity |]. split; [reflexivity |].
    split; [now rewrite lookup_total_insert_eq |].
    split; [intros c Hc; now rewrite lookup_total_insert_ne |].
    split; [now rewrite lookup_total_insert_eq |].
    intros c Hc. now rewrite lookup_total_insert_ne.
  Qed.

  (** A hand-over leaves the connection record, and so the four handles,
      as they are. *)
Lemma handoff_conn (k k' : Stopper) (t t' : Task E U) w w' :
    handoff k t w = Some (k', t', w') -> conn w' = conn w.
  Proof.
    unfold handoff.
    destruct (ctl t); try discriminate.
    destruct (waiting_on k) as [s |]; [| discriminate].
    destruct (decide (l_stop (locals t) = s)); [| discriminate].
    destruct (outer_select TakeStop (locals t) w) as [[t1 w1] |] eqn:Hsel; [| discriminate].
    intros Heq. injection Heq as _ _ <-.
    assert (Hc1 : conn w1 = conn w).
    { unfold outer_select in Hsel.
      destruct (stopChans w !!! l_stop (locals t)); [discriminate |].
      injection Hsel as _ <-. reflexivity. }
    rewrite <- Hc1.
    destruct k as [s0 | [s0 |] |]; simpl; try reflexivity.
    now destruct (stopForwardDF (conn w1)).
  Qed.
End StopFacts.

(** X14.  [stopForwarders] ends both pipelines by two hand-overs.  With the
    two stop channels set and distinct and each task standing at its outer
    [select], [stopForwarders] clears the forward handles and waits in its
    send on [conn.stopForward]; the task of that channel receives it,
    empties its forward channel and returns after [udpSender.Shutdown()],
    making no call on its encryptor and no send; [stopForwarders] then
    waits in its send on [conn.stopForwardDF], which the other task
    receives in the same way, and only then does it return.  The frames
    that were still queued are discarded without a log line; the other
    channels, the log and the numbers of senders waiting on the stop
    channels are as before.  The first send is not received by the task of
    the other channel.  The stop handles stay set: a further call of
    [stopForwarders] waits in a send on [conn.stopForward] again, which
    neither task receives, both having returned. *)
Theorem stop_signals_end_tasks `{!Constants} {E1 U1 E2 U2 : Type}
    `{!Encryptor E1, !UDPSender U1, !Encryptor E2, !UDPSender U2}
    (w : World) (s sDF : chan) (t : Task E1 U1) (tDF : Task E2 U2) :
  stopForward (conn w) = Some s ->
  stopForwardDF (conn w) = Some sDF ->
  s <> sDF ->
  ctl t = AtOuterSelect -> ctl tDF = AtOuterSelect ->
  l_stop (locals t) = s -> l_stop (locals tDF) = sDF ->
  exists w1 w2 w3,
    stopForwarders w = (SendingStop s, w1) /\
    handoff (SendingStop s) t w1
    = Some (SendingStopDF (Some sDF), leave Exited (locals t), w2) /\
    handoff (SendingStopDF (Some sDF)) tDF w2
    = Some (Stopped, leave Exited (locals tDF), w3) /\
    handoff (SendingStop s) tDF w1 = None /\
    l_trace (locals (leave Exited (locals t))) = l_trace (locals t) /\
    l_trace (locals (leave Exited (locals tDF))) = l_trace (locals tDF) /\
    l_udpSender (locals (leave Exited (locals t)))
    = snd (Shutdown (l_udpSender (locals t))) /\
    l_udpSender (locals (leave Exited (locals tDF)))
    = snd (Shutdown (l_udpSender (locals tDF))) /\
    queue (l_forwardCh (locals t)) w3 = [] /\ queue (l_forwardCh (locals tDF)) w3 = [] /\
    (forall c, c <> l_forwardCh (locals t) -> c <> l_forwardCh (locals tDF) ->
               queue c w3 = queue c w) /\
    (forall c, stopChans w3 !!! c = stopChans w !!! c) /\
    logged w3 = logged w /\
    forwardChan (conn w3) = None /\ forwardChanDF (conn w3) = None /\
    fst (stopForwarders w3) = SendingStop s /\
    (forall w4, handoff (fst (stopForwarders w3)) (leave Exited (locals t)) w4 = None /\
                handoff (fst (stopForwarders w3)) (leave Exited (locals tDF)) w4 = None).
Proof.
  intros Hs HsDF Hne Hctl HctlDF Hl HlDF. subst s sDF.
  destruct t as [c l], tDF as [cDF lDF]. simpl in *. subst c cDF.
  destruct (stopForwarders_sending w _ Hs)
    as (w1 & Hrun & Hn1 & Hsto1 & Hq1 & Hlog1 & Hf1 & HfDF1 & Hs1 & HsDF1).
  destruct (outer_select_stop l w1 _ Hn1)
    as (w2' & Hsel1 & Hc2 & Hlog2 & Hq2 & Hqo2 & Hst2 & Hsto2).
  assert (HDF2 : stopForwardDF (conn w2') = Some (l_stop lDF)).
  { rewrite Hc2, HsDF1. exact HsDF. }
  set (w2 := stop_send (l_stop lDF) w2').
  assert (Hn2 : stopChans w2 !!! l_stop lDF = S (stopChans w !!! l_stop lDF)).
  { unfold w2. rewrite lookup_total_stop_send_eq. rewrite Hsto2 by congruence.
    now rewrite Hsto1 by congruence. }
  destruct (outer_select_stop lDF w2 _ Hn2)
    as (w3 & Hsel2 & Hc3 & Hlog3 & Hq3 & Hqo3 & Hst3 & Hsto3).
  exists w1, w2, w3.
  split; [exact Hrun |].
  split.
  { unfold handoff. cbn [ctl locals waiting_on].
    rewrite decide_True by reflexivity. rewrite Hsel1.
    unfold stop_received. rewrite HDF2. reflexivity. }
  split.
  { unfold handoff. cbn [ctl locals waiting_on].
    rewrite decide_True by reflexivity. rewrite Hsel2. reflexivity. }
  split.
  { unfold handoff. cbn [ctl locals waiting_on].
    rewrite decide_False by congruence. reflexivity. }
  split; [reflexivity |]. split; [reflexivity |].
  split; [reflexivity |]. split; [reflexivity |].
  assert (Hq2' : forall c, queue c w2 = queue c w2') by reflexivity.
  split.
  { destruct (decide (l_forwardCh l = l_forwardCh lDF)) as [Heq | Hd].
    - rewrite Heq. exact Hq3.
    - rewrite Hqo3 by exact Hd. rewrite Hq2'. exact Hq2. }
  split; [exact Hq3 |].
  split; [intros c H1 H2; rewrite Hqo3, Hq2', Hqo2, Hq1 by assumption; reflexivity |].
  split.
  { intros c. destruct (decide (c = l_stop lDF)) as [-> | HcDF]; [exact Hst3 |].
    rewrite Hsto3 by exact HcDF. unfold w2.
    rewrite lookup_total_stop_send_ne by congruence.
    destruct (decide (c = l_stop l)) as [-> | Hcs]; [exact Hst2 |].
    rewrite Hsto2 by exact Hcs. now apply Hsto1. }
  split; [rewrite Hlog3; unfold w2; simpl; rewrite Hlog2; exact Hlog1 |].
  assert (Hc31 : conn w3 = conn w1).
  { rewrite Hc3. unfold w2. simpl. exact Hc2. }
  split; [rewrite Hc31; exact Hf1 |].
  split; [rewrite Hc31; exact HfDF1 |].
  assert (Hagain : fst (stopForwarders w3) = SendingStop (l_stop l)).
  { assert (Hs3 : stopForward (conn w3) = Some (l_stop l)) by (rewrite Hc31; exact Hs1).
    unfold stopForwarders. cbv zeta. rewrite Hs3. reflexivity. }
  split; [exact Hagain |].
  intros w4. rewrite Hagain. split; reflexivity.
Qed.

Lemma stop_signals_end_tasks_witness :
  exists w1 w2 w3,
    stopForwarders world_two_frames = (SendingStop 0%nat, w1) /\
    @handoff weave_constants _ _ plain_encryptor scripted_sender
      (SendingStop 0%nat) idle_task w1
    = Some (SendingStopDF (Some 1%nat),
            @leave _ _ scripted_sender Exited (locals idle_task), w2) /\
    @handoff weave_constants _ _ plain_encryptor scripted_sender
      (SendingStopDF (Some 1%nat)) enobufs_task w2
    = Some (Stopped, @leave _ _ scripted_sender Exited (locals enobufs_task), w3) /\
    queue 0%nat w3 = [] /\ queue 1%nat w3 = [].
Proof.
  destruct (@stop_signals_end_tasks weave_constants _ _ _ _
              plain_encryptor scripted_sender plain_encryptor scripted_sender
              world_two_frames 0%nat 1%nat idle_task enobufs_task
              eq_refl eq_refl ltac:(discriminate) eq_refl eq_refl eq_refl eq_refl)
    as (w1 & w2 & w3 & H1 & H2 & H3 & _ & _ & _ & _ & _ & Hq1 & Hq2 & _).
  exists w1, w2, w3. repeat (split; [assumption |]). assumption.
Defined.

(* ===================================================================== *)
(** * The UDP senders *)
(* ===================================================================== *)

Lemma lib_error_not_too_big (e : LibError) (p : Z) (fr : option ForwardedFrame) :
  lib_error e <> FrameTooBigError p fr.
Proof. destruct e; discriminate. Qed.

Lemma simple_never_too_big {K : Type} `{!SocketOps K} :
  @never_too_big (SimpleUDPSender K) simple_udp_sender (fun _ => True).
Proof.
  intros u _. split; [exact I |]. intros msg. split; [exact I |].
  intros p fr. simpl. unfold SimpleUDPSender_Send.
  destruct (WriteToUDP msg (RemoteUDPAddr (udpConn u)) (udpConn u)) as [[e |] k1]; simpl.
  - intros Heq. injection Heq as Heq. exact (lib_error_not_too_big e p fr Heq).
  - discriminate.
Qed.

(** X15.  The pipeline that sends through [SimpleUDPSender] never learns a
    path MTU: [Send] returns the error of [WriteToUDP] as it is and
    [Shutdown] returns nil and does nothing, so in every state the task
    reaches its budget is [pmtu - UDPOverhead], its verify timer is not
    armed, it has not panicked, and no step it takes writes the client PMTU
    of the connection. *)
Theorem simple_sender_pipeline_static `{!Constants} {E K : Type}
    `{!Encryptor E, !SocketOps K} (forwardCh stop : chan) (e : E) (UDPListener : K)
    (pmtu : Z) (w0 : World) (t : Task E (SimpleUDPSender K)) (w : World) :
  @reachable _ _ _ _ simple_udp_sender
    (forwarderLoop forwardCh stop e (NewSimpleUDPSender UDPListener) pmtu, w0) (t, w) ->
  l_maxPayload (locals t) = pmtu - UDPOverhead /\
  l_pmtuVerifyTick (locals t) = false /\
  ctl t <> Crashed /\
  forall c s', @run _ _ _ _ simple_udp_sender [c] (t, w) = Some s' ->
               clientPMTU (conn (snd s')) = clientPMTU (conn w).
Proof.
  intros Hreach.
  assert (Hinv : static_budget (fun _ : SimpleUDPSender K => True) pmtu t).
  { apply (@reachable_static _ _ _ _ simple_udp_sender _ pmtu simple_never_too_big
             _ _ Hreach).
    unfold static_budget, forwarderLoop. simpl.
    repeat split; try assumption; try discriminate. }
  pose proof Hinv as (_ & _ & Hmp & Ht & _ & Hk).
  repeat (split; [assumption |]).
  intros c s'.
  now apply (@run_one_static _ _ _ _ simple_udp_sender _ pmtu simple_never_too_big).
Qed.

(** An error of a library call returned as it is. *)
Ltac passed_on err tac :=
  let n := fresh "n" in
  let m := fresh "m" in
  destruct err as [n | m]; simpl; [exists (LibErrno n) | exists (LibOther m)];
  (split; [reflexivity | tac]).

(** X16.  What [RawUDPSender.Send] returns.  It panics exactly when the
    remote address is nil, before it changes anything.  It returns nil
    exactly when the packet was serialized and written.  A
    [FrameTooBigError] it returns carries no frame, and its PMTU is what
    [getsockopt(IP_MTU)] gave after a write that failed with [EMSGSIZE],
    the file opened for that call being closed again.  Every other error
    is the error of a library call, passed on as it is: of the serializer,
    or of a call made after the write failed.  The source port and the
    options never change. *)
Theorem RawUDPSender_Send_result {K : Type} `{!SocketOps K} (msg : list byte)
    (sender : RawUDPSender K) :
  match RawUDPSender_Send msg sender with
  | Panicked sender' => sender' = sender /\ RemoteUDPAddr (socket sender) = None
  | Returned r sender' =>
      opts sender' = opts sender /\
      udp_SrcPort (udpHeader sender') = udp_SrcPort (udpHeader sender) /\
      exists addr,
        RemoteUDPAddr (socket sender) = Some addr /\
        udp_DstPort (udpHeader sender') = uint16 (addr_Port addr) /\
        exists serr,
          SerializeUDP (opts sender) (udpHeader sender') msg (ipBuf sender)
          = (serr, ipBuf sender') /\
          match r with
          | None =>
              serr = None /\
              socket_Write (ipBuf sender') (socket sender) = (None, socket sender')
          | Some (FrameTooBigError pmtu fr) =>
              fr = None /\ serr = None /\
              exists e k1 fd k2 k3,
                socket_Write (ipBuf sender') (socket sender) = (Some e, k1) /\
                PosixError (lib_error e) = EMSGSIZE /\
                socket_File k1 = (inr fd, k2) /\
                GetsockoptInt_IP_MTU fd k2 = (inr pmtu, k3) /\
                socket sender' = file_Close fd k3
          | Some err =>
              exists e, err = lib_error e /\
                (serr = Some e \/
                 serr = None /\
                 exists ew k1,
                   socket_Write (ipBuf sender') (socket sender) = (Some ew, k1))
          end
  | Blocked _ | OutOfFuel _ => False
  end.
Proof.
  unfold RawUDPSender_Send.
  destruct (RemoteUDPAddr (socket sender)) as [addr |] eqn:Haddr; [| split; reflexivity].
  destruct (SerializeUDP _ _ msg (ipBuf sender)) as [serr packet] eqn:Hser.
  destruct serr as [err |].
  { simpl. split; [reflexivity |]. split; [reflexivity |].
    exists addr. split; [reflexivity |]. split; [reflexivity |].
    exists (Some err). split; [exact Hser |].
    passed_on err ltac:(left; reflexivity). }
  cbn [socket].
  destruct (socket_Write packet (socket sender)) as [[err |] k1] eqn:Hw.
  - destruct (PosixError (lib_error err) =? EMSGSIZE) eqn:Hmsg.
    + apply Z.eqb_eq in Hmsg.
      destruct (socket_File k1) as [[err2 | fd] k2] eqn:Hf.
      * simpl. split; [reflexivity |]. split; [reflexivity |].
        exists addr. split; [reflexivity |]. split; [reflexivity |].
        exists None. split; [exact Hser |].
        passed_on err2 ltac:(right; split; [reflexivity | eauto]).
      * destruct (GetsockoptInt_IP_MTU fd k2) as [[err3 | pmtu] k3] eqn:Hg.
        -- simpl. split; [reflexivity |]. split; [reflexivity |].
           exists addr. split; [reflexivity |]. split; [reflexivity |].
           exists None. split; [exact Hser |].
           passed_on err3 ltac:(right; split; [reflexivity | eauto]).
        -- simpl. split; [reflexivity |]. split; [reflexivity |].
           exists addr. split; [reflexivity |]. split; [reflexivity |].
           exists None. split; [exact Hser |].
           split; [reflexivity |]. split; [reflexivity |].
           exists err, k1, fd, k2, k3. repeat split; assumption.
    + simpl. split; [reflexivity |]. split; [reflexivity |].
      exists addr. split; [reflexivity |]. split; [reflexivity |].
      exists None. split; [exact Hser |].
      passed_on err ltac:(right; split; [reflexivity | eauto]).
  - simpl. split; [reflexivity |]. split; [reflexivity |].
    exists addr. split; [reflexivity |]. split; [reflexivity |].
    exists None. split; [exact Hser |]. split; [reflexivity | exact Hw].
Qed.

Lemma simple_sender_pipeline_static_witness :
  l_maxPayload (locals (fst simple_state)) = 1372 /\
  l_pmtuVerifyTick (locals (fst simple_state)) = false /\
  ctl (fst simple_state) <> Crashed.
Proof.
  destruct (@simple_sender_pipeline_static weave_constants _ _ plain_encryptor test_net_ops
              1%nat 1%nat {| pe_batch := [] |} net_1000 1400 world_one_frame
              (fst simple_state) (snd simple_state)) as (Hmp & Ht & Hk & _).
  - apply (@run_reachable weave_constants _ _ plain_encryptor
             (@simple_udp_sender _ test_net_ops) [TakeFrame; TakeFrame]
             _ (simple_task, world_one_frame)); [apply reach_init |].
    vm_compute. reflexivity.
  - split; [exact Hmp |]. split; [exact Ht | exact Hk].
Defined.

(** A 2000-byte datagram on a path of MTU 1000: the sender reports the
    MTU of the kernel and leaves no file open. *)
Example RawUDPSender_Send_too_big :
  exists sender',
    @NewRawUDPSender _ weave_package (inr net_1000) = inr sender' /\
    exists sender'',
      @RawUDPSender_Send _ test_net_ops (replicate 2000 x00) sender'
      = Returned (Some (FrameTooBigError 1000 None)) sender'' /\
      tn_files (socket sender'') = 0%nat /\ tn_packets (socket sender'') = [].
Proof.
  eexists. split; [reflexivity |]. eexists. split; [vm_compute; reflexivity |].
  split; reflexivity.
Qed.

(* ===================================================================== *)
(** * Starting the pipelines *)
(* ===================================================================== *)

Lemma make_chan_fresh {A : Type} (m : gmap chan A) : m !! make_chan m = None.
Proof. apply not_elem_of_dom. unfold make_chan. apply is_fresh. Qed.

Lemma make_chan_insert_ne {A : Type} (m : gmap chan A) (c : chan) (x : A) :
  make_chan (<[c := x]> m) <> c /\ m !! make_chan (<[c := x]> m) = None.
Proof.
  pose proof (make_chan_fresh (<[c := x]> m)) as Hf.
  split.
  - intros Heq. rewrite Heq, lookup_insert_eq in Hf. discriminate.
  - destruct (decide (make_chan (<[c := x]> m) = c)) as [Heq | Hne].
    + rewrite Heq, lookup_insert_eq in Hf. discriminate.
    + now rewrite lookup_insert_ne in Hf by congruence.
Qed.

Section EnsureFacts.
  Context `{!Constants, !Package} {E K : Type} `{!EncryptorMakers E}.

  (** [ensureForwarders] when it starts the pipelines. *)
Lemma ensureForwarders_starts (SessionKey : option (list byte)) (UDPListener ipSocket : K)
      (w : World) :
    forwardChan (conn w) = None ->
    forwardChanDF (conn w) = None ->
    exists fwd fwdDF stp stpDF w1 (fws : Forwarders E K),
      ensureForwarders SessionKey UDPListener (inr ipSocket) w = (None, w1, Some fws) /\
      handles (conn w1) = (Some fwd, Some fwdDF, Some stp, Some stpDF) /\
      (fwd <> fwdDF /\ stp <> stpDF) /\
      (frameChans w !! fwd = None /\ frameChans w !! fwdDF = None /\
       stopChans w !! stp = None /\ stopChans w !! stpDF = None) /\
      (queue fwd w1 = [] /\ queue fwdDF w1 = [] /\
       stopChans w1 !!! stp = 0%nat /\ stopChans w1 !!! stpDF = 0%nat) /\
      (forall c, c <> fwd -> c <> fwdDF -> queue c w1 = queue c w) /\
      (forall c, c <> stp -> c <> stpDF -> stopChans w1 !!! c = stopChans w !!! c) /\
      (local (conn w1) = local (conn w) /\ remote (conn w1) = remote (conn w) /\
       clientPMTU (conn w1) = clientPMTU (conn w) /\
       clientPMTUVerified (conn w1) = clientPMTUVerified (conn w) /\
       stackFrag (conn w1) = stackFrag (conn w) /\
       fatalErrors (conn w1) = fatalErrors (conn w) /\ logged w1 = logged w) /\
      fw_plain fws
        = forwarderLoop fwd stp
            (match SessionKey with
             | Some key => NewNaClEncryptor (local (conn w)) key false
             | None => NewNonEncryptor (local (conn w))
             end) (NewSimpleUDPSender UDPListener) DefaultPMTU /\
      fw_DF fws
        = forwarderLoop fwdDF stpDF
            (match SessionKey with
             | Some key => NewNaClEncryptor (local (conn w)) key true
             | None => NewNonEncryptor (local (conn w))
             end)
            {| ipBuf := []; opts := {| FixLengths := true; ComputeChecksums := false |};
               udpHeader := {| udp_SrcPort := Port; udp_DstPort := 0 |};
               socket := ipSocket |}
            (clientPMTU (conn w)).
  Proof.
    intros Hf HfDF. unfold ensureForwarders. rewrite Hf, HfDF. simpl.
    set (fwd := make_chan (frameChans w)).
    set (fwdDF := make_chan (<[fwd := []]> (frameChans w))).
    set (stp := make_chan (stopChans w)).
    set (stpDF := make_chan (<[stp := 0%nat]> (stopChans w))).
    pose proof (make_chan_fresh (frameChans w)) as Hfwd. fold fwd in Hfwd.
    destruct (make_chan_insert_ne (frameChans w) fwd []) as [HneF HfwdDF].
    fold fwdDF in HneF, HfwdDF.
    pose proof (make_chan_fresh (stopChans w)) as Hstp. fold stp in Hstp.
    destruct (make_chan_insert_ne (stopChans w) stp 0%nat) as [HneS HstpDF].
    fold stpDF in HneS, HstpDF.
    exists fwd, fwdDF, stp, stpDF.
    destruct SessionKey as [key |]; eexists _, _; (split; [reflexivity |]); simpl;
      (split; [reflexivity |]);
      (split; [split; congruence |]);
      (split; [repeat split; assumption |]);
      (split; [unfold queue; simpl;
               rewrite lookup_total_insert_ne, !lookup_total_insert_eq by congruence;
               repeat split; rewrite lookup_total_insert_ne, lookup_total_insert_eq
                 by congruence; reflexivity |]);
      (split; [intros c H1 H2; unfold queue; simpl;
               now rewrite !lookup_total_insert_ne by congruence |]);
      (split; [intros c H1 H2; now rewrite !lookup_total_insert_ne by congruence |]);
      (split; [repeat split |]); split; reflexivity.
  Qed.

  (** [ensureForwarders] when it starts nothing: the world is as it was. *)
Lemma ensureForwarders_idle (SessionKey : option (list byte)) (UDPListener : K)
      (dialIP : LibError + K) (w : World) r w1 :
    ensureForwarders SessionKey UDPListener dialIP w = (r, w1, @None (Forwarders E K)) ->
    w1 = w /\
    (r = None /\ (forwardChan (conn w) <> None \/ forwardChanDF (conn w) <> None) \/
     exists e, dialIP = inl e /\ r = Some (lib_error e) /\
               forwardChan (conn w) = None /\ forwardChanDF (conn w) = None).
  Proof.
    unfold ensureForwarders.
    destruct (forwardChan (conn w)) as [c1 |] eqn:Hf;
      [| destruct (forwardChanDF (conn w)) as [c2 |] eqn:HfDF].
    - destruct (forwardChanDF (conn w)); intros Heq; injection Heq as <- <-;
        (split; [reflexivity |]); left; (split; [reflexivity |]); left; discriminate.
    - intros Heq. injection Heq as <- <-.
      split; [reflexivity |]. left. split; [reflexivity |]. right. discriminate.
    - destruct dialIP as [e | ipSocket]; simpl.
      + intros Heq. injection Heq as <- <-. split; [reflexivity |]. right.
        exists e. repeat split.
      + destruct SessionKey; discriminate.
  Qed.
End EnsureFacts.

(** X17.  [ensureForwarders] on a connection with both forward handles nil
    and a raw socket dialled: it returns nil, sets the four handles to
    channels that did not exist before, distinct and empty, leaves every
    other channel and every other field of the connection alone, and starts
    two tasks at their outer [select] with nothing appended or sent: one on
    [forwardChan] and [stopForward] with budget [DefaultPMTU - UDPOverhead]
    and a [SimpleUDPSender] over the listener, one on [forwardChanDF] and
    [stopForwardDF] with budget [clientPMTU - UDPOverhead], the client PMTU
    being the one of the connection, and the [RawUDPSender] over the
    dialled socket, source port [Port]; the encryptors are of the NaCl kind
    exactly when the connection has a session key, the DF flag set for the
    second only. *)
Theorem ensureForwarders_wires `{!Constants, !Package} {E K : Type}
    `{!EncryptorMakers E} (SessionKey : option (list byte))
    (UDPListener ipSocket : K) (w : World) :
  forwardChan (conn w) = None ->
  forwardChanDF (conn w) = None ->
  exists fwd fwdDF stp stpDF w1 (fws : Forwarders E K),
    ensureForwarders SessionKey UDPListener (inr ipSocket) w = (None, w1, Some fws) /\
    handles (conn w1) = (Some fwd, Some fwdDF, Some stp, Some stpDF) /\
    (fwd <> fwdDF /\ stp <> stpDF) /\
    (frameChans w !! fwd = None /\ frameChans w !! fwdDF = None /\
     stopChans w !! stp = None /\ stopChans w !! stpDF = None) /\
    (queue fwd w1 = [] /\ queue fwdDF w1 = [] /\
     stopChans w1 !!! stp = 0%nat /\ stopChans w1 !!! stpDF = 0%nat) /\
    (forall c, c <> fwd -> c <> fwdDF -> queue c w1 = queue c w) /\
    (clientPMTU (conn w1) = clientPMTU (conn w) /\
     stackFrag (conn w1) = stackFrag (conn w) /\ logged w1 = logged w) /\
    (ctl (fw_plain fws) = AtOuterSelect /\
     l_forwardCh (locals (fw_plain fws)) = fwd /\ l_stop (locals (fw_plain fws)) = stp /\
     l_maxPayload (locals (fw_plain fws)) = DefaultPMTU - UDPOverhead /\
     l_trace (locals (fw_plain fws)) = [] /\
     l_udpSender (locals (fw_plain fws)) = NewSimpleUDPSender UDPListener /\
     l_enc (locals (fw_plain fws))
       = match SessionKey with
         | Some key => NewNaClEncryptor (local (conn w)) key false
         | None => NewNonEncryptor (local (conn w))
         end) /\
    (ctl (fw_DF fws) = AtOuterSelect /\
     l_forwardCh (locals (fw_DF fws)) = fwdDF /\ l_stop (locals (fw_DF fws)) = stpDF /\
     l_maxPayload (locals (fw_DF fws)) = clientPMTU (conn w) - UDPOverhead /\
     l_trace (locals (fw_DF fws)) = [] /\
     l_udpSender (locals (fw_DF fws))
       = {| ipBuf := []; opts := {| FixLengths := true; ComputeChecksums := false |};
            udpHeader := {| udp_SrcPort := Port; udp_DstPort := 0 |};
            socket := ipSocket |} /\
     l_enc (locals (fw_DF fws))
       = match SessionKey with
         | Some key => NewNaClEncryptor (local (conn w)) key true
         | None => NewNonEncryptor (local (conn w))
         end).
Proof.
  intros Hf HfDF.
  destruct (ensureForwarders_starts SessionKey UDPListener ipSocket w Hf HfDF)
    as (fwd & fwdDF & stp & stpDF & w1 & fws & Hrun & Hh & Hne & Hnew & Hempty & Hq & _
        & (_ & _ & Hp & _ & Hsf & _ & Hlog) & Hplain & HDF).
  exists fwd, fwdDF, stp, stpDF, w1, fws.
  split; [exact Hrun |]. split; [exact Hh |]. split; [exact Hne |].
  split; [exact Hnew |]. split; [exact Hempty |]. split; [exact Hq |].
  split; [repeat split; assumption |].
  rewrite Hplain, HDF. split; repeat split.
Qed.

Lemma ensureForwarders_wires_witness :
  exists w1 fws,
    @ensureForwarders weave_constants weave_package _ _ plain_makers
      None net_1000 (inr net_1000) (world_idle 1400 true) = (None, w1, Some fws) /\
    handles (conn w1) = (Some 0%nat, Some 1%nat, Some 0%nat, Some 1%nat) /\
    l_maxPayload (locals (fw_plain fws)) = 65507 /\
    l_maxPayload (locals (fw_DF fws)) = 1372.
Proof.
  destruct (@ensureForwarders_wires weave_constants weave_package _ _ plain_makers
              None net_1000 net_1000 (world_idle 1400 true) eq_refl eq_refl)
    as (fwd & fwdDF & stp & stpDF & w1 & fws & Hrun & Hh & _ & _ & _ & _ & _
        & (_ & _ & _ & Hmp & _) & (_ & _ & _ & HmpDF & _)).
  exists w1, fws. split; [exact Hrun |].
  split; [| split; [exact Hmp | exact HmpDF]].
  vm_compute in Hrun. injection Hrun as <- _. reflexivity.
Defined.

(** X18.  [ensureForwarders] starts the pipelines at most once: a call
    that starts nothing leaves the world as it was, and returns an error
    only when dialling the raw socket failed, the error being that one; and
    after a call that started them, every further call returns nil and
    starts nothing, whatever dialling would return. *)
Theorem ensureForwarders_once `{!Constants, !Package} {E K : Type}
    `{!EncryptorMakers E} (SessionKey : option (list byte))
    (UDPListener : K) (dialIP : LibError + K) (w : World) r w1
    (fws : option (Forwarders E K)) :
  ensureForwarders SessionKey UDPListener dialIP w = (r, w1, fws) ->
  (fws = None -> w1 = w) /\
  (forall err, r = Some err ->
     fws = None /\ exists e, dialIP = inl e /\ err = lib_error e) /\
  (fws <> None ->
     r = None /\
     forall SessionKey' UDPListener' dialIP',
       ensureForwarders SessionKey' UDPListener' dialIP' w1
       = (None, w1, @None (Forwarders E K))).
Proof.
  intros Hrun. destruct fws as [fws |].
  - split; [discriminate |].
    assert (Hnil : forwardChan (conn w) = None /\ forwardChanDF (conn w) = None
                   /\ exists ipSocket, dialIP = inr ipSocket).
    { unfold ensureForwarders in Hrun.
      destruct (forwardChan (conn w)); [destruct (forwardChanDF (conn w)); discriminate |].
      destruct (forwardChanDF (conn w)); [discriminate |].
      destruct dialIP as [e | ipSocket]; [discriminate |]. eauto. }
    destruct Hnil as (Hf & HfDF & ipSocket & ->).
    destruct (ensureForwarders_starts SessionKey UDPListener ipSocket w Hf HfDF)
      as (fwd & fwdDF & stp & stpDF & w1' & fws' & Hrun' & Hh & _).
    rewrite Hrun in Hrun'. injection Hrun' as Hr Hw Hfs. subst r w1' fws'.
    split; [discriminate |]. intros _. split; [reflexivity |].
    intros key' k' d'. unfold handles in Hh. injection Hh as H1 H2 _ _.
    unfold ensureForwarders. rewrite H1. reflexivity.
  - destruct (ensureForwarders_idle SessionKey UDPListener dialIP w r w1 Hrun)
      as [-> Hwhy].
    split; [reflexivity |]. split; [| intros Hno; now destruct Hno].
    intros err ->. split; [reflexivity |].
    destruct Hwhy as [[Hr _] | (e & -> & Hr & _)]; [discriminate |].
    exists e. split; [reflexivity |]. now injection Hr.
Qed.

Lemma ensureForwarders_once_witness :
  exists w1 fws,
    @ensureForwarders weave_constants weave_package _ _ plain_makers
      None net_1000 (inr net_1000) (world_idle 1400 false) = (None, w1, Some fws) /\
    @ensureForwarders weave_constants weave_package _ _ plain_makers
      (Some []) net_1000 (inl (LibErrno 1)) w1 = (None, w1, None).
Proof.
  eexists _, _. split; [reflexivity |].
  apply (proj2 (proj2 (proj2
           (@ensureForwarders_once weave_constants weave_package _ _ plain_makers
              None net_1000 (inr net_1000) (world_idle 1400 false) _ _ _ eq_refl))
           ltac:(discriminate))).
Defined.

(* ===================================================================== *)
(** * The life of a connection *)
(* ===================================================================== *)

Lemma handles_paired_same (c c' : LocalConnection) :
  handles c' = handles c -> handles_paired c -> handles_paired c'.
Proof.
  unfold handles, handles_paired. intros Heq. injection Heq as -> -> -> ->. auto.
Qed.

Lemma stopForwarders_paired (w : World) :
  handles_paired (conn w) -> handles_paired (conn (snd (stopForwarders w))).
Proof.
  intros (_ & Hstop & _). unfold stopForwarders.
  destruct (stopForward (conn w)) as [s |] eqn:Hs; simpl;
    unfold handles_paired; simpl; rewrite ?Hs;
    (split; [tauto |]); (split; [| intros Hno; now destruct Hno]).
  - exact Hstop.
  - exact Hstop.
Qed.

Lemma stopForwarders_keeps_stop (w : World) :
  stopForward (conn (snd (stopForwarders w))) = stopForward (conn w).
Proof. unfold stopForwarders. now destruct (stopForward (conn w)). Qed.

Lemma ensureForwarders_paired `{!Constants, !Package} {E K : Type} `{!EncryptorMakers E}
    (SessionKey : option (list byte)) (UDPListener : K) (dialIP : LibError + K)
    (w : World) r w1 (fws : option (Forwarders E K)) :
  ensureForwarders SessionKey UDPListener dialIP w = (r, w1, fws) ->
  handles_paired (conn w) -> handles_paired (conn w1).
Proof.
  intros Hrun Hinv. destruct fws as [fws |].
  - assert (Hnil : forwardChan (conn w) = None /\ forwardChanDF (conn w) = None
                   /\ exists ipSocket, dialIP = inr ipSocket).
    { unfold ensureForwarders in Hrun.
      destruct (forwardChan (conn w)); [destruct (forwardChanDF (conn w)); discriminate |].
      destruct (forwardChanDF (conn w)); [discriminate |].
      destruct dialIP as [e | ipSocket]; [discriminate |]. eauto. }
    destruct Hnil as (Hf & HfDF & ipSocket & ->).
    destruct (ensureForwarders_starts SessionKey UDPListener ipSocket w Hf HfDF)
      as (fwd & fwdDF & stp & stpDF & w1' & fws' & Hrun' & Hh & _).
    rewrite Hrun in Hrun'. injection Hrun' as _ Hw _. subst w1'.
    unfold handles in Hh. injection Hh as H1 H2 H3 H4.
    unfold handles_paired. rewrite H1, H2, H3, H4.
    repeat split; discriminate.
  - now destruct (ensureForwarders_idle SessionKey UDPListener dialIP w r w1 Hrun) as [-> _].
Qed.

Lemma lifecycle_step_paired `{!Constants, !Package} {E K : Type} `{!EncryptorMakers E}
    (w w1 : World) :
  @lifecycle_step _ _ E K _ w w1 -> handles_paired (conn w) -> handles_paired (conn w1).
Proof.
  intros Hstep Hinv.
  destruct Hstep as [key k d w r w1 fws Hrun | w | w w1 Hsame].
  - exact (ensureForwarders_paired key k d w r w1 fws Hrun Hinv).
  - now apply stopForwarders_paired.
  - exact (handles_paired_same _ _ Hsame Hinv).
Qed.

Lemma lifecycle_paired `{!Constants, !Package} {E K : Type} `{!EncryptorMakers E}
    (w0 w : World) :
  rtc (@lifecycle_step _ _ E K _) w0 w ->
  handles_paired (conn w0) -> handles_paired (conn w).
Proof.
  intros Hsteps. induction Hsteps as [w0 | w0 w1 w Hstep _ IH]; [auto |].
  intros Hinv. apply IH. exact (lifecycle_step_paired w0 w1 Hstep Hinv).
Qed.

Lemma lifecycle_step_stop_set `{!Constants, !Package} {E K : Type} `{!EncryptorMakers E}
    (w w1 : World) :
  @lifecycle_step _ _ E K _ w w1 ->
  stopForward (conn w) <> None -> stopForward (conn w1) <> None.
Proof.
  intros Hstep Hset.
  destruct Hstep as [key k d w r w1 fws Hrun | w | w w1 Hsame].
  - destruct fws as [fws |].
    + assert (Hnil : forwardChan (conn w) = None /\ forwardChanDF (conn w) = None
                     /\ exists ipSocket, d = inr ipSocket).
      { unfold ensureForwarders in Hrun.
        destruct (forwardChan (conn w)); [destruct (forwardChanDF (conn w)); discriminate |].
        destruct (forwardChanDF (conn w)); [discriminate |].
        destruct d as [e | ipSocket]; [discriminate |]. eauto. }
      destruct Hnil as (Hf & HfDF & ipSocket & ->).
      destruct (ensureForwarders_starts key k ipSocket w Hf HfDF)
        as (fwd & fwdDF & stp & stpDF & w1' & fws' & Hrun' & Hh & _).
      rewrite Hrun in Hrun'. injection Hrun' as _ Hw _. subst w1'.
      unfold handles in Hh. injection Hh as _ _ H3 _. rewrite H3. discriminate.
    + now destruct (ensureForwarders_idle key k d w r w1 Hrun) as [-> _].
  - now rewrite stopForwarders_keeps_stop.
  - unfold handles in Hsame. injection Hsame as _ _ H3 _. now rewrite H3.
Qed.

Lemma lifecycle_stop_set `{!Constants, !Package} {E K : Type} `{!EncryptorMakers E}
    (w0 w : World) :
  rtc (@lifecycle_step _ _ E K _) w0 w ->
  stopForward (conn w0) <> None -> stopForward (conn w) <> None.
Proof.
  intros Hsteps. induction Hsteps as [w0 | w0 w1 w Hstep _ IH]; [auto |].
  intros Hset. apply IH. exact (lifecycle_step_stop_set w0 w1 Hstep Hset).
Qed.

(** X19.  The handles of a connection are set and cleared together, so the
    second send of [stopForwarders] is never on a nil channel.  On a
    connection that started with no handle set, after any sequence of
    calls of [ensureForwarders] (failing or not), of starts of
    [stopForwarders] and of steps that leave the handles alone,
    [forwardChan] and [forwardChanDF] are nil together and [stopForward]
    and [stopForwardDF] are nil together.  A call of [stopForwarders] made
    then returns without a send when [stopForward] is nil and waits in a
    send on it otherwise; when that send is received, after any further
    such steps, [conn.stopForwardDF] is not nil, so the call never waits in
    a send on a nil channel.  Whether its sends are received is another
    matter: that takes a pipeline standing at its outer [select]. *)
Theorem stop_handles_paired `{!Constants, !Package} {E K : Type}
    `{!EncryptorMakers E} (w0 w : World) :
  handles (conn w0) = (None, None, None, None) ->
  rtc (@lifecycle_step _ _ E K _) w0 w ->
  (forwardChan (conn w) = None <-> forwardChanDF (conn w) = None) /\
  (stopForward (conn w) = None <-> stopForwardDF (conn w) = None) /\
  (stopForward (conn w) = None -> fst (stopForwarders w) = Stopped) /\
  (forall s, stopForward (conn w) = Some s -> fst (stopForwarders w) = SendingStop s) /\
  (forall s w2, stopForward (conn w) = Some s ->
     rtc (@lifecycle_step _ _ E K _) (snd (stopForwarders w)) w2 ->
     exists sDF, stopForwardDF (conn w2) = Some sDF /\
       stop_received (SendingStop s) w2 = (SendingStopDF (Some sDF), stop_send sDF w2) /\
       fst (stop_received (SendingStop s) w2) <> SendingStopDF None).
Proof.
  intros Hinit Hsteps.
  assert (Hinit' : handles_paired (conn w0)).
  { unfold handles in Hinit. injection Hinit as H1 H2 H3 H4.
    unfold handles_paired. rewrite H1, H2, H3, H4. repeat split; congruence. }
  assert (Hinv : handles_paired (conn w)) by exact (lifecycle_paired w0 w Hsteps Hinit').
  split; [apply Hinv |]. split; [apply Hinv |].
  split; [intros Hnil; unfold stopForwarders; now rewrite Hnil |].
  split; [intros s Hs; unfold stopForwarders; now rewrite Hs |].
  intros s w2 Hs Hmore.
  assert (Hinv2 : handles_paired (conn w2)).
  { apply (lifecycle_paired (snd (stopForwarders w)) w2 Hmore).
    now apply stopForwarders_paired. }
  assert (Hset : stopForward (conn w2) <> None).
  { apply (lifecycle_stop_set (snd (stopForwarders w)) w2 Hmore).
    rewrite stopForwarders_keeps_stop, Hs. discriminate. }
  destruct Hinv2 as (_ & Hstop & _).
  destruct (stopForwardDF (conn w2)) as [sDF |] eqn:HsDF.
  - exists sDF. split; [reflexivity |].
    unfold stop_received. rewrite HsDF. split; [reflexivity | discriminate].
  - destruct Hset. now apply Hstop.
Qed.

Lemma stop_handles_paired_witness :
  exists sDF,
    stop_received (SendingStop 0%nat)
      (snd (stopForwarders
         (snd (fst (@ensureForwarders weave_constants weave_package _ _ plain_makers
                      None net_1000 (inr net_1000) (world_idle 1400 false))))))
    = (SendingStopDF (Some sDF),
       stop_send sDF
         (snd (stopForwarders
            (snd (fst (@ensureForwarders weave_constants weave_package _ _ plain_makers
                         None net_1000 (inr net_1000) (world_idle 1400 false))))))).
Proof.
  destruct (@ensureForwarders weave_constants weave_package _ _ plain_makers
              None net_1000 (inr net_1000) (world_idle 1400 false))
    as [[r w1] fws] eqn:Hrun.
  assert (Hs : stopForward (conn w1) = Some 0%nat).
  { vm_compute in Hrun. injection Hrun as _ <- _. reflexivity. }
  destruct (proj2 (proj2 (proj2 (proj2
              (@stop_handles_paired weave_constants weave_package
                 PlainEncryptor TestNet plain_makers
                 (world_idle 1400 false) w1 eq_refl
                 (rtc_once _ _ (life_ensure _ _ _ _ _ _ _ Hrun))))))
              0%nat (snd (stopForwarders w1)) Hs (rtc_refl _ _))
    as (sDF & _ & Hrecv & _).
  exists sDF. exact Hrecv.
Defined.

(* ===================================================================== *)
(** * From [Forward] to the wire *)
(* ===================================================================== *)

Section PlainFlush.
  Context `{!Constants} {E U : Type} `{!Encryptor E, !UDPSender U}.
  Implicit Types (l : Locals E U) (w : World).

  (** A flush whose send reports no [FrameTooBigError]. *)
Lemma flush_plain l w :
    (forall p fr, fst (Send (fst (Bytes (l_enc l))) (l_udpSender l))
                  <> Some (FrameTooBigError p fr)) ->
    exists w',
      flush l w
      = Returned tt
          (set_udpSender (snd (Send (fst (Bytes (l_enc l))) (l_udpSender l)))
             (set_enc (snd (Bytes (l_enc l)))
                (record (EvSend (fst (Bytes (l_enc l))) (l_maxPayload l)) l)), w') /\
      frameChans w' = frameChans w /\ logged w' = logged w /\
      handles (conn w') = handles (conn w).
  Proof.
    intros Hno.
    destruct (Bytes (l_enc l)) as [msg e1] eqn:Hb. simpl in *.
    destruct (Send msg (l_udpSender l)) as [[err |] u1] eqn:Hs; simpl in *.
    - rewrite (flush_other_error l w msg e1 u1 err Hb Hs)
        by (intros p fr ->; now apply (Hno p fr)).
      eexists. split; [reflexivity |].
      destruct (PosixError err =? ENOBUFS); repeat split.
    - rewrite (flush_no_error l w msg e1 u1 Hb Hs).
      eexists. split; [reflexivity |]. repeat split.
  Qed.
End PlainFlush.

Lemma simple_send_not_too_big {K : Type} `{!SocketOps K} (msg : list byte)
    (u : SimpleUDPSender K) (p : Z) (fr : option ForwardedFrame) :
  fst (SimpleUDPSender_Send msg u) <> Some (FrameTooBigError p fr).
Proof.
  destruct (simple_never_too_big u I) as [_ Hsend].
  exact (proj2 (Hsend msg) p fr).
Qed.

(** X20.  From [Forward] to the wire.  On a connection whose stack
    fragments, once [ensureForwarders] has started the pipelines, a frame
    given to [Forward] with [df = false] that fits the budget [DefaultPMTU -
    UDPOverhead] of the new pipeline is sent on [forwardChan], received by
    the pipeline, appended to its encryptor, and, the channel being empty,
    flushed at once: the datagram [enc.Bytes()] goes to [WriteToUDP] on the
    router's listener, for the remote address of the connection, and the
    task is back at its outer [select] with the channel empty. *)
Theorem forwarded_frame_leaves `{!Constants, !Package, !LayerSerializer} {E K : Type}
    `{!EncryptorMakers E, !Encryptor E, !SocketOps K} (fuel : nat)
    (SessionKey : option (list byte)) (UDPListener ipSocket : K) (w : World)
    (f : ForwardedFrame) (dec : option EthernetDecoder) :
  let enc0 := match SessionKey with
              | Some key => NewNaClEncryptor (local (conn w)) key false
              | None => NewNonEncryptor (local (conn w))
              end in
  let msg := fst (Bytes (AppendFrame f enc0)) in
  forwardChan (conn w) = None ->
  forwardChanDF (conn w) = None ->
  stackFrag (conn w) = true ->
  TotalLen enc0 + FrameOverhead enc0 + len (frame f) <= DefaultPMTU - UDPOverhead ->
  exists fwd w1 (fws : Forwarders E K) w2 t' w3,
    ensureForwarders SessionKey UDPListener (inr ipSocket) w = (None, w1, Some fws) /\
    forwardChan (conn w1) = Some fwd /\
    Forward fuel false f dec w1 = Returned None w2 /\
    queue fwd w2 = [f] /\
    @run _ _ _ _ simple_udp_sender [TakeFrame; TakeFrame] (fw_plain fws, w2)
      = Some (t', w3) /\
    ctl t' = AtOuterSelect /\
    l_trace (locals t') = [EvAppendFrame f; EvSend msg (DefaultPMTU - UDPOverhead)] /\
    udpConn (l_udpSender (locals t'))
      = snd (WriteToUDP msg (RemoteUDPAddr UDPListener) UDPListener) /\
    l_enc (locals t') = snd (Bytes (AppendFrame f enc0)) /\
    queue fwd w3 = [].
Proof.
  intros enc0 msg Hf HfDF Hfrag Hfit.
  destruct (ensureForwarders_starts SessionKey UDPListener ipSocket w Hf HfDF)
    as (fwd & fwdDF & stp & stpDF & w1 & fws & Hrun & Hh & _ & _ & (Hq & _) & _ & _
        & (_ & _ & _ & _ & Hsf & _) & Hplain & _).
  fold enc0 in Hplain.
  unfold handles in Hh. injection Hh as Hc1 Hc2 _ _.
  exists fwd, w1, fws, (chan_send fwd f w1).
  assert (Hfwd : Forward fuel false f dec w1 = Returned None (chan_send fwd f w1)).
  { unfold Forward. rewrite Hc1, Hc2, Hsf, Hfrag. reflexivity. }
  assert (Hq2 : queue fwd (chan_send fwd f w1) = [f]).
  { rewrite queue_chan_send_eq, Hq. reflexivity. }
  set (l0 := locals (fw_plain fws)).
  assert (Hl0 : fw_plain fws = {| ctl := AtOuterSelect; locals := l0 |}).
  { unfold l0. rewrite Hplain. reflexivity. }
  assert (Hch : l_forwardCh l0 = fwd) by (unfold l0; rewrite Hplain; reflexivity).
  assert (Henc : l_enc l0 = enc0) by (unfold l0; rewrite Hplain; reflexivity).
  assert (Hmp : l_maxPayload l0 = DefaultPMTU - UDPOverhead)
    by (unfold l0; rewrite Hplain; reflexivity).
  assert (Htr : l_trace l0 = []) by (unfold l0; rewrite Hplain; reflexivity).
  assert (Hu : l_udpSender l0 = NewSimpleUDPSender UDPListener)
    by (unfold l0; rewrite Hplain; reflexivity).
  set (l1 := enc_AppendFrame f l0).
  assert (Hstep1 : @outer_select _ _ _ _ simple_udp_sender TakeFrame l0 (chan_send fwd f w1)
                   = Some ({| ctl := AtInnerSelect; locals := l1 |},
                           chan_pop fwd [] (chan_send fwd f w1))).
  { unfold outer_select. rewrite Hch, Hq2.
    rewrite appendFrame_fits by (rewrite Henc, Hmp; exact Hfit). reflexivity. }
  destruct (@flush_plain _ _ _ _ simple_udp_sender l1 (chan_pop fwd [] (chan_send fwd f w1))
              ltac:(intros p fr; apply simple_send_not_too_big))
    as (w3 & Hflush & Hfc & _).
  assert (Hstep2 : @inner_select _ _ _ _ simple_udp_sender l1
                     (chan_pop fwd [] (chan_send fwd f w1))
                   = @resume _ _ simple_udp_sender AtOuterSelect
                       (@flush _ _ _ _ simple_udp_sender l1
                          (chan_pop fwd [] (chan_send fwd f w1)))).
  { unfold inner_select.
    replace (l_forwardCh l1) with fwd by (unfold l1; simpl; congruence).
    rewrite queue_chan_pop. reflexivity. }
  eexists _, w3.
  split; [exact Hrun |]. split; [exact Hc1 |]. split; [exact Hfwd |].
  split; [exact Hq2 |].
  split.
  { rewrite Hl0. cbn [run ctl fst snd locals]. rewrite Hstep1.
    cbn [run ctl fst snd locals]. rewrite Hstep2, Hflush. reflexivity. }
  simpl. split; [reflexivity |].
  split; [unfold l1, enc_AppendFrame; simpl; rewrite Htr, Henc, Hmp; reflexivity |].
  split.
  { unfold l1, enc_AppendFrame. simpl. rewrite Henc, Hu. fold msg.
    unfold SimpleUDPSender_Send, NewSimpleUDPSender. simpl.
    now destruct (WriteToUDP msg (RemoteUDPAddr UDPListener) UDPListener). }
  split; [unfold l1, enc_AppendFrame; simpl; now rewrite Henc |].
  unfold queue. rewrite Hfc. apply queue_chan_pop.
Qed.

Lemma forwarded_frame_leaves_witness :
  exists w1 fws w2 t' w3,
    @ensureForwarders weave_constants weave_package _ _ plain_makers
      None net_1000 (inr net_1000) (world_idle 1400 true) = (None, w1, Some fws) /\
    @Forward weave_constants wire_serializer 1 false frame_50 None w1 = Returned None w2 /\
    @run weave_constants _ _ plain_encryptor (@simple_udp_sender _ test_net_ops)
      [TakeFrame; TakeFrame] (fw_plain fws, w2) = Some (t', w3) /\
    tn_datagrams (udpConn (l_udpSender (locals t')))
      = [x01 :: be16 50 ++ replicate 50 x00].
Proof.
  destruct (@forwarded_frame_leaves weave_constants weave_package wire_serializer _ _
              plain_makers plain_encryptor test_net_ops 1 None net_1000 net_1000
              (world_idle 1400 true) frame_50 None eq_refl eq_refl eq_refl
              ltac:(vm_compute; discriminate))
    as (fwd & w1 & fws & w2 & t' & w3 & Hrun & _ & Hfwd & _ & Hsteps & _ & _ & Hudp & _).
  exists w1, fws, w2, t', w3.
  split; [exact Hrun |]. split; [exact Hfwd |]. split; [exact Hsteps |].
  rewrite Hudp. reflexivity.
Defined.

(* ===================================================================== *)
(** * The client PMTU of [Forward] and the budget of the DF pipeline *)
(* ===================================================================== *)

Section AdmitFacts.
  Context `{!Constants} {E U : Type} `{!Encryptor E, !UDPSender U, !EncryptorLaws E}.
  Implicit Types (l : Locals E U) (w : World).

Lemma verify_once_reset f l :
    PacketOverhead (l_enc (verify_once f l)) = PacketOverhead (l_enc l) /\
    FrameOverhead (l_enc (verify_once f l)) = FrameOverhead (l_enc l) /\
    TotalLen (l_enc (verify_once f l)) <= PacketOverhead (l_enc l) /\
    l_maxPayload (verify_once f l) = l_maxPayload l.
  Proof.
    unfold verify_once, send_Bytes, enc_AppendFrame. simpl.
    pose proof (law_bytes_reset (AppendFrame f (l_enc l))) as Hreset.
    destruct (law_bytes_overheads (AppendFrame f (l_enc l))) as [Hfo Hpo].
    destruct (law_append_overheads f (l_enc l)) as [Hfo' Hpo'].
    destruct (Bytes (AppendFrame f (l_enc l))) as [msg e1].
    destruct (Send msg (l_udpSender l)) as [err u1]. simpl in *.
    repeat split; congruence || lia.
  Qed.

Lemma iter_verify_once_reset f (n : nat) l :
    PacketOverhead (l_enc (Nat.iter (S n) (verify_once f) l)) = PacketOverhead (l_enc l) /\
    FrameOverhead (l_enc (Nat.iter (S n) (verify_once f) l)) = FrameOverhead (l_enc l) /\
    TotalLen (l_enc (Nat.iter (S n) (verify_once f) l)) <= PacketOverhead (l_enc l) /\
    l_maxPayload (Nat.iter (S n) (verify_once f) l) = l_maxPayload l.
  Proof.
    induction n as [| n (IHpo & IHfo & IHt & IHmp)].
    - apply verify_once_reset.
    - change (Nat.iter (S (S n)) (verify_once f) l)
        with (verify_once f (Nat.iter (S n) (verify_once f) l)).
      destruct (verify_once_reset f (Nat.iter (S n) (verify_once f) l))
        as (Hpo & Hfo & Ht & Hmp).
      repeat split; congruence || lia.
  Qed.

  (** Once [updateClientPMTU] has returned, a frame within the client PMTU
      it wrote to the connection fits the batch. *)
Lemma updateClientPMTU_admits l w r l' w' :
    l_clientPMTU l + EthernetOverhead + FrameOverhead (l_enc l) + PacketOverhead (l_enc l)
      <= l_maxPayload l ->
    updateClientPMTU l w = Returned r (l', w') ->
    clientPMTU (conn w') = l_clientPMTU l /\
    forall f, fits f (clientPMTU (conn w')) = true ->
              appendFrame f l' = (true, enc_AppendFrame f l').
  Proof.
    intros Hrel Hrun.
    destruct (updateClientPMTU_writes l w) as [_ Hw]. rewrite Hrun in Hw. simpl in Hw.
    split; [exact Hw |]. intros f Hfits. apply fits_true in Hfits. rewrite Hw in Hfits.
    unfold updateClientPMTU in Hrun. destruct make_bytes as [b |]; [| discriminate].
    match type of Hrun with
    | Returned _ (set_pmtuVerifyTick true (Nat.iter 10 (verify_once ?vf) l), _) = _ =>
        destruct (iter_verify_once_reset vf 9 l) as (Hpo & Hfo & Ht & Hmp);
        remember (Nat.iter 10 (verify_once vf) l) as l10 eqn:Hl10; clear Hl10
    end.
    assert (Hl' : l' = set_pmtuVerifyTick true l10) by congruence. subst l'.
    apply appendFrame_fits. simpl. lia.
  Qed.
End AdmitFacts.

(** X21.  After a recomputation the dispatcher and the DF pipeline agree:
    with an encryptor of accurate accounting, when a flush that met
    [FrameTooBigError] has returned, or a verify tick that found the client
    PMTU unverified has returned (the client PMTU having been within the
    budget before, up to the 10 the tick takes off), every frame that
    passes the test of [Forward] against the client PMTU now written in the
    connection is appended by the pipeline and not dropped. *)
Theorem admitted_frames_fit `{!Constants} {E U : Type} `{!Encryptor E, !UDPSender U}
    (l : Locals E U) (w : World) :
  EncryptorLaws E ->
  (forall msg e1 u1 p fr l' w',
     Bytes (l_enc l) = (msg, e1) ->
     Send msg (l_udpSender l) = (Some (FrameTooBigError p fr), u1) ->
     flush l w = Returned tt (l', w') ->
     forall f, fits f (clientPMTU (conn w')) = true ->
               appendFrame f l' = (true, enc_AppendFrame f l')) /\
  (forall l' w',
     isClientPMTUVerfied w = false ->
     l_clientPMTU l - 10 + EthernetOverhead + FrameOverhead (l_enc l)
       + PacketOverhead (l_enc l) <= l_maxPayload l ->
     outer_select TakeTick l w = Some ({| ctl := AtOuterSelect; locals := l' |}, w') ->
     forall f, fits f (clientPMTU (conn w')) = true ->
               appendFrame f l' = (true, enc_AppendFrame f l')).
Proof.
  intros Hlaws. split.
  - intros msg e1 u1 p fr l' w' Hb Hsend Hflush.
    unfold flush, send_Bytes in Hflush. rewrite Hb, Hsend in Hflush.
    refine (proj2 (updateClientPMTU_admits _ w tt l' w' _ Hflush)). simpl. lia.
  - intros l' w' Hunv Hrel Hsel. unfold outer_select in Hsel.
    destruct (l_pmtuVerifyTick l); [| discriminate].
    rewrite Hunv in Hsel. simpl in Hsel.
    match type of Hsel with
    | Some (resume _ (updateClientPMTU ?l1 w)) = _ =>
        destruct (updateClientPMTU l1 w) as [r [l2 w2] | [l2 w2] | [l2 w2] | [l2 w2]] eqn:Hrun;
        simpl in Hsel; try discriminate;
        injection Hsel as -> ->;
        exact (proj2 (updateClientPMTU_admits l1 w r l' w' Hrel Hrun))
    end.
Qed.

Lemma admitted_frames_fit_witness :
  fst (@appendFrame _ _ plain_encryptor frame_69
         (fst (outcome_state (@flush weave_constants _ _ plain_encryptor scripted_sender
                                locals_pmtu_100 (world_ready 1400 false))))) = true.
Proof.
  destruct (@flush weave_constants _ _ plain_encryptor scripted_sender
              locals_pmtu_100 (world_ready 1400 false))
    as [[] [l' w'] | s | s | s] eqn:Hflush; try (vm_compute in Hflush; discriminate).
  assert (Hw : clientPMTU (conn w') = 55).
  { vm_compute in Hflush. injection Hflush as _ <-. reflexivity. }
  simpl.
  rewrite (proj1 (@admitted_frames_fit weave_constants _ _ plain_encryptor scripted_sender
                    locals_pmtu_100 (world_ready 1400 false) plain_encryptor_laws)
             (x01 :: be16 50 ++ replicate 50 x00) {| pe_batch := [] |}
             {| ss_script := [] |} 100 None l' w' eq_refl eq_refl Hflush frame_69).
  - reflexivity.
  - rewrite Hw. reflexivity.
Defined.

(** X22.  Before any recomputation they do not agree: [ensureForwarders]
    gives the DF pipeline the client PMTU of the connection as its PMTU, so
    its budget is [clientPMTU - UDPOverhead], while [Forward] with [df =
    true] admits a frame up to [clientPMTU + EthernetOverhead] bytes.  A
    frame between the two is sent on [forwardChanDF] with [Forward]
    returning nil, and the pipeline, whatever its sender, takes it off the
    channel, logs it as dropped and appends and sends nothing. *)
Theorem admitted_frame_dropped_at_start `{!Constants, !Package, !LayerSerializer}
    {E K : Type} `{!EncryptorMakers E, !Encryptor E} (fuel : nat)
    (SessionKey : option (list byte)) (UDPListener ipSocket : K) (w : World)
    (f : ForwardedFrame) (dec : option EthernetDecoder) :
  let encDF := match SessionKey with
               | Some key => NewNaClEncryptor (local (conn w)) key true
               | None => NewNonEncryptor (local (conn w))
               end in
  forwardChan (conn w) = None ->
  forwardChanDF (conn w) = None ->
  len (frame f) - EthernetOverhead <= clientPMTU (conn w) ->
  clientPMTU (conn w) - UDPOverhead < TotalLen encDF + FrameOverhead encDF + len (frame f) ->
  exists fwdDF w1 (fws : Forwarders E K) w2 w3,
    ensureForwarders SessionKey UDPListener (inr ipSocket) w = (None, w1, Some fws) /\
    forwardChanDF (conn w1) = Some fwdDF /\
    Forward fuel true f dec w1 = Returned None w2 /\
    queue fwdDF w2 = [f] /\
    (forall sender : UDPSender (RawUDPSender K),
       @run _ _ _ _ sender [TakeFrame] (fw_DF fws, w2) = Some (fw_DF fws, w3)) /\
    queue fwdDF w3 = [] /\
    logged w3 = logged w ++ [LogDroppingTooBig (len (frame f)) (clientPMTU (conn w))].
Proof.
  intros encDF Hf HfDF Hadmit Hbig.
  destruct (ensureForwarders_starts SessionKey UDPListener ipSocket w Hf HfDF)
    as (fwd & fwdDF & stp & stpDF & w1 & fws & Hrun & Hh & _ & _ & (_ & Hq & _) & _ & _
        & (_ & _ & Hp & _ & _ & _ & Hlog) & _ & HDF).
  fold encDF in HDF.
  unfold handles in Hh. injection Hh as Hc1 Hc2 _ _.
  set (l0 := locals (fw_DF fws)).
  assert (Hl0 : fw_DF fws = {| ctl := AtOuterSelect; locals := l0 |})
    by (unfold l0; rewrite HDF; reflexivity).
  assert (Hch : l_forwardCh l0 = fwdDF) by (unfold l0; rewrite HDF; reflexivity).
  assert (Henc : l_enc l0 = encDF) by (unfold l0; rewrite HDF; reflexivity).
  assert (Hmp : l_maxPayload l0 = clientPMTU (conn w) - UDPOverhead)
    by (unfold l0; rewrite HDF; reflexivity).
  assert (Hpm : l_pmtu l0 = clientPMTU (conn w)) by (unfold l0; rewrite HDF; reflexivity).
  exists fwdDF, w1, fws, (chan_send fwdDF f w1),
    (logDrop f l0 (chan_pop fwdDF [] (chan_send fwdDF f w1))).
  assert (Hq2 : queue fwdDF (chan_send fwdDF f w1) = [f])
    by (rewrite queue_chan_send_eq, Hq; reflexivity).
  split; [exact Hrun |]. split; [exact Hc2 |].
  split.
  { unfold Forward. rewrite Hc1, Hc2, Hp.
    apply fits_true in Hadmit. rewrite Hadmit. reflexivity. }
  split; [exact Hq2 |].
  split.
  { intros sender. rewrite Hl0. cbn [run ctl fst snd locals].
    unfold outer_select. rewrite Hch, Hq2.
    destruct (appendFrame_cases f l0) as [[_ Hfit] | [-> _]];
      [rewrite Henc, Hmp in Hfit; lia | reflexivity]. }
  split; [apply queue_chan_pop |].
  unfold logDrop. simpl. rewrite Hlog, Hpm. reflexivity.
Qed.

Lemma admitted_frame_dropped_at_start_witness :
  exists w1 fws w2,
    @ensureForwarders weave_constants weave_package _ _ plain_makers
      None net_1000 (inr net_1000) (world_idle 1400 false) = (None, w1, Some fws) /\
    @Forward weave_constants wire_serializer 1 true frame_1400 None w1 = Returned None w2 /\
    fst (@appendFrame _ _ plain_encryptor frame_1400 (locals (fw_DF fws))) = false.
Proof.
  destruct (@admitted_frame_dropped_at_start weave_constants weave_package wire_serializer
              _ _ plain_makers plain_encryptor 1 None net_1000 net_1000
              (world_idle 1400 false) frame_1400 None eq_refl eq_refl
              ltac:(vm_compute; discriminate) ltac:(vm_compute; reflexivity))
    as (fwdDF & w1 & fws & w2 & w3 & Hrun & _ & Hfwd & _).
  exists w1, fws, w2. split; [exact Hrun |]. split; [exact Hfwd |].
  vm_compute in Hrun. injection Hrun as _ <-. reflexivity.
Defined.

(* ===================================================================== *)
(** * The inner loop ends *)
(* ===================================================================== *)

Section InnerLoopFacts.
  Context `{!Constants} {E U : Type} `{!Encryptor E, !UDPSender U}.
  Implicit Types (l : Locals E U) (w : World).

  (** One pass of the inner loop: it leaves the inner [select] with the
      channel as it found it or one frame shorter, or stays with the
      channel one frame shorter. *)
Lemma inner_select_progress l w :
    let s' := inner_select l w in
    let c := l_forwardCh l in
    l_forwardCh (locals (fst s')) = c /\
    (ctl (fst s') = AtInnerSelect -> exists f, queue c w = f :: queue c (snd s')) /\
    (queue c (snd s') = queue c w \/ exists f, queue c w = f :: queue c (snd s')).
  Proof.
    intros s' c. unfold s', inner_select. fold c.
    destruct (queue c w) as [| f q] eqn:Hq.
    - pose proof (flush_frame l w) as (Hfc & _ & _ & Hch & _).
      destruct (flush l w) as [r [l2 w2] | [l2 w2] | [l2 w2] | [l2 w2]]; simpl in *;
        (split; [exact Hch |]); (split; [discriminate |]); left;
        unfold queue in *; rewrite Hfc; exact Hq.
    - assert (Hpop : queue c (chan_pop c q w) = q) by apply queue_chan_pop.
      destruct (appendFrame_cases f l) as [[-> _] | [-> _]]; simpl.
      + split; [reflexivity |]. rewrite Hpop. split; [eauto |]. right. eauto.
      + pose proof (flush_frame l (chan_pop c q w)) as (Hfc & _ & _ & Hch & _).
        assert (Hq2 : forall w2, frameChans w2 = frameChans (chan_pop c q w) ->
                                 queue c w2 = q).
        { intros w2 Hw2. unfold queue in *. now rewrite Hw2. }
        destruct (flush l (chan_pop c q w)) as [r [l2 w2] | [l2 w2] | [l2 w2] | [l2 w2]];
          simpl in *;
          try (split; [exact Hch |]; rewrite (Hq2 w2 Hfc); split; [discriminate | right; eauto]).
        destruct (appendFrame_cases f l2) as [[-> _] | [-> _]]; simpl.
        * split; [exact Hch |]. rewrite (Hq2 w2 Hfc). split; [eauto | right; eauto].
        * split; [exact Hch |].
          assert (Hq3 : queue c (logDrop f l2 w2) = q) by (apply Hq2; exact Hfc).
          rewrite Hq3. split; [discriminate | right; eauto].
  Qed.

End InnerLoopFacts.

(** X23.  The inner loop ends: when no frame arrives from outside, the
    loop [for !flushed] leaves its [select] after at most one pass per
    frame waiting on the channel and one more, whatever the encryptor and
    the sender answer; it takes frames from the front of the channel only,
    and what is left on the channel when it leaves is a suffix of what was
    there. *)
Theorem inner_loop_exits `{!Constants} {E U : Type} `{!Encryptor E, !UDPSender U}
    (fuel : nat) (l : Locals E U) (w : World) :
  (length (queue (l_forwardCh l) w) < fuel)%nat ->
  exists s',
    inner_loop fuel l w = Returned tt s' /\
    ctl (fst s') <> AtInnerSelect /\
    queue (l_forwardCh l) (snd s') `suffix_of` queue (l_forwardCh l) w.
Proof.
  revert l w. induction fuel as [| fuel IH]; intros l w Hlen; [lia |].
  destruct (inner_select_progress l w) as (Hch & Hstay & Hq).
  cbn [inner_loop].
  destruct (ctl (fst (inner_select l w))) eqn:Hctl.
  - eexists. split; [reflexivity |]. split; [congruence |].
    destruct Hq as [-> | [f ->]]; [reflexivity | apply suffix_cons_r; reflexivity].
  - destruct (Hstay eq_refl) as [f Hf].
    destruct (IH (locals (fst (inner_select l w))) (snd (inner_select l w)))
      as (s' & Hrun & Hout & Hsuf).
    { rewrite Hch. rewrite Hf in Hlen. simpl in Hlen. lia. }
    exists s'. split; [exact Hrun |]. split; [exact Hout |].
    rewrite Hch in Hsuf. rewrite Hf. now apply suffix_cons_r.
  - eexists. split; [reflexivity |]. split; [congruence |].
    destruct Hq as [-> | [f ->]]; [reflexivity | apply suffix_cons_r; reflexivity].
  - eexists. split; [reflexivity |]. split; [congruence |].
    destruct Hq as [-> | [f ->]]; [reflexivity | apply suffix_cons_r; reflexivity].
Qed.

Lemma inner_loop_exits_witness :
  exists s',
    @inner_loop weave_constants _ _ plain_encryptor scripted_sender 2
      locals_pmtu_100 world_one_frame = Returned tt s' /\
    ctl (fst s') <> AtInnerSelect.
Proof.
  destruct (@inner_loop_exits weave_constants _ _ plain_encryptor scripted_sender 2
              locals_pmtu_100 world_one_frame ltac:(vm_compute; lia))
    as (s' & Hrun & Hout & _).
  exists s'. split; [exact Hrun | exact Hout].
Defined.

(* ===================================================================== *)
(** * Fragment offsets on the wire *)
(* ===================================================================== *)

(** X24.  The fragment offsets count 8-byte units and stay inside their 13
    bits: for a decoded header whose payload ends within 64 KiB of the
    start of the original datagram, segment [k] has fragment offset
    [FragOffset + k * (maxSegmentSize / 8)], which is less than [2^13],
    and 8 times its distance from the original offset is [k *
    maxSegmentSize], the position of its payload in the payload that was
    cut. *)
Theorem fragment_offsets_in_units `{!Constants} (fuel : nat) (e : Ethernet) (i : IPv4)
    (pmtu : Z) (payload : list byte) :
  let headerSize := ip_IHL i * 4 in
  let mss := maxSegmentSize pmtu headerSize in
  let payloadSize := ip_Length i - headerSize in
  decoded_IPv4 i ->
  slice_upto (ip_Payload i) payloadSize = Some payload ->
  0 < mss ->
  ceil_div payloadSize mss < Z.of_nat fuel ->
  8 * ip_FragOffset i + payloadSize <= 2 ^ 16 ->
  forall (k : nat) (seg : Segment),
    segments fuel e i pmtu !! k = Some seg ->
    ip_FragOffset (seg_ip seg) = ip_FragOffset i + Z.of_nat k * (mss / 8) /\
    0 <= ip_FragOffset (seg_ip seg) < 2 ^ 13 /\
    8 * (ip_FragOffset (seg_ip seg) - ip_FragOffset i) = Z.of_nat k * mss /\
    seg_payload seg = take (Z.to_nat mss) (drop (Z.to_nat (Z.of_nat k * mss)) payload).
Proof.
  intros headerSize mss payloadSize Hdec Hs Hmss Hfuel Hend k seg Hseg.
  destruct (segments_layout_decoded fuel e i pmtu payload Hdec Hs Hmss Hfuel) as [Hn Hk].
  fold headerSize mss payloadSize in Hn, Hk.
  destruct (Hk k seg Hseg) as (Ho & _ & Hp).
  pose proof (index_below_payload payloadSize mss k _ Hmss Hn (lookup_lt_Some _ _ _ Hseg))
    as Hb.
  destruct (maxSegmentSize_bounds pmtu headerSize) as [_ Hmod]. fold mss in Hmod.
  pose proof (Z.div_mod mss 8 ltac:(lia)) as Hdm. rewrite Hmod in Hdm.
  destruct Hdec as (_ & _ & _ & Hfo).
  assert (Hoff : ip_FragOffset (seg_ip seg) = ip_FragOffset i + Z.of_nat k * (mss / 8)).
  { rewrite Ho, Z.shiftl_mul_pow2, Z.shiftr_div_pow2 by lia. change (2 ^ 3) with 8.
    replace (Z.of_nat k * mss + ip_FragOffset i * 8)
      with ((ip_FragOffset i + Z.of_nat k * (mss / 8)) * 8) by lia.
    apply Z.div_mul. lia. }
  change (2 ^ 16) with 65536 in Hend. change (2 ^ 13) with 8192 in *.
  split; [exact Hoff |]. split; [| split].
  - assert (0 <= Z.of_nat k * (mss / 8)) by (apply Z.mul_nonneg_nonneg; lia). lia.
  - lia.
  - rewrite Hp. do 2 f_equal. lia.
Qed.

Lemma fragment_offsets_in_units_witness :
  exists seg,
    @segments weave_constants 4 eth_2500 ip_2500 1000 !! 2%nat = Some seg /\
    ip_FragOffset (seg_ip seg) = 240.
Proof.
  destruct (@segments weave_constants 4 eth_2500 ip_2500 1000 !! 2%nat) as [seg |] eqn:Hseg;
    [| vm_compute in Hseg; discriminate].
  exists seg. split; [reflexivity |].
  destruct (@fragment_offsets_in_units weave_constants 4 eth_2500 ip_2500 1000
              (replicate 2466 xff)
              ltac:(unfold decoded_IPv4; simpl; lia) eq_refl
              ltac:(vm_compute; reflexivity) ltac:(vm_compute; reflexivity)
              ltac:(vm_compute; discriminate) 2%nat seg Hseg) as (Hoff & _).
  rewrite Hoff. reflexivity.
Defined.

(* ===================================================================== *)
(** * Every datagram carries a frame *)
(* ===================================================================== *)

Lemma batch_state_snoc (tr : list IOEvent) (ev : IOEvent) :
  batch_state (tr ++ [ev]) = batch_step (batch_state tr) ev.
Proof. unfold batch_state. now rewrite foldl_app. Qed.

Lemma batch_step_some (st : option bool) (ev : IOEvent) (b : bool) :
  batch_step st ev = Some b ->
  (exists f, ev = EvAppendFrame f /\ b = true /\ is_Some st) \/
  (exists msg budget, ev = EvSend msg budget /\ b = false /\ st = Some true).
Proof.
  destruct st as [[] |], ev as [f | msg budget]; simpl; intros Heq;
    try discriminate; injection Heq as <-; eauto 8.
Qed.

Lemma batch_state_true (tr : list IOEvent) :
  batch_state tr = Some true -> exists tr' f, tr = tr' ++ [EvAppendFrame f].
Proof.
  destruct tr as [| ev tr _] using rev_ind; [discriminate |].
  rewrite batch_state_snoc. intros Hst.
  destruct (batch_step_some _ _ _ Hst) as [(f & -> & _) | (msg & budget & _ & Hb & _)];
    [eauto | discriminate].
Qed.

Lemma batch_state_sends (tr : list IOEvent) :
  is_Some (batch_state tr) ->
  forall pre msg budget post,
    tr = pre ++ EvSend msg budget :: post ->
    exists pre' f, pre = pre' ++ [EvAppendFrame f].
Proof.
  induction tr as [| ev tr IH] using rev_ind; intros [b Hst] pre msg budget post Heq.
  - now destruct pre.
  - rewrite batch_state_snoc in Hst.
    destruct post as [| ev' post _] using rev_ind.
    + apply app_inj_tail in Heq as [-> ->].
      destruct (batch_step_some _ _ _ Hst) as [(f & Hf & _) | (_ & _ & _ & _ & Htrue)];
        [discriminate | now apply batch_state_true].
    + rewrite app_comm_cons, app_assoc in Heq. apply app_inj_tail in Heq as [-> _].
      apply (IH ltac:(destruct (batch_step_some _ _ _ Hst)
                        as [(_ & _ & _ & Hs) | (_ & _ & _ & _ & ->)]; eauto)
               pre msg budget post eq_refl).
Qed.

Section BatchStateFacts.
  Context `{!Constants} {E U : Type} `{!Encryptor E, !UDPSender U}.
  Implicit Types (l : Locals E U) (w : World).

Lemma enc_AppendFrame_state f l :
    is_Some (batch_state (l_trace l)) ->
    batch_state (l_trace (enc_AppendFrame f l)) = Some true.
  Proof.
    intros [b Hb]. unfold enc_AppendFrame. simpl. rewrite batch_state_snoc, Hb.
    now destruct b.
  Qed.

Lemma send_Bytes_state l :
    batch_state (l_trace l) = Some true ->
    batch_state (l_trace (snd (send_Bytes l))) = Some false.
  Proof.
    intros Hb. rewrite send_Bytes_trace, batch_state_snoc, Hb. reflexivity.
  Qed.

Lemma verify_once_state f l :
    is_Some (batch_state (l_trace l)) ->
    batch_state (l_trace (verify_once f l)) = Some false.
  Proof.
    intros Hb. unfold verify_once. apply send_Bytes_state. now apply enc_AppendFrame_state.
  Qed.

Lemma iter_verify_once_state f (n : nat) l :
    batch_state (l_trace l) = Some false ->
    batch_state (l_trace (Nat.iter n (verify_once f) l)) = Some false.
  Proof.
    intros Hb. induction n as [| n IH]; [exact Hb |].
    change (Nat.iter (S n) (verify_once f) l) with (verify_once f (Nat.iter n (verify_once f) l)).
    apply verify_once_state. rewrite IH. eauto.
  Qed.

Lemma updateClientPMTU_state l w :
    batch_state (l_trace l) = Some false ->
    batch_state (l_trace (fst (outcome_state (updateClientPMTU l w)))) = Some false.
  Proof.
    intros Hb. unfold updateClientPMTU. destruct make_bytes as [b |]; [| exact Hb].
    match goal with
    | |- context [Nat.iter 10 (verify_once ?vf) l] =>
        pose proof (iter_verify_once_state vf 10 l Hb) as Hit;
        remember (Nat.iter 10 (verify_once vf) l) as l10 eqn:Hl10; clear Hl10
    end.
    exact Hit.
  Qed.

Lemma flush_state l w :
    batch_state (l_trace l) = Some true ->
    batch_state (l_trace (fst (outcome_state (flush l w)))) = Some false.
  Proof.
    intros Hb. unfold flush. pose proof (send_Bytes_state l Hb) as Hs.
    destruct (send_Bytes l) as [err l1]. simpl in Hs.
    destruct err as [[p fr | n | m] |]; simpl; try exact Hs.
    - now apply updateClientPMTU_state.
    - now destruct (n =? ENOBUFS).
  Qed.

Lemma resume_state_trace (c : Control) (o : Outcome unit (Locals E U * World)) :
    l_trace (locals (fst (resume c o))) = l_trace (fst (outcome_state o)).
  Proof. destruct o as [r [l w] | [l w] | [l w] | [l w]]; reflexivity. Qed.

Lemma resume_open (c : Control) (o : Outcome unit (Locals E U * World)) :
    c <> AtInnerSelect -> batch_open (fst (resume c o)) = false.
  Proof.
    intros Hc. destruct o as [r [l w] | [l w] | [l w] | [l w]]; simpl; try reflexivity.
    unfold batch_open. simpl. now destruct c.
  Qed.

Lemma outer_select_state (c : Choice) l w r :
    batch_state (l_trace l) = Some false ->
    outer_select c l w = Some r ->
    batch_state (l_trace (locals (fst r))) = Some (batch_open (fst r)).
  Proof.
    intros Hb Hsel. unfold outer_select in Hsel. destruct c.
    - destruct (stopChans w !!! l_stop l); [discriminate |]. injection Hsel as <-. exact Hb.
    - destruct (l_pmtuVerifyTick l); [| discriminate].
      destruct (negb (isClientPMTUVerfied w)); injection Hsel as <-; [| exact Hb].
      rewrite resume_state_trace, resume_open by discriminate.
      now apply updateClientPMTU_state.
    - destruct (queue (l_forwardCh l) w) as [| f q]; [discriminate |].
      destruct (appendFrame_cases f l) as [[Happ _] | [Happ _]]; rewrite Happ in Hsel;
        injection Hsel as <-; simpl.
      + apply enc_AppendFrame_state. rewrite Hb. eauto.
      + exact Hb.
  Qed.

Lemma inner_select_state l w :
    batch_state (l_trace l) = Some true ->
    batch_state (l_trace (locals (fst (inner_select l w))))
    = Some (batch_open (fst (inner_select l w))).
  Proof.
    intros Hb. unfold inner_select. destruct (queue (l_forwardCh l) w) as [| f q].
    - rewrite resume_state_trace, resume_open by discriminate. now apply flush_state.
    - destruct (appendFrame_cases f l) as [[-> _] | [-> _]]; simpl.
      + apply enc_AppendFrame_state. rewrite Hb. eauto.
      + pose proof (flush_state l (chan_pop (l_forwardCh l) q w) Hb) as Hfl.
        destruct (flush l _) as [r [l2 w2] | [l2 w2] | [l2 w2] | [l2 w2]]; simpl in *;
          try exact Hfl.
        destruct (appendFrame_cases f l2) as [[-> _] | [-> _]]; simpl.
        * apply enc_AppendFrame_state. rewrite Hfl. eauto.
        * exact Hfl.
  Qed.

Lemma task_step_state (s s' : Task E U * World) :
    task_step s s' ->
    batch_state (l_trace (locals (fst s))) = Some (batch_open (fst s)) ->
    batch_state (l_trace (locals (fst s'))) = Some (batch_open (fst s')).
  Proof.
    intros Hstep Hinv. destruct Hstep as [c l w r Hsel | l w | t w w'].
    - exact (outer_select_state c l w r Hinv Hsel).
    - exact (inner_select_state l w Hinv).
    - exact Hinv.
  Qed.

Lemma reachable_state (init s : Task E U * World) :
    reachable init s ->
    batch_state (l_trace (locals (fst init))) = Some (batch_open (fst init)) ->
    batch_state (l_trace (locals (fst s))) = Some (batch_open (fst s)).
  Proof.
    intros Hreach Hinit. induction Hreach as [| s s' _ IH Hstep]; [exact Hinit |].
    exact (task_step_state s s' Hstep IH).
  Qed.
End BatchStateFacts.

(** X25.  Every datagram carries a frame: in every state the task reaches,
    each send it has made, from a flush or for a verification, came right
    after an [AppendFrame], so no empty batch is ever handed to the sender;
    and whenever the task stands at the inner [select] the last call it made
    was an [AppendFrame]: it holds a frame that the next flush will send. *)
Theorem no_empty_datagram `{!Constants} {E U : Type} `{!Encryptor E, !UDPSender U}
    (forwardCh stop : chan) (e : E) (u : U) (pmtu : Z) (w0 : World)
    (t : Task E U) (w : World) :
  reachable (forwarderLoop forwardCh stop e u pmtu, w0) (t, w) ->
  (forall pre msg budget post,
     l_trace (locals t) = pre ++ EvSend msg budget :: post ->
     exists pre' f, pre = pre' ++ [EvAppendFrame f]) /\
  (ctl t = AtInnerSelect -> exists tr' f, l_trace (locals t) = tr' ++ [EvAppendFrame f]).
Proof.
  intros Hreach.
  pose proof (reachable_state _ _ Hreach eq_refl) as Hinv. simpl in Hinv.
  split.
  - apply batch_state_sends. rewrite Hinv. eauto.
  - intros Hctl. apply batch_state_true. rewrite Hinv. unfold batch_open. now rewrite Hctl.
Qed.

Lemma no_empty_datagram_witness :
  exists tr' f, l_trace (locals (fst df_inner)) = tr' ++ [EvAppendFrame f].
Proof.
  refine (proj2 (@no_empty_datagram weave_constants _ _ plain_encryptor scripted_sender
                   1%nat 1%nat {| pe_batch := [] |}
                   {| ss_script := [Some (FrameTooBigError 100 None)] |} 1400
                   world_one_frame (fst df_inner) (snd df_inner) _) _).
  - apply (run_reachable [TakeFrame] _ (df_task, world_one_frame)); [apply reach_init |].
    vm_compute. reflexivity.
  - reflexivity.
Defined.
